(** * Gemini Pulse: session store, streaming client, live audio and input

  A shallow embedding of the TypeScript sources
  - [src/types.ts]                    (data model),
  - [src/App.tsx]                     (session store, live session client),
  - [src/services/geminiService.ts]   (streaming client),
  - [src/components/ChatInput.tsx]    (input component),
  - [ChatMessage] component           (message renderer),
  together with the properties the specification states about them.

  React state is modelled by explicit state passing: a [setX] call is a
  function on the application state, applied when it is made (updates are
  not batched), and the effects that React runs after the render that
  follows are applied right after the update.  A handler runs as one step;
  a send is also given as the sequence of its updates, so that what other
  handlers do between two callbacks of a stream is covered, and the
  handler of a live message, which awaits the decoding of its audio, is
  given in two parts, before and after its [await], with the handlers that
  wait in a queue, so that what is delivered in between is covered.
  The hosted SDK, the browser's [btoa]/[atob], [FileReader], the audio
  context, [crypto.randomUUID] and [Date.now] are external: their results
  are inputs of the handlers.  Strings are sequences of eight-bit
  characters. *)

From Stdlib Require Import ZArith NArith QArith Ascii String List Bool Lia ZifyNat.
From stdpp Require Import base option list strings gmap pretty.

Import ListNotations.

(* ===================================================================== *)
(** * Base64: the browser's [btoa] and [atob] and the audio helpers      *)
(* ===================================================================== *)

Module Base64.

(** The sixty-four characters of the base64 alphabet (RFC 4648, table 1). *)
Definition alphabet : list ascii :=
  list_ascii_of_string
    "ABCDEFGHIJKLMNOPQRSTUVWXYZabcdefghijklmnopqrstuvwxyz0123456789+/".

Definition pad_char : ascii := "="%char.

(** Character of a six-bit value. *)
Definition enc_char (n : N) : ascii :=
  nth (N.to_nat n) alphabet pad_char.

Fixpoint index_of (c : ascii) (l : list ascii) : option N :=
  match l with
  | [] => None
  | x :: r => if Ascii.eqb c x then Some 0%N
              else N.succ <$> index_of c r
  end.

(** Six-bit value of a character, [None] outside the alphabet. *)
Definition dec_char (c : ascii) : option N := index_of c alphabet.

(** Three octets give four six-bit groups; a final group of one or two
    octets gives two or three of them, the missing bits being zero. *)
Fixpoint to_sextets (l : list N) : list N :=
  match l with
  | a :: b :: c :: r =>
      (a / 4) :: ((a mod 4) * 16 + b / 16) :: ((b mod 16) * 4 + c / 64)
      :: (c mod 64) :: to_sextets r
  | [a; b] => [a / 4; (a mod 4) * 16 + b / 16; (b mod 16) * 4]
  | [a] => [a / 4; (a mod 4) * 16]
  | [] => []
  end%N.

Fixpoint padding (l : list N) : list ascii :=
  match l with
  | _ :: _ :: _ :: r => padding r
  | [_; _] => [pad_char]
  | [_] => [pad_char; pad_char]
  | [] => []
  end.

(** [btoa]: a binary string (every code unit at most 255, which the
    eight-bit characters of [string] guarantee) to its base64 text. *)
Definition btoa (s : string) : string :=
  let codes := map N_of_ascii (list_ascii_of_string s) in
  string_of_list_ascii (map enc_char (to_sextets codes) ++ padding codes).

(** ASCII whitespace of the forgiving-base64 decoder: TAB, LF, FF, CR,
    SPACE. *)
Definition is_ascii_whitespace (c : ascii) : bool :=
  let n := N_of_ascii c in
  ((n =? 9) || (n =? 10) || (n =? 12) || (n =? 13) || (n =? 32))%N.

Definition drop_last_pad (l : list ascii) : option (list ascii) :=
  match rev l with
  | c :: r => if Ascii.eqb c pad_char then Some (rev r) else None
  | [] => None
  end.

(** Removes one or two trailing [=]. *)
Definition strip_padding (l : list ascii) : list ascii :=
  match drop_last_pad l with
  | Some l1 => match drop_last_pad l1 with
               | Some l2 => l2
               | None => l1
               end
  | None => l
  end.

(** Four six-bit groups give three octets; two left-over groups give one
    octet and three give two, the surplus bits being discarded. *)
Fixpoint of_sextets (l : list N) : list N :=
  match l with
  | s1 :: s2 :: s3 :: s4 :: r =>
      (s1 * 4 + s2 / 16) :: ((s2 mod 16) * 16 + s3 / 4)
      :: ((s3 mod 4) * 64 + s4) :: of_sextets r
  | [s1; s2; s3] => [s1 * 4 + s2 / 16; (s2 mod 16) * 16 + s3 / 4]
  | [s1; s2] => [s1 * 4 + s2 / 16]
  | _ => []
  end%N.

(** [atob]: the forgiving-base64 decoder.  [None] stands for the
    [InvalidCharacterError] exception. *)
Definition atob (s : string) : option string :=
  let data := List.filter (fun c => negb (is_ascii_whitespace c))
                          (list_ascii_of_string s) in
  let data := if (length data mod 4 =? 0)%nat then strip_padding data
              else data in
  if (length data mod 4 =? 1)%nat then None
  else sextets ← mapM dec_char data;
       Some (string_of_list_ascii (map ascii_of_N (of_sextets sextets))).

(** ** The audio helpers of [App.tsx] *)

(** [encode]: the loop appends [String.fromCharCode(bytes[i])] to
    [binary], then [btoa]. *)
Definition encode (bytes : list Byte.byte) : string :=
  let binary :=
    fold_left (fun binary b => binary +:+ String (ascii_of_byte b) "")
              bytes "" in
  btoa binary.

(** [decode]: [atob], then [bytes[i] = binaryString.charCodeAt(i)]. *)
Definition decode (base64 : string) : option (list Byte.byte) :=
  binaryString ← atob base64;
  Some (map byte_of_ascii (list_ascii_of_string binaryString)).

End Base64.

(* ===================================================================== *)
(** * Data model ([src/types.ts])                                         *)
(* ===================================================================== *)

Inductive Role := USER | MODEL | SYSTEM.

Inductive Language := en | pt | es | fr | de | it.

#[global] Instance Role_eq_dec : EqDecision Role.
Proof. solve_decision. Defined.

#[global] Instance Language_eq_dec : EqDecision Language.
Proof. solve_decision. Defined.

(** The storage form of a language code. *)
Definition lang_code (l : Language) : string :=
  match l with
  | en => "en" | pt => "pt" | es => "es" | fr => "fr" | de => "de" | it => "it"
  end.

(** [data] is declared [string]; the input component fills it with
    [split(',')[1]], which is [undefined] ([None]) when the data URL has no
    comma.  [url] is optional in the declaration. *)
Record Attachment := {
  mimeType : string;
  data : option string;
  url : option string
}.

(** [generatedImage?: { data; mimeType }].  The fields are copied unchecked
    from the SDK's [inlineData], whose two fields are optional. *)
Record GeneratedImage := {
  image_data : option string;
  image_mimeType : option string
}.

Record Message := {
  m_id : string;                          (* id *)
  role : Role;
  content : string;
  timestamp : Z;
  attachments : option (list Attachment);
  generatedImage : option GeneratedImage;
  isStreaming : option bool
}.

Record ChatSession := {
  s_id : string;                          (* id *)
  title : string;
  messages : list Message;
  updatedAt : Z;
  isKidMode : option bool
}.

(** JavaScript truthiness of the values the code tests. *)
Definition truthy_string (s : string) : bool :=
  negb (String.eqb s "").

Definition truthy_ostring (o : option string) : bool :=
  match o with Some s => truthy_string s | None => false end.

Definition truthy_obool (o : option bool) : bool :=
  match o with Some b => b | None => false end.

(** [a || b] on strings. *)
Definition or_else (a b : string) : string :=
  if truthy_string a then a else b.

(** [s += v] where [v] may be [undefined]: JavaScript appends the text
    ["undefined"]. *)
Definition js_append (s : string) (v : option string) : string :=
  match v with Some t => s +:+ t | None => s +:+ "undefined" end.

(** [{...m, content}], [{...m, generatedImage}], [{...m, isStreaming}]. *)
Definition with_content (c : string) (m : Message) : Message :=
  {| m_id := m_id m; role := role m; content := c; timestamp := timestamp m;
     attachments := attachments m; generatedImage := generatedImage m;
     isStreaming := isStreaming m |}.

Definition with_generatedImage (g : GeneratedImage) (m : Message) : Message :=
  {| m_id := m_id m; role := role m; content := content m;
     timestamp := timestamp m; attachments := attachments m;
     generatedImage := Some g; isStreaming := isStreaming m |}.

Definition with_isStreaming (b : bool) (m : Message) : Message :=
  {| m_id := m_id m; role := role m; content := content m;
     timestamp := timestamp m; attachments := attachments m;
     generatedImage := generatedImage m; isStreaming := Some b |}.

(** [{...s, messages}]. *)
Definition with_messages (ms : list Message) (s : ChatSession) : ChatSession :=
  {| s_id := s_id s; title := title s; messages := ms;
     updatedAt := updatedAt s; isKidMode := isKidMode s |}.

(** ** The translation table ([src/translations], not part of the sources
    at hand): only the entries the modelled code reads. *)
Record Translation := {
  welcome : string;
  kidWelcome : string;
  newConversation : string;
  systemInstruction : string;
  kidInstruction : string
}.

(** What the code takes from outside: the translation table and
    [JSON.stringify] on the session list. *)
Class Env := {
  translations : Language -> Translation;
  JSON_stringify : list ChatSession -> string
}.

(* ===================================================================== *)
(** * Session store ([src/App.tsx])                                       *)
(* ===================================================================== *)

(** The component state ([useState]) together with [localStorage]. *)
Record AppState := {
  sessions : list ChatSession;
  currentSessionId : option string;
  isLoading : bool;
  language : Language;
  isLive : bool;
  localStorage : gmap string string
}.

Definition with_sessions (ss : list ChatSession) (st : AppState) : AppState :=
  {| sessions := ss; currentSessionId := currentSessionId st;
     isLoading := isLoading st; language := language st;
     isLive := isLive st; localStorage := localStorage st |}.

Definition with_currentSessionId (c : option string) (st : AppState) : AppState :=
  {| sessions := sessions st; currentSessionId := c;
     isLoading := isLoading st; language := language st;
     isLive := isLive st; localStorage := localStorage st |}.

Definition with_language (l : Language) (st : AppState) : AppState :=
  {| sessions := sessions st; currentSessionId := currentSessionId st;
     isLoading := isLoading st; language := l;
     isLive := isLive st; localStorage := localStorage st |}.

Definition setIsLoading (b : bool) (st : AppState) : AppState :=
  {| sessions := sessions st; currentSessionId := currentSessionId st;
     isLoading := b; language := language st;
     isLive := isLive st; localStorage := localStorage st |}.

Definition setIsLive (b : bool) (st : AppState) : AppState :=
  {| sessions := sessions st; currentSessionId := currentSessionId st;
     isLoading := isLoading st; language := language st;
     isLive := b; localStorage := localStorage st |}.

(** [localStorage.setItem(k, v)]. *)
Definition setItem (k v : string) (st : AppState) : AppState :=
  {| sessions := sessions st; currentSessionId := currentSessionId st;
     isLoading := isLoading st; language := language st;
     isLive := isLive st; localStorage := <[k := v]> (localStorage st) |}.

(** [s.id === currentSessionId], where [currentSessionId] may be [null]. *)
Definition is_current (cur : option string) (s : ChatSession) : bool :=
  match cur with
  | Some c => String.eqb (s_id s) c
  | None => false
  end.

(** [sessions.find(s => s.id === currentSessionId)]. *)
Definition find_session (cur : option string) (ss : list ChatSession)
  : option ChatSession :=
  List.find (is_current cur) ss.

Section Store.
Context {env : Env}.

(** The effect on [[sessions]] (lines 117-121): a non-empty list is written
    to [localStorage]; nothing is written for the empty list. *)
Definition persistSessions (st : AppState) : AppState :=
  if (0 <? length (sessions st))%nat
  then setItem "gemini_sessions" (JSON_stringify (sessions st)) st
  else st.

(** [setSessions(f)], followed by the render it causes and the effect on
    [[sessions]]. *)
Definition setSessions (f : list ChatSession -> list ChatSession)
  (st : AppState) : AppState :=
  persistSessions (with_sessions (f (sessions st)) st).

(** The updater of the effect on [[language, currentSessionId]]
    (lines 102-112). *)
Definition welcomeUpdate (lang : Language) (cur : option string)
  (s : ChatSession) : ChatSession :=
  match messages s with
  | [m0] =>
      if is_current cur s then
        let content := if truthy_obool (isKidMode s)
                       then kidWelcome (translations lang)
                       else welcome (translations lang) in
        with_messages [with_content content m0] s
      else s
  | _ => s
  end.

(** The effect on [[language, currentSessionId]] (lines 99-115). *)
Definition languageEffect (st : AppState) : AppState :=
  if negb (truthy_ostring (currentSessionId st)) then st
  else
    let st1 := setSessions
                 (map (welcomeUpdate (language st) (currentSessionId st)))
                 st in
    setItem "gemini_lang" (lang_code (language st)) st1.

(** [setCurrentSessionId(c)]: an unchanged value causes no render; a changed
    one re-runs the effect that depends on it. *)
Definition setCurrentSessionId (c : option string) (st : AppState) : AppState :=
  if decide (c = currentSessionId st) then st
  else languageEffect (with_currentSessionId c st).

Definition setLanguage (l : Language) (st : AppState) : AppState :=
  if decide (l = language st) then st
  else languageEffect (with_language l st).

(** [createNewSession] (lines 305-316).  [sid] and [mid] are the results of
    the two [crypto.randomUUID()] calls, [tm] and [tu] of the two
    [Date.now()] calls. *)
Definition createNewSession (sid mid : string) (tm tu : Z)
  (st : AppState) : AppState :=
  let newSession :=
    {| s_id := sid;
       title := newConversation (translations (language st));
       messages := [ {| m_id := mid; role := MODEL;
                        content := welcome (translations (language st));
                        timestamp := tm; attachments := None;
                        generatedImage := None; isStreaming := None |} ];
       updatedAt := tu;
       isKidMode := Some false |} in
  let st1 := setSessions (fun prev => newSession :: prev) st in
  setCurrentSessionId (Some (s_id newSession)) st1.

(** The updater of [toggleKidMode] (lines 319-334). *)
Definition toggleKidUpdate (lang : Language) (cur : option string)
  (s : ChatSession) : ChatSession :=
  if is_current cur s then
    let nextMode := negb (truthy_obool (isKidMode s)) in
    let messages' :=
      match messages s with
      | [m0] => [with_content (if nextMode
                               then kidWelcome (translations lang)
                               else welcome (translations lang)) m0]
      | _ => messages s
      end in
    {| s_id := s_id s; title := title s; messages := messages';
       updatedAt := updatedAt s; isKidMode := Some nextMode |}
  else s.

Definition toggleKidMode (st : AppState) : AppState :=
  setSessions (map (toggleKidUpdate (language st) (currentSessionId st))) st.

(** [deleteSession] (lines 337-342). *)
Definition deleteSession (id : string) (st : AppState) : AppState :=
  let updated :=
    List.filter (fun s => negb (String.eqb (s_id s) id)) (sessions st) in
  let st1 := setSessions (fun _ => updated) st in
  if decide (currentSessionId st = Some id) then
    setCurrentSessionId
      (match updated with s0 :: _ => Some (s_id s0) | [] => None end) st1
  else st1.

(** The sidebar click on a session: [setCurrentSessionId(s.id)]. *)
Definition selectSession (id : string) (st : AppState) : AppState :=
  setCurrentSessionId (Some id) st.

(** *** The updaters of [handleSendMessage] (lines 257-303) *)

(** Lines 264-269: the user message and the placeholder are appended. *)
Definition appendUpdate (lang : Language) (cur : option string)
  (userMessage initialModelMessage : Message) (text : string) (now : Z)
  (s : ChatSession) : ChatSession :=
  if is_current cur s then
    {| s_id := s_id s;
       title := if String.eqb (title s) (newConversation (translations lang))
                then substring 0 30 text else title s;
       messages := messages s ++ [userMessage; initialModelMessage];
       updatedAt := now;
       isKidMode := isKidMode s |}
  else s.

(** [s.messages.map(m => m.id === modelMessageId ? g(m) : m)] inside
    [prev.map(s => s.id === currentSessionId ? {...s, messages} : s)]. *)
Definition updateMessage (cur : option string) (modelMessageId : string)
  (g : Message -> Message) (s : ChatSession) : ChatSession :=
  if is_current cur s then
    with_messages
      (map (fun m => if String.eqb (m_id m) modelMessageId then g m else m)
           (messages s)) s
  else s.

(** Lines 279-282, 284-287 and 290-293. *)
Definition chunkUpdate cur mid (fullResponse : string) :=
  updateMessage cur mid (with_content fullResponse).

Definition imageUpdate cur mid (imageData mime : option string) :=
  updateMessage cur mid
    (with_generatedImage {| image_data := imageData; image_mimeType := mime |}).

Definition doneUpdate cur mid :=
  updateMessage cur mid (with_isStreaming false).

(** Line 241: the two transcribed messages of a live turn are appended. *)
Definition turnUpdate (cur : option string) (userMsg modelMsg : Message)
  (now : Z) (s : ChatSession) : ChatSession :=
  if is_current cur s then
    {| s_id := s_id s; title := title s;
       messages := messages s ++ [userMsg; modelMsg];
       updatedAt := now; isKidMode := isKidMode s |}
  else s.

(** Lines 239-241: the store's part of a completed live turn. *)
Definition userTurnMessage (uid input : string) (now : Z) : Message :=
  {| m_id := uid; role := USER; content := or_else input "[Audio]";
     timestamp := now; attachments := None; generatedImage := None;
     isStreaming := None |}.

Definition modelTurnMessage (mid output : string) (now : Z) : Message :=
  {| m_id := mid; role := MODEL; content := or_else output "[Audio Response]";
     timestamp := now; attachments := None; generatedImage := None;
     isStreaming := None |}.

Definition appendTurn (cur : option string) (input output uid mid : string)
  (t1 t2 t3 : Z) (st : AppState) : AppState :=
  setSessions
    (map (turnUpdate cur (userTurnMessage uid input t1)
            (modelTurnMessage mid output t2) t3)) st.

End Store.

(* ===================================================================== *)
(** * Streaming client ([src/services/geminiService.ts])                  *)
(* ===================================================================== *)

(** ** The SDK's interface, as far as the client uses it *)

Record Blob := {
  blob_mimeType : option string;
  blob_data : option string
}.

Record Part := {
  part_text : option string;
  part_inlineData : option Blob
}.

Record Content := {
  content_role : string;
  content_parts : list Part
}.

Record GenerateContentConfig := {
  cfg_systemInstruction : string;
  cfg_temperature : Q;
  cfg_thinkingBudget : option Z          (* thinkingConfig.thinkingBudget *)
}.

Record GenerateContentParameters := {
  model : string;
  contents : list Content;
  config : GenerateContentConfig
}.

(** [candidate.content?.parts]. *)
Record Candidate := {
  candidate_parts : option (list Part)
}.

Record GenerateContentResponse := {
  candidates : option (list Candidate)
}.

(** A chunk of the stream, seen through its [text] getter. *)
Record StreamChunk := {
  chunk_text : option string
}.

(** A promise settles with a value or with an error. *)
Inductive Outcome (A : Type) :=
| Resolved (a : A)
| Rejected (error : string).
Arguments Resolved {A} a.
Arguments Rejected {A} error.

(** What a stream does: it yields chunks and then ends, normally
    ([failure = None]) or by throwing.  A call that throws at once is a
    run that yields nothing and fails. *)
Record StreamRun := {
  yielded : list StreamChunk;
  failure : option string
}.

(** [ai.models]: what the hosted service answers to each request. *)
Record GoogleGenAI := {
  models_generateContent :
    GenerateContentParameters -> Outcome GenerateContentResponse;
  models_generateContentStream :
    GenerateContentParameters -> StreamRun
}.

(** The calls made on the SDK, in order. *)
Inductive SdkCall :=
| GenerateContent (p : GenerateContentParameters)
| GenerateContentStream (p : GenerateContentParameters).

(** The result of running the client: the SDK calls it made, the state the
    callbacks built, and how its promise settled. *)
Record ServiceRun (S : Type) := {
  sdk_calls : list SdkCall;
  final : S;
  outcome : Outcome string
}.
Arguments sdk_calls {S} _.
Arguments final {S} _.
Arguments outcome {S} _.

(** ** [generateStreamingResponse] *)

(** [m.attachments && m.attachments.length > 0]. *)
Definition hasAttachments (m : Message) : bool :=
  match attachments m with
  | Some l => (0 <? length l)%nat
  | None => false
  end.

(** Line 15. *)
Definition hasImages (messages : list Message) : bool :=
  existsb hasAttachments messages.

(** Line 16. *)
Definition modelName (hasImages : bool) : string :=
  if hasImages then "gemini-2.5-flash-image" else "gemini-3-flash-preview".

(** Lines 20-38. *)
Definition toContent (m : Message) : Content :=
  let parts0 := [ {| part_text := Some (content m); part_inlineData := None |} ] in
  let parts :=
    match attachments m with
    | Some atts =>
        parts0 ++
        map (fun attachment =>
               {| part_text := None;
                  part_inlineData :=
                    Some {| blob_mimeType := Some (mimeType attachment);
                            blob_data := data attachment |} |}) atts
    | None => parts0
    end in
  {| content_role := if decide (role m = USER) then "user" else "model";
     content_parts := parts |}.

(** Lines 18-38. *)
Definition buildContents (messages : list Message) : list Content :=
  map toContent
      (List.filter (fun m => bool_decide (role m <> SYSTEM)) messages).

(** [result.candidates?.[0]] then [candidate?.content?.parts]. *)
Definition first_candidate_parts (r : GenerateContentResponse)
  : option (list Part) :=
  match candidates r with
  | Some (candidate :: _) => candidate_parts candidate
  | _ => None
  end.

Section Service.
Context {env : Env}.

(** Lines 40-42. *)
Definition buildSystemInstruction (language : Language) (isKidMode : bool)
  (hasImages : bool) : string :=
  let baseInstruction :=
    if isKidMode then kidInstruction (translations language)
    else systemInstruction (translations language) in
  baseInstruction +:+
  (if hasImages
   then " You can also generate or edit images if requested. If you generate an image, it will be sent as part of your response."
   else "").

(** The request of the image path (lines 46-53). *)
Definition imageRequest (messages : list Message) (language : Language)
  (isKidMode : bool) : GenerateContentParameters :=
  {| model := modelName (hasImages messages);
     contents := buildContents messages;
     config := {| cfg_systemInstruction :=
                    buildSystemInstruction language isKidMode (hasImages messages);
                  cfg_temperature := (9 # 10)%Q;
                  cfg_thinkingBudget := None |} |}.

(** The request of the streaming path (lines 68-76). *)
Definition streamRequest (messages : list Message) (language : Language)
  (isKidMode : bool) : GenerateContentParameters :=
  {| model := modelName (hasImages messages);
     contents := buildContents messages;
     config := {| cfg_systemInstruction :=
                    buildSystemInstruction language isKidMode (hasImages messages);
                  cfg_temperature := (9 # 10)%Q;
                  cfg_thinkingBudget := Some 0%Z |} |}.

Section Callbacks.
Context {S : Type}.
Variable onChunk : string -> S -> S.
Variable onImageGenerated : option (option string -> option string -> S -> S).

(** The body of the loop over the parts (lines 58-63). *)
Definition forwardPart (s : S) (part : Part) : S :=
  let s1 :=
    match part_text part with
    | Some text => if truthy_string text then onChunk text s else s
    | None => s
    end in
  match part_inlineData part, onImageGenerated with
  | Some inlineData, Some callback =>
      callback (blob_data inlineData) (blob_mimeType inlineData) s1
  | _, _ => s1
  end.

(** The body of the loop over the stream (lines 80-84); the first
    component is [fullText]. *)
Definition forwardChunk (acc : string * S) (chunk : StreamChunk) : string * S :=
  match chunk_text chunk with
  | Some text =>
      if truthy_string text then (fst acc +:+ text, onChunk text (snd acc))
      else acc
  | None => acc
  end.

(** Lines 6-92.  An error in the [try] block is logged and thrown again. *)
Definition generateStreamingResponse (ai : GoogleGenAI)
  (messages : list Message) (language : Language) (isKidMode : bool)
  (s : S) : ServiceRun S :=
  if hasImages messages then
    let request := imageRequest messages language isKidMode in
    match models_generateContent ai request with
    | Resolved result =>
        {| sdk_calls := [GenerateContent request];
           final := match first_candidate_parts result with
                    | Some parts => fold_left forwardPart parts s
                    | None => s
                    end;
           outcome := Resolved "" |}
    | Rejected error =>
        {| sdk_calls := [GenerateContent request];
           final := s;
           outcome := Rejected error |}
    end
  else
    let request := streamRequest messages language isKidMode in
    let stream := models_generateContentStream ai request in
    let '(fullText, s') := fold_left forwardChunk (yielded stream) ("", s) in
    {| sdk_calls := [GenerateContentStream request];
       final := s';
       outcome := match failure stream with
                  | None => Resolved fullText
                  | Some error => Rejected error
                  end |}.

End Callbacks.

(** ** [handleSendMessage] ([src/App.tsx], lines 257-303) *)

(** The chunk callback (lines 277-282); the first component of the state
    is the local variable [fullResponse]. *)
Definition onChunkCallback (cur : option string) (modelMessageId : string)
  (chunk : string) (s : string * AppState) : string * AppState :=
  let fullResponse := fst s +:+ chunk in
  (fullResponse,
   setSessions (map (chunkUpdate cur modelMessageId fullResponse)) (snd s)).

(** The image callback (lines 283-288). *)
Definition onImageCallback (cur : option string) (modelMessageId : string)
  (imageData mime : option string) (s : string * AppState)
  : string * AppState :=
  (fst s,
   setSessions (map (imageUpdate cur modelMessageId imageData mime)) (snd s)).

Definition userMessageOf (uid text : string) (atts : list Attachment)
  (now : Z) : Message :=
  {| m_id := uid; role := USER; content := text; timestamp := now;
     attachments := Some atts; generatedImage := None; isStreaming := None |}.

Definition initialModelMessageOf (modelMessageId : string) (now : Z) : Message :=
  {| m_id := modelMessageId; role := MODEL; content := ""; timestamp := now;
     attachments := None; generatedImage := None; isStreaming := Some true |}.

(** [[...(sessionToUse?.messages || []), userMessage]] (lines 273-274),
    read from the [sessions] of the render that created the handler. *)
Definition currentMessagesOf (st : AppState) (userMessage : Message)
  : list Message :=
  match find_session (currentSessionId st) (sessions st) with
  | Some sessionToUse => messages sessionToUse ++ [userMessage]
  | None => [userMessage]
  end.

(** [!!currentSession?.isKidMode] (line 130). *)
Definition isKidModeOf (st : AppState) : bool :=
  match find_session (currentSessionId st) (sessions st) with
  | Some currentSession => truthy_obool (isKidMode currentSession)
  | None => false
  end.

(** Lines 260-271: the state when the request is about to be made. *)
Definition sendStart (text : string) (atts : list Attachment)
  (uid mid : string) (t1 t2 t3 : Z) (st : AppState) : AppState :=
  let userMessage := userMessageOf uid text atts t1 in
  let initialModelMessage := initialModelMessageOf mid t2 in
  setIsLoading true
    (setSessions
       (map (appendUpdate (language st) (currentSessionId st)
               userMessage initialModelMessage text t3)) st).

(** The run of the streaming client inside [handleSendMessage]. *)
Definition sendRun (ai : GoogleGenAI) (text : string) (atts : list Attachment)
  (uid mid : string) (t1 t2 t3 : Z) (st : AppState)
  : ServiceRun (string * AppState) :=
  let cur := currentSessionId st in
  generateStreamingResponse
    (onChunkCallback cur mid) (Some (onImageCallback cur mid))
    ai (currentMessagesOf st (userMessageOf uid text atts t1))
    (language st) (isKidModeOf st)
    ("", sendStart text atts uid mid t1 t2 t3 st).

(** [uid] and [mid] are the results of the two [crypto.randomUUID()] calls,
    [t1], [t2], [t3] of the three [Date.now()] calls.  After a successful
    run in kid mode the response is also read aloud
    ([playResponseAudio], which catches its own errors and touches neither
    the sessions nor [localStorage]). *)
Definition handleSendMessage (ai : GoogleGenAI) (text : string)
  (atts : list Attachment) (uid mid : string) (t1 t2 t3 : Z)
  (st : AppState) : AppState :=
  if negb (truthy_ostring (currentSessionId st)) then st
  else
    let run := sendRun ai text atts uid mid t1 t2 t3 st in
    let st3 := snd (final run) in
    let st4 :=
      match outcome run with
      | Resolved _ =>
          setSessions (map (doneUpdate (currentSessionId st) mid)) st3
      | Rejected _ => st3                      (* catch: console.error *)
      end in
    setIsLoading false st4.                    (* finally *)

End Service.

(* ===================================================================== *)
(** * The store's operations as actions                                   *)
(* ===================================================================== *)

(** One action per place where the code changes the store.  A send is the
    sequence of its updates (start, one per callback, end), so that a run of
    actions also covers what happens between two callbacks of a stream; the
    session and message the callbacks address are those their closure
    captured. *)
Inductive Action :=
| ACreateNewSession (sid mid : string) (tm tu : Z)
| ADeleteSession (id : string)
| AToggleKidMode
| ASelectSession (id : string)
| ASetLanguage (l : Language)
| ASendStart (text : string) (atts : list Attachment) (uid mid : string)
             (t1 t2 t3 : Z)
| AChunk (cur : option string) (mid : string) (fullResponse : string)
| AImage (cur : option string) (mid : string) (imageData mime : option string)
| ADone (cur : option string) (mid : string)
| ASetIsLoading (b : bool)
| ALiveTurn (cur : option string) (input output uid mid : string)
            (t1 t2 t3 : Z).

Section Actions.
Context {env : Env}.

Definition step (st : AppState) (a : Action) : AppState :=
  match a with
  | ACreateNewSession sid mid tm tu => createNewSession sid mid tm tu st
  | ADeleteSession id => deleteSession id st
  | AToggleKidMode => toggleKidMode st
  | ASelectSession id => selectSession id st
  | ASetLanguage l => setLanguage l st
  | ASendStart text atts uid mid t1 t2 t3 =>
      sendStart text atts uid mid t1 t2 t3 st
  | AChunk cur mid fullResponse =>
      setSessions (map (chunkUpdate cur mid fullResponse)) st
  | AImage cur mid imageData mime =>
      setSessions (map (imageUpdate cur mid imageData mime)) st
  | ADone cur mid => setSessions (map (doneUpdate cur mid)) st
  | ASetIsLoading b => setIsLoading b st
  | ALiveTurn cur input output uid mid t1 t2 t3 =>
      appendTurn cur input output uid mid t1 t2 t3 st
  end.

Definition run (st : AppState) (l : list Action) : AppState :=
  fold_left step l st.

(** The actions that call [setSessions] whatever the state. *)
Definition is_mutation (a : Action) : bool :=
  match a with
  | ASelectSession _ | ASetLanguage _ | ASetIsLoading _ => false
  | _ => true
  end.

(** The results of [crypto.randomUUID()] an action consumes. *)
Definition drawn (a : Action) : list string :=
  match a with
  | ACreateNewSession sid mid _ _ => [sid; mid]
  | ASendStart _ _ uid mid _ _ _ => [uid; mid]
  | ALiveTurn _ _ _ uid mid _ _ _ => [uid; mid]
  | _ => []
  end.

End Actions.

(** Every identifier in the store. *)
Definition all_ids (st : AppState) : list string :=
  map s_id (sessions st) ++
  concat (map (fun s => map m_id (messages s)) (sessions st)).

Definition inb (u : string) (l : list string) : bool :=
  existsb (String.eqb u) l.

Fixpoint distinctb (l : list string) : bool :=
  match l with
  | [] => true
  | u :: r => negb (inb u r) && distinctb r
  end.

(** The contract of [crypto.randomUUID]: the identifiers an action draws
    are pairwise distinct and occur nowhere in the store. *)
Definition fresh_draws (st : AppState) (a : Action) : bool :=
  distinctb (drawn a) && forallb (fun u => negb (inb u (all_ids st))) (drawn a).

(** The same for a list of drawn identifiers, as propositions. *)
Definition fresh_draws_ids (st : AppState) (ids : list string) : Prop :=
  match ids with
  | [u; p] => u <> p /\ inb u (all_ids st) = false /\ inb p (all_ids st) = false
  | _ => True
  end.

Section Runs.
Context {env : Env}.

(** The contract holds at every action of a run. *)
Fixpoint fresh_run (st : AppState) (l : list Action) : bool :=
  match l with
  | [] => true
  | a :: r => fresh_draws st a && fresh_run (step st a) r
  end.

End Runs.

(** Uniqueness of identifiers: session ids are pairwise distinct, and so
    are the message ids of each session. *)
Definition ids_unique (st : AppState) : Prop :=
  NoDup (map s_id (sessions st)) /\
  Forall (fun s => NoDup (map m_id (messages s))) (sessions st).

(** The value stored under the sessions key. *)
Definition stored_sessions (st : AppState) : option string :=
  localStorage st !! "gemini_sessions".

(** The state of a first visit: nothing in state or storage. *)
Definition initialState : AppState :=
  {| sessions := []; currentSessionId := None; isLoading := false;
     language := en; isLive := false; localStorage := ∅ |}.

(** ** What the properties observe *)

(** The last message of the session [cur] names. *)
Definition last_message (cur : option string) (ss : list ChatSession)
  : option Message :=
  s ← find_session cur ss; last (messages s).

(** The placeholder of a send, with its content and streaming flag. *)
Definition placeholderMessage (mid : string) (now : Z) (c : string)
  (streaming : bool) : Message :=
  {| m_id := mid; role := MODEL; content := c; timestamp := now;
     attachments := None; generatedImage := None;
     isStreaming := Some streaming |}.

(** The texts the streaming loop passes to [onChunk]: those of the chunks
    whose [text] is a non-empty string. *)
Definition delivered (chunks : list StreamChunk) : list string :=
  omap (fun chunk =>
          match chunk_text chunk with
          | Some text => if truthy_string text then Some text else None
          | None => None
          end) chunks.

Section Observations.
Context {env : Env}.

(** The state after the chunk callback has been called on each of
    [chunks] in turn. *)
Definition afterChunks (cur : option string) (mid : string)
  (chunks : list string) (s0 : string * AppState) : string * AppState :=
  fold_left (fun s chunk => onChunkCallback cur mid chunk s) chunks s0.

End Observations.

(* ===================================================================== *)
(** * The callbacks of a run of the client                                *)
(* ===================================================================== *)

Inductive Callback :=
| ChunkCallback (text : string)                 (* onChunk(text) *)
| ImageCallback (imageData mime : option string).  (* onImageGenerated(data, mimeType) *)

(** What the loop over the parts forwards for one part. *)
Definition part_callbacks (part : Part) : list Callback :=
  match part_text part with
  | Some text => if truthy_string text then [ChunkCallback text] else []
  | None => []
  end ++
  match part_inlineData part with
  | Some inlineData =>
      [ImageCallback (blob_data inlineData) (blob_mimeType inlineData)]
  | None => []
  end.

Section Trace.
Context {env : Env}.

(** The client run with callbacks that only record their call. *)
Definition callbacks (ai : GoogleGenAI) (messages : list Message)
  (language : Language) (isKidMode : bool) : ServiceRun (list Callback) :=
  generateStreamingResponse
    (fun text log => log ++ [ChunkCallback text])
    (Some (fun imageData mime log => log ++ [ImageCallback imageData mime]))
    ai messages language isKidMode [].

(** A callback applied to a state, given the two callbacks of a caller. *)
Definition apply_callback {S} (onChunk : string -> S -> S)
  (onImageGenerated : option string -> option string -> S -> S)
  (s : S) (c : Callback) : S :=
  match c with
  | ChunkCallback text => onChunk text s
  | ImageCallback imageData mime => onImageGenerated imageData mime s
  end.

(** The store updates the callbacks of a send make, [full] being
    [fullResponse] before them. *)
Fixpoint callback_actions (cur : option string) (mid : string)
  (full : string) (cbs : list Callback) : list Action :=
  match cbs with
  | [] => []
  | ChunkCallback text :: r =>
      AChunk cur mid (full +:+ text)
      :: callback_actions cur mid (full +:+ text) r
  | ImageCallback imageData mime :: r =>
      AImage cur mid imageData mime :: callback_actions cur mid full r
  end.

(** A send as the sequence of its store updates. *)
Definition send_actions (ai : GoogleGenAI) (text : string)
  (atts : list Attachment) (uid mid : string) (t1 t2 t3 : Z)
  (st : AppState) : list Action :=
  let cur := currentSessionId st in
  let trace := callbacks ai (currentMessagesOf st (userMessageOf uid text atts t1))
                         (language st) (isKidModeOf st) in
  [ASendStart text atts uid mid t1 t2 t3]
  ++ callback_actions cur mid "" (final trace)
  ++ match outcome trace with
     | Resolved _ => [ADone cur mid]
     | Rejected _ => []
     end
  ++ [ASetIsLoading false].

End Trace.

(* ===================================================================== *)
(** * A concrete environment to run the model on                          *)
(* ===================================================================== *)

Definition double_quote : string := String (ascii_of_nat 34) "".

Definition json_string (s : string) : string :=
  double_quote +:+ s +:+ double_quote.

Definition json_field (name value : string) : string :=
  json_string name +:+ ":" +:+ value.

Definition json_object (fields : list string) : string :=
  "{" +:+ String.concat "," fields +:+ "}".

Definition json_array (items : list string) : string :=
  "[" +:+ String.concat "," items +:+ "]".

Definition json_role (r : Role) : string :=
  json_string (match r with USER => "user" | MODEL => "model" | SYSTEM => "system" end).

Definition json_message (m : Message) : string :=
  json_object [ json_field "id" (json_string (m_id m));
                json_field "role" (json_role (role m));
                json_field "content" (json_string (content m));
                json_field "timestamp" (pretty (timestamp m)) ].

Definition json_session (s : ChatSession) : string :=
  json_object [ json_field "id" (json_string (s_id s));
                json_field "title" (json_string (title s));
                json_field "messages" (json_array (map json_message (messages s)));
                json_field "updatedAt" (pretty (updatedAt s)) ].

(** The JSON text of a session list whose strings need no escaping, the
    optional fields left out: enough of [JSON.stringify] to run examples. *)
Definition stringify_plain (ss : list ChatSession) : string :=
  json_array (map json_session ss).

Definition sampleTranslations (l : Language) : Translation :=
  {| welcome := "Hello! How can I help you today?";
     kidWelcome := "Hi friend! Let us have fun!";
     newConversation := "New conversation";
     systemInstruction := "You are a helpful assistant.";
     kidInstruction := "You are a friendly helper for kids." |}.

Definition sampleEnv : Env :=
  {| translations := sampleTranslations; JSON_stringify := stringify_plain |}.

(** A service that streams the given texts and then ends, or throws. *)
Definition streamingService (texts : list (option string))
  (failure : option string) : GoogleGenAI :=
  {| models_generateContent := fun _ => Rejected "not used";
     models_generateContentStream := fun _ =>
       {| yielded := map (fun t => {| chunk_text := t |}) texts;
          failure := failure |} |}.

(** A service that answers the single call of the image path with one
    candidate holding the given parts. *)
Definition imageService (parts : list Part) : GoogleGenAI :=
  {| models_generateContent := fun _ =>
       Resolved {| candidates := Some [ {| candidate_parts := Some parts |} ] |};
     models_generateContentStream := fun _ =>
       {| yielded := []; failure := Some "not used" |} |}.

(** A store with one fresh session, as a first visit leaves it. *)
Definition oneSession : AppState :=
  createNewSession (env := sampleEnv) "s1" "m1" 1000 1001 initialState.

(** A user message with one attached picture. *)
Definition pictureMessage : Message :=
  {| m_id := "u0"; role := USER; content := "What is this?"; timestamp := 900;
     attachments := Some [ {| mimeType := "image/png";
                              data := Some "iVBORw0KGgo=";
                              url := None |} ];
     generatedImage := None; isStreaming := None |}.

Definition emptyTextPart : Part :=
  {| part_text := Some ""; part_inlineData := None |}.

(** The session of [oneSession]. *)
Definition firstSession : ChatSession :=
  {| s_id := "s1"; title := "New conversation";
     messages := [ {| m_id := "m1"; role := MODEL;
                      content := "Hello! How can I help you today?";
                      timestamp := 1000; attachments := None;
                      generatedImage := None; isStreaming := None |} ];
     updatedAt := 1001; isKidMode := Some false |}.

(** A stream of four chunks, two of them without text to forward. *)
Definition helloService : GoogleGenAI :=
  streamingService [Some "Hel"; Some ""; None; Some "lo"] None.

(** A stream that throws after its first chunk. *)
Definition brokenService : GoogleGenAI :=
  streamingService [Some "Hel"] (Some "network error").

(** A run of the store from a first visit. *)
Definition sampleRun : list Action :=
  [ ACreateNewSession "s1" "m1" 1000 1001;
    ASendStart "Hi" [] "u1" "m2" 2000 2001 2002;
    AChunk (Some "s1") "m2" "Hel";
    AToggleKidMode;
    AChunk (Some "s1") "m2" "Hello";
    ADone (Some "s1") "m2";
    ASetIsLoading false;
    ALiveTurn (Some "s1") "good morning" "" "u3" "m4" 3000 3001 3002;
    ACreateNewSession "s2" "m5" 4000 4001;
    ASetLanguage pt;
    ADeleteSession "s1" ].

(* ===================================================================== *)
(** * Live session client ([src/App.tsx], lines 163-255)                  *)
(* ===================================================================== *)

(** Times of the audio clock are JavaScript numbers.  The scheduler only
    compares them, takes the larger of two and adds a duration, so it is
    written over any type with these operations. *)
Class AudioClock (T : Type) := {
  t_zero : T;
  t_le : T -> T -> Prop;
  t_max : T -> T -> T;                   (* Math.max *)
  t_add : T -> T -> T;                   (* + *)
  frames_duration : nat -> T             (* AudioBuffer.duration at 24 kHz *)
}.

(** What the scheduler needs of the numbers: [<=] is a preorder, [Math.max]
    is at least its first argument, and adding the duration of a buffer
    does not move a time backwards. *)
Class AudioClockLaws (T : Type) `{AudioClock T} := {
  t_le_refl : forall a, t_le a a;
  t_le_trans : forall a b c, t_le a b -> t_le b c -> t_le a c;
  t_max_l : forall a b, t_le a (t_max a b);
  t_add_duration : forall a n, t_le a (t_add a (frames_duration n))
}.

(** The part of a [LiveServerMessage] the handler reads; every field sits
    under the optional [serverContent], and a message without
    [serverContent] is the message with every field absent. *)
Record Transcription := {
  transcription_text : option string
}.

(** [serverContent.modelTurn]: a [Content], whose [parts] are optional. *)
Record ModelTurn := {
  turn_parts : option (list Part)
}.

Record LiveServerMessage := {
  inputTranscription : option Transcription;
  outputTranscription : option Transcription;
  modelTurn : option ModelTurn;
  interrupted : bool;
  turnComplete : bool
}.

(** The value of an expression, or the fact that evaluating it threw. *)
Inductive Completion (A : Type) :=
| Normal (a : A)
| Throw.
Arguments Normal {A} a.
Arguments Throw {A}.

(** [message.serverContent?.modelTurn?.parts[0]?.inlineData?.data] (line
    217).  There is no [?.] between [parts] and [[0]]: on a [modelTurn]
    without [parts] the index throws a [TypeError]. *)
Definition audioData (message : LiveServerMessage)
  : Completion (option string) :=
  match modelTurn message with
  | None => Normal None
  | Some turn =>
      match turn_parts turn with
      | None => Throw
      | Some parts =>
          Normal (part ← head parts;
                  inlineData ← part_inlineData part;
                  blob_data inlineData)
      end
  end.

(** An [AudioBuffer] of one channel: its length in sample frames. *)
Record AudioBuffer := {
  frameCount : nat
}.

(** [decodeAudioData(data, ctx, 24000, 1)] (lines 30-47).
    [new Int16Array(data.buffer)] throws on an odd byte length, and
    [createBuffer] on a length of zero frames. *)
Definition decodeAudioData (bytes : list Byte.byte) : option AudioBuffer :=
  if Nat.odd (length bytes) then None
  else
    let frameCount := (length bytes / 2)%nat in
    if (frameCount =? 0)%nat then None
    else Some {| frameCount := frameCount |}.

Section Live.
Context {T : Type} {clock : AudioClock T}.

(** The refs of the live session, and a record of the calls made on audio
    sources: [started] lists the [(start time, duration)] of every
    [source.start], in order, a source being named by its position in that
    list; [stopped] holds the sources on which [stop] was called. *)
Record LiveRefs := {
  nextStartTime : T;                       (* nextStartTimeRef *)
  audioSources : gset nat;                 (* audioSourcesRef *)
  transcription_input : string;            (* transcriptionRef.input *)
  transcription_output : string;           (* transcriptionRef.output *)
  started : list (T * T);
  stopped : gset nat
}.

Definition with_transcription (i o : string) (r : LiveRefs) : LiveRefs :=
  {| nextStartTime := nextStartTime r; audioSources := audioSources r;
     transcription_input := i; transcription_output := o;
     started := started r; stopped := stopped r |}.

Definition with_nextStartTime (t : T) (r : LiveRefs) : LiveRefs :=
  {| nextStartTime := t; audioSources := audioSources r;
     transcription_input := transcription_input r;
     transcription_output := transcription_output r;
     started := started r; stopped := stopped r |}.

(** Lines 214-215. *)
Definition accumulate (message : LiveServerMessage) (r : LiveRefs) : LiveRefs :=
  let i := match inputTranscription message with
           | Some tr => js_append (transcription_input r) (transcription_text tr)
           | None => transcription_input r
           end in
  let o := match outputTranscription message with
           | Some tr => js_append (transcription_output r) (transcription_text tr)
           | None => transcription_output r
           end in
  with_transcription i o r.

(** Lines 221-227: the source is started at the cursor, the cursor moves
    by the duration of the buffer, and the source joins the set. *)
Definition scheduleBuffer (buffer : AudioBuffer) (r : LiveRefs) : LiveRefs :=
  let source := length (started r) in
  let duration := frames_duration (frameCount buffer) in
  {| nextStartTime := t_add (nextStartTime r) duration;
     audioSources := {[ source ]} ∪ audioSources r;
     transcription_input := transcription_input r;
     transcription_output := transcription_output r;
     started := started r ++ [(nextStartTime r, duration)];
     stopped := stopped r |}.

(** Lines 230-234. *)
Definition handleInterrupted (message : LiveServerMessage) (r : LiveRefs)
  : LiveRefs :=
  if interrupted message then
    {| nextStartTime := t_zero;
       audioSources := ∅;
       transcription_input := transcription_input r;
       transcription_output := transcription_output r;
       started := started r;
       stopped := stopped r ∪ audioSources r |}
  else r.

(** [source.onended] (line 227). *)
Definition sourceEnded (source : nat) (r : LiveRefs) : LiveRefs :=
  {| nextStartTime := nextStartTime r;
     audioSources := audioSources r ∖ {[ source ]};
     transcription_input := transcription_input r;
     transcription_output := transcription_output r;
     started := started r; stopped := stopped r |}.

Context {env : Env}.

(** Lines 236-244.  [cur] is the [currentSessionId] of the render that
    started the live session; [uid], [mid] are the results of the two
    [crypto.randomUUID()] calls and [t1], [t2], [t3] of the three
    [Date.now()] calls. *)
Definition handleTurnComplete (cur : option string)
  (message : LiveServerMessage) (uid mid : string) (t1 t2 t3 : Z)
  (s : LiveRefs * AppState) : LiveRefs * AppState :=
  if turnComplete message then
    let input := transcription_input (fst s) in
    let output := transcription_output (fst s) in
    if truthy_string input || truthy_string output then
      (with_transcription "" "" (fst s),
       appendTurn cur input output uid mid t1 t2 t3 (snd s))
    else s
  else s.

(** A message as the handler meets it: with the clock of the audio context
    at line 219 and the identifiers and times lines 239-241 would draw. *)
Record LiveEvent := {
  ev_message : LiveServerMessage;
  ev_currentTime : T;
  ev_uid : string;
  ev_mid : string;
  ev_t1 : Z;
  ev_t2 : Z;
  ev_t3 : Z
}.

(** Lines 230-244 of [onmessage]: the interruption and the turn
    completion, on the refs and the store as they are when the handler
    gets there. *)
Definition onmessage_rest (cur : option string) (e : LiveEvent)
  (s : LiveRefs * AppState) : LiveRefs * AppState :=
  handleTurnComplete cur (ev_message e) (ev_uid e) (ev_mid e)
                     (ev_t1 e) (ev_t2 e) (ev_t3 e)
                     (handleInterrupted (ev_message e) (fst s), snd s).

(** How far a call of the handler has got when it gives up control: it
    ran to its end, it waits at the [await] of line 220 with the decoded
    buffer, or it threw (the [TypeError] of line 217, or [decode] or
    [decodeAudioData] at line 220) and its promise is rejected. *)
Inductive Progress :=
| Finished
| Awaiting (buffer : AudioBuffer)
| Failed.

(** [onmessage] from its call to its first [await] (lines 214-220).  A
    message without audio is handled to the end at once. *)
Definition onmessage_begin (cur : option string) (e : LiveEvent)
  (s : LiveRefs * AppState) : LiveRefs * AppState * Progress :=
  let r1 := accumulate (ev_message e) (fst s) in
  match audioData (ev_message e) with
  | Throw => (r1, snd s, Failed)
  | Normal audio =>
      if truthy_ostring audio then
        let r2 := with_nextStartTime
                    (t_max (nextStartTime r1) (ev_currentTime e)) r1 in
        match Base64.decode (default "" audio) ≫= decodeAudioData with
        | Some buffer => (r2, snd s, Awaiting buffer)
        | None => (r2, snd s, Failed)
        end
      else (onmessage_rest cur e (r1, snd s), Finished)
  end.

(** [onmessage] after the [await] (lines 221-244), on the refs and the
    store as they are when the handler is resumed. *)
Definition onmessage_resume (cur : option string) (e : LiveEvent)
  (buffer : AudioBuffer) (s : LiveRefs * AppState) : LiveRefs * AppState :=
  onmessage_rest cur e (scheduleBuffer buffer (fst s), snd s).

(** [stopLiveMode] (lines 163-171). *)
Definition stopLiveMode (s : LiveRefs * AppState) : LiveRefs * AppState :=
  let r := fst s in
  ({| nextStartTime := nextStartTime r;
      audioSources := ∅;
      transcription_input := transcription_input r;
      transcription_output := transcription_output r;
      started := started r;
      stopped := stopped r ∪ audioSources r |},
   setIsLive false (snd s)).

(** A handler that waits at its [await]. *)
Record Suspended := {
  sus_event : LiveEvent;
  sus_buffer : AudioBuffer
}.

(** The live session between two events: the refs and the store, and the
    handlers that wait at their [await], oldest first. *)
Record LiveState := {
  live : LiveRefs * AppState;
  suspended : list Suspended
}.

(** What happens in a live session: a message is delivered to
    [onmessage], which runs to its [await] or to its end; the oldest
    waiting handler is resumed (the jobs of settled promises run in the
    order they were queued); an audio source ends ([onended], line 227);
    the live mode is stopped. *)
Inductive LiveStep :=
| LDeliver (e : LiveEvent)
| LResume
| LEnded (source : nat)
| LStop.

Definition livestep (cur : option string) (st : LiveState) (x : LiveStep)
  : LiveState :=
  match x with
  | LDeliver e =>
      match onmessage_begin cur e (live st) with
      | (s, Awaiting buffer) =>
          {| live := s;
             suspended := suspended st
                          ++ [ {| sus_event := e; sus_buffer := buffer |} ] |}
      | (s, _) => {| live := s; suspended := suspended st |}
      end
  | LResume =>
      match suspended st with
      | [] => st
      | h :: rest =>
          {| live := onmessage_resume cur (sus_event h) (sus_buffer h) (live st);
             suspended := rest |}
      end
  | LEnded source =>
      {| live := (sourceEnded source (fst (live st)), snd (live st));
         suspended := suspended st |}
  | LStop => {| live := stopLiveMode (live st); suspended := suspended st |}
  end.

Definition liverun (cur : option string) (steps : list LiveStep)
  (st : LiveState) : LiveState :=
  fold_left (livestep cur) steps st.

(** A message whose handler no other handler interleaves with: it is
    delivered, and resumed at once if it waits. *)
Definition onevent (cur : option string) (s : LiveRefs * AppState)
  (e : LiveEvent) : LiveRefs * AppState :=
  match onmessage_begin cur e s with
  | (s', Awaiting buffer) => onmessage_resume cur e buffer s'
  | (s', _) => s'
  end.

Definition onmessages (cur : option string) (evs : list LiveEvent)
  (s : LiveRefs * AppState) : LiveRefs * AppState :=
  fold_left (onevent cur) evs s.

(** No two consecutive buffers overlap: each starts at or after the start
    of the one before plus that one's duration. *)
Definition no_overlap (l : list (T * T)) : Prop :=
  forall i s1 d1 s2 d2,
    l !! i = Some (s1, d1) -> l !! S i = Some (s2, d2) ->
    t_le (t_add s1 d1) s2.

(** The same, written along the list, from a cursor. *)
Fixpoint sequential (cursor : T) (l : list (T * T)) : Prop :=
  match l with
  | [] => True
  | (s, d) :: rest => t_le cursor s /\ sequential (t_add s d) rest
  end.

(** Where the last buffer of [l] ends, or [cursor] when there is none. *)
Fixpoint end_of (cursor : T) (l : list (T * T)) : T :=
  match l with
  | [] => cursor
  | (s, d) :: rest => end_of (t_add s d) rest
  end.

End Live.

Arguments LiveRefs T : clear implicits.
Arguments LiveEvent T : clear implicits.
Arguments Suspended T : clear implicits.
Arguments LiveState T : clear implicits.
Arguments LiveStep T : clear implicits.
Arguments Progress : clear implicits.

(** Time counted in sample frames at 24 kHz, as integers: a clock to run
    examples with. *)
Definition frameClock : AudioClock Z :=
  {| t_zero := 0%Z; t_le := Z.le; t_max := Z.max; t_add := Z.add;
     frames_duration := Z.of_nat |}.


(** Refs of a live session that has just started. *)
Definition freshRefs : LiveRefs Z :=
  {| nextStartTime := 0%Z; audioSources := ∅; transcription_input := "";
     transcription_output := ""; started := []; stopped := ∅ |}.

(** A model turn whose first part carries the given audio. *)
Definition audioTurn (audio : string) : ModelTurn :=
  {| turn_parts :=
       Some [ {| part_text := None;
                 part_inlineData :=
                   Some {| blob_mimeType := Some "audio/pcm;rate=24000";
                           blob_data := Some audio |} |} ] |}.

Definition liveEvent (message : LiveServerMessage) (now : Z) : LiveEvent Z :=
  {| ev_message := message; ev_currentTime := now;
     ev_uid := "u"; ev_mid := "m"; ev_t1 := 0; ev_t2 := 0; ev_t3 := 0 |}.

Definition audioEvent (audio : string) (now : Z) : LiveEvent Z :=
  liveEvent {| inputTranscription := None; outputTranscription := None;
               modelTurn := Some (audioTurn audio); interrupted := false;
               turnComplete := false |} now.

(** The last message of a turn in which the user said something. *)
Definition spokenTurn : LiveServerMessage :=
  {| inputTranscription := Some {| transcription_text := Some "good morning" |};
     outputTranscription := None; modelTurn := None; interrupted := false;
     turnComplete := true |}.

(** A message that reports an interruption, with a model turn that has no
    parts: [serverContent = { modelTurn: {}, interrupted: true }]. *)
Definition interruptionWithoutParts : LiveServerMessage :=
  {| inputTranscription := None; outputTranscription := None;
     modelTurn := Some {| turn_parts := None |}; interrupted := true;
     turnComplete := false |}.

(** The same with audio that is base64 text of three bytes, which is no
    array of 16-bit samples. *)
Definition interruptionWithOddAudio : LiveServerMessage :=
  {| inputTranscription := None; outputTranscription := None;
     modelTurn := Some (audioTurn "AAAA"); interrupted := true;
     turnComplete := false |}.

(** A message that reports the end of the turn, with a model turn that
    has no parts: [serverContent = { modelTurn: {}, turnComplete: true }]. *)
Definition turnEndWithoutParts : LiveServerMessage :=
  {| inputTranscription := None; outputTranscription := None;
     modelTurn := Some {| turn_parts := None |}; interrupted := false;
     turnComplete := true |}.

Definition turnEndWithOddAudio : LiveServerMessage :=
  {| inputTranscription := None; outputTranscription := None;
     modelTurn := Some (audioTurn "AAAA"); interrupted := false;
     turnComplete := true |}.

(** A message that carries the words of the user only. *)
Definition heard (text : string) : LiveServerMessage :=
  {| inputTranscription := Some {| transcription_text := Some text |};
     outputTranscription := None; modelTurn := None; interrupted := false;
     turnComplete := false |}.

(** A live session in which one buffer is playing: three frames started
    at time 10. *)
Definition playingRefs : LiveRefs Z :=
  {| nextStartTime := 13%Z; audioSources := {[ 0%nat ]};
     transcription_input := ""; transcription_output := "";
     started := [(10%Z, 3%Z)]; stopped := ∅ |}.

(** A live session in which the user has been heard, the turn not yet
    complete. *)
Definition heardRefs : LiveRefs Z :=
  {| nextStartTime := 0%Z; audioSources := ∅;
     transcription_input := "good morning"; transcription_output := "";
     started := []; stopped := ∅ |}.
(* ===================================================================== *)
(** * Input component ([src/components/ChatInput.tsx])                    *)
(* ===================================================================== *)

(** [s.split(sep)] for a one-character separator. *)
Fixpoint split_on (sep : ascii) (s : string) : list string :=
  match s with
  | EmptyString => [""]
  | String c r =>
      if Ascii.eqb c sep then "" :: split_on sep r
      else match split_on sep r with
           | h :: t => String c h :: t
           | [] => [String c ""]
           end
  end.

(** White space and line terminators of [String.prototype.trim] among the
    eight-bit characters: TAB, LF, VT, FF, CR, SPACE and the no-break
    space U+00A0.  (The white space above U+00FF is outside the eight-bit
    characters of the model.) *)
Definition is_js_whitespace (c : ascii) : bool :=
  let n := N_of_ascii c in
  ((9 <=? n) && (n <=? 13) || (n =? 32) || (n =? 160))%N.

Fixpoint trimStart (s : string) : string :=
  match s with
  | String c r => if is_js_whitespace c then trimStart r else s
  | EmptyString => ""
  end.

Fixpoint trimEnd (s : string) : string :=
  match s with
  | String c r =>
      match trimEnd r with
      | EmptyString => if is_js_whitespace c then "" else String c ""
      | r' => String c r'
      end
  | EmptyString => ""
  end.

Definition trim (s : string) : string := trimEnd (trimStart s).

(** The two [useState] cells of the component. *)
Record InputState := {
  ci_text : string;                        (* text *)
  ci_attachments : list Attachment         (* attachments *)
}.

(** A selected file: its [type], and the [result] the [FileReader] gives
    for [readAsDataURL]. *)
Record File := {
  file_type : string;
  file_result : string
}.

(** The body of [reader.onload] (lines 55-62). *)
Definition readAttachment (file : File) : Attachment :=
  let base64 := split_on ","%char (file_result file) !! 1%nat in
  {| mimeType := file_type file;
     data := base64;
     url := Some (file_result file) |}.

(** [handleFileChange] (lines 45-72): the files are read one after the
    other, each pushed to [newAttachments], which is then appended to the
    attachments present at that time. *)
Definition handleFileChange (files : option (list File)) (st : InputState)
  : InputState :=
  match files with
  | None => st
  | Some files =>
      let newAttachments :=
        fold_left (fun acc file => acc ++ [readAttachment file]) files [] in
      {| ci_text := ci_text st;
         ci_attachments := ci_attachments st ++ newAttachments |}
  end.

(** [removeAttachment] (lines 74-76). *)
Definition removeAttachment (index : nat) (st : InputState) : InputState :=
  {| ci_text := ci_text st;
     ci_attachments :=
       map snd (List.filter (fun p => negb (fst p =? index)%nat)
                            (imap (fun i a => (i, a)) (ci_attachments st))) |}.

(** [handleSend] (lines 28-36).  The second component is the call
    [onSendMessage(text, attachments)], if it is made. *)
Definition handleSend (isLoading : bool) (st : InputState)
  : InputState * option (string * list Attachment) :=
  if (truthy_string (trim (ci_text st))
      || (0 <? length (ci_attachments st))%nat) && negb isLoading
  then ({| ci_text := ""; ci_attachments := [] |},
        Some (ci_text st, ci_attachments st))
  else (st, None).

(** The text consists of white space only. *)
Definition is_blank (s : string) : bool :=
  forallb is_js_whitespace (list_ascii_of_string s).

(** The text has a comma. *)
Definition has_comma (s : string) : bool :=
  existsb (Ascii.eqb ","%char) (list_ascii_of_string s).

(** What [FileReader.readAsDataURL] yields for content of a media type:
    the scheme, the media type, the base64 marker and the base64 text of
    the content (File API). *)
Definition readAsDataURL (mediaType content : string) : string :=
  "data:" +:+ mediaType +:+ ";base64," +:+ Base64.btoa content.

(* ===================================================================== *)
(** * Message renderer (the [ChatMessage] component)                      *)
(* ===================================================================== *)

(** What the browser holds outside the component: the locale and time zone
    (through the time formatter they determine), the clock, and the
    downloads triggered through the document. *)
Record Host := {
  toLocaleTimeString : Z -> string;
      (* new Date(t).toLocaleTimeString([], {hour:'2-digit', minute:'2-digit'}) *)
  clock : Z;                               (* Date.now() *)
  downloads : list (string * string)       (* (href, download) of clicked links *)
}.

Record ChatMessageProps := {
  message : Message;
  userProfilePic : option string;
  propIsKidMode : option bool;             (* isKidMode *)
  hasOnPlayAudio : bool                    (* onPlayAudio is given *)
}.

(** A value inside a template literal. *)
Definition js_string (o : option string) : string :=
  default "undefined" o.

(** [`data:${mimeType};base64,${data}`]. *)
Definition dataURL (mime data : option string) : string :=
  "data:" +:+ js_string mime +:+ ";base64," +:+ js_string data.

Inductive Avatar :=
| UserPicture (src : string)
| UserIcon
| ModelAvatar (kid : bool).

Inductive Bubble := UserBubble | KidBubble | ModelBubble.

Record PlayButton := {
  play_label : string;
  play_text : string                       (* the argument of onPlayAudio *)
}.

(** The rendered element, by what varies in it. *)
Record View := {
  v_userSide : bool;                       (* justify-end, flex-row-reverse *)
  v_avatar : Avatar;
  v_bubble : Bubble;
  v_attachments : list string;             (* src of each attachment image *)
  v_generatedImage : option string;        (* src of the generated image *)
  v_kidText : bool;                        (* text-lg font-bold *)
  v_text : string;
  v_cursor : bool;                         (* the streaming cursor *)
  v_playButton : option PlayButton;
  v_time : string
}.

(** The component body (lines 11-119): it reads the host's time formatter
    and returns the host as it found it. *)
Definition ChatMessage (host : Host) (props : ChatMessageProps) : View * Host :=
  let m := message props in
  let isUser := bool_decide (role m = USER) in
  let kid := truthy_obool (propIsKidMode props) in
  ({| v_userSide := isUser;
      v_avatar :=
        if isUser then
          match userProfilePic props with
          | Some pic => if truthy_string pic then UserPicture pic else UserIcon
          | None => UserIcon
          end
        else ModelAvatar kid;
      v_bubble := if isUser then UserBubble
                  else if kid then KidBubble else ModelBubble;
      v_attachments :=
        match attachments m with
        | Some atts =>
            map (fun att => dataURL (Some (mimeType att)) (data att)) atts
        | None => []
        end;
      v_generatedImage :=
        match generatedImage m with
        | Some g => Some (dataURL (image_mimeType g) (image_data g))
        | None => None
        end;
      v_kidText := kid;
      v_text :=
        or_else (content m)
                (match generatedImage m with Some _ => "" | None => "..." end);
      v_cursor := truthy_obool (isStreaming m);
      v_playButton :=
        if negb isUser && negb (truthy_obool (isStreaming m))
           && truthy_string (content m)
        then Some {| play_label := if kid then "Magic Voice" else "Play";
                     play_text := content m |}
        else None;
      v_time := toLocaleTimeString host (timestamp m) |},
   host).

(** What the component body reads of its props: whether the message is
    the user's, its content, whether it is streaming, the media type and
    data of each attachment, those of the generated image, the time stamp,
    whether kid mode is on, and the profile picture where it is shown (on
    a user message, when it is a non-empty string). *)
Record ReadProps := {
  read_isUser : bool;
  read_content : string;
  read_streaming : bool;
  read_attachments : list (string * option string);
  read_generatedImage : option (option string * option string);
  read_timestamp : Z;
  read_kid : bool;
  read_picture : option string
}.

Definition readProps (props : ChatMessageProps) : ReadProps :=
  let m := message props in
  let isUser := bool_decide (role m = USER) in
  {| read_isUser := isUser;
     read_content := content m;
     read_streaming := truthy_obool (isStreaming m);
     read_attachments :=
       map (fun att => (mimeType att, data att)) (default [] (attachments m));
     read_generatedImage :=
       option_map (fun g => (image_mimeType g, image_data g)) (generatedImage m);
     read_timestamp := timestamp m;
     read_kid := truthy_obool (propIsKidMode props);
     read_picture :=
       if isUser then
         match userProfilePic props with
         | Some pic => if truthy_string pic then Some pic else None
         | None => None
         end
       else None |}.

(** [downloadImage] (lines 14-19), run by a click on the download button. *)
Definition downloadImage (data mime : option string) (host : Host) : Host :=
  {| toLocaleTimeString := toLocaleTimeString host;
     clock := clock host;
     downloads :=
       downloads host ++
       [(dataURL mime data,
         "gemini-pulse-creation-" +:+ pretty (clock host) +:+ ".png")] |}.

(** Two-digit hours and minutes of a time stamp in milliseconds, for a time
    zone [offset] minutes ahead of UTC: a time formatter a host may have. *)
Definition two_digits (n : Z) : string :=
  (if (n <? 10)%Z then "0" else "") +:+ pretty n.

Definition hh_mm (offset : Z) (t : Z) : string :=
  let minutes := ((t / 60000 + offset) mod 1440)%Z in
  two_digits (minutes / 60) +:+ ":" +:+ two_digits (minutes mod 60).

(** Two hosts that differ in their time zone only, and one that differs
    from the first in its clock and downloads only. *)
Definition utcHost : Host :=
  {| toLocaleTimeString := hh_mm 0; clock := 0; downloads := [] |}.

Definition cetHost : Host :=
  {| toLocaleTimeString := hh_mm 60; clock := 0; downloads := [] |}.

Definition laterUtcHost : Host :=
  {| toLocaleTimeString := hh_mm 0; clock := 86400000;
     downloads := [("data:image/png;base64,AAAA", "gemini-pulse-creation-5.png")] |}.

Definition sampleProps : ChatMessageProps :=
  {| message := {| m_id := "m1"; role := MODEL; content := "Hello";
                   timestamp := 1700000000000; attachments := None;
                   generatedImage := None; isStreaming := Some false |};
     userProfilePic := None;
     propIsKidMode := Some false;
     hasOnPlayAudio := true |}.

(* ===================================================================== *)
(** * More of the store: selection, wiring and what the runs keep         *)
(* ===================================================================== *)

(** The current session, when there is one, is in the list. *)
Definition current_valid (st : AppState) : Prop :=
  match currentSessionId st with
  | None => True
  | Some c => In c (map s_id (sessions st))
  end.

(** The stored language is the language of the state, once a session is
    current. *)
Definition lang_persisted (st : AppState) : Prop :=
  truthy_ostring (currentSessionId st) = true ->
  localStorage st !! "gemini_lang" = Some (lang_code (language st)).

(** What no update of a message changes: its id, role, time stamp and
    attachments. *)
Definition message_key (m : Message)
  : string * Role * Z * option (list Attachment) :=
  (m_id m, role m, timestamp m, attachments m).

(** The session [createNewSession] builds (lines 306-312). *)
Definition newSessionOf {env : Env} (lang : Language) (sid mid : string)
  (tm tu : Z) : ChatSession :=
  {| s_id := sid;
     title := newConversation (translations lang);
     messages := [ {| m_id := mid; role := MODEL;
                      content := welcome (translations lang);
                      timestamp := tm; attachments := None;
                      generatedImage := None; isStreaming := None |} ];
     updatedAt := tu;
     isKidMode := Some false |}.

(** A session is still there, with the messages it had in front. *)
Definition grown (s s' : ChatSession) : Prop :=
  s_id s' = s_id s /\
  exists more,
    map message_key (messages s')
    = map message_key (messages s) ++ map message_key more.

(** An updater that changes no session id and no message key. *)
Definition keeps_keys (f : ChatSession -> ChatSession) : Prop :=
  forall s, s_id (f s) = s_id s /\
            map message_key (messages (f s)) = map message_key (messages s).

(** The updates of a send after its start. *)
Definition is_update (a : Action) : bool :=
  match a with
  | AChunk _ _ _ | AImage _ _ _ _ | ADone _ _ | ASetIsLoading _ => true
  | _ => false
  end.

(** Two versions of a session that differ in the content, image and
    streaming flag of their messages at most. *)
Definition same_frame (s s' : ChatSession) : Prop :=
  s_id s' = s_id s /\ title s' = title s /\ updatedAt s' = updatedAt s /\
  isKidMode s' = isKidMode s /\
  map message_key (messages s') = map message_key (messages s).

(** The operations that do not address the content of a conversation. *)
Definition is_navigation (a : Action) : bool :=
  match a with
  | ACreateNewSession _ _ _ _ | ADeleteSession _ | ASelectSession _
  | ASetLanguage _ | ASetIsLoading _ => true
  | _ => false
  end.

Section MoreStore.
Context {env : Env}.

(** A sidebar click selects a session that is in the list (line 397: the
    entries are rendered from [sessions]). *)
Definition select_listed (st : AppState) (a : Action) : bool :=
  match a with
  | ASelectSession id => inb id (map s_id (sessions st))
  | _ => true
  end.

Fixpoint selects_listed (st : AppState) (l : list Action) : bool :=
  match l with
  | [] => true
  | a :: r => select_listed st a && selects_listed (step st a) r
  end.

(** The wiring of the input component in [App] (line 486):
    [onSendMessage={handleSendMessage}] and [isLoading={isLoading}]. *)
Definition submit (ai : GoogleGenAI) (uid mid : string) (t1 t2 t3 : Z)
  (s : InputState * AppState) : InputState * AppState :=
  match handleSend (isLoading (snd s)) (fst s) with
  | (input', Some (text, atts)) =>
      (input', handleSendMessage ai text atts uid mid t1 t2 t3 (snd s))
  | (input', None) => (input', snd s)
  end.

End MoreStore.


(* ===================================================================== *)
(** * More of the interface: the message list and the key handler        *)
(* ===================================================================== *)

(** The message list of [App] (lines 474-482): one [ChatMessage] per
    message of the current session, with the profile picture, the mode of
    the current session and the play handler. *)
Definition messageList (host : Host) (userProfilePic : option string)
  (st : AppState) : list View :=
  match find_session (currentSessionId st) (sessions st) with
  | Some currentSession =>
      map (fun m =>
             fst (ChatMessage host
                    {| message := m;
                       userProfilePic := userProfilePic;
                       propIsKidMode := Some (isKidModeOf st);
                       hasOnPlayAudio := true |}))
          (messages currentSession)
  | None => []
  end.

(* ===================================================================== *)
(** * More of the live session: what the statements speak of             *)
(* ===================================================================== *)

(** The text a message adds to the input and to the output transcription
    (lines 214-215): nothing without the field, the text ["undefined"]
    when the field has no [text]. *)
Definition input_text {T} (e : LiveEvent T) : string :=
  match inputTranscription (ev_message e) with
  | Some tr => default "undefined" (transcription_text tr)
  | None => ""
  end.

Definition output_text {T} (e : LiveEvent T) : string :=
  match outputTranscription (ev_message e) with
  | Some tr => default "undefined" (transcription_text tr)
  | None => ""
  end.

(** The buffer the handler of a message waits with at its [await]: that of
    the audio of the message, when the message has audio and the audio
    decodes. *)
Definition awaited {T} (e : LiveEvent T) : option AudioBuffer :=
  match audioData (ev_message e) with
  | Normal audio =>
      if truthy_ostring audio
      then Base64.decode (default "" audio) ≫= decodeAudioData
      else None
  | Throw => None
  end.

(** The buffers of the handlers a run resumes, in the order it resumes
    them, [queue] being the buffers of the handlers that wait when the run
    begins. *)
Fixpoint resumed {T} (queue : list AudioBuffer) (steps : list (LiveStep T))
  : list AudioBuffer :=
  match steps with
  | [] => []
  | LDeliver e :: rest => resumed (queue ++ option_list (awaited e)) rest
  | LResume :: rest =>
      match queue with
      | [] => resumed [] rest
      | buffer :: queue' => buffer :: resumed queue' rest
      end
  | _ :: rest => resumed queue rest
  end.

(** The messages a run delivers, in order. *)
Definition deliveries {T} (steps : list (LiveStep T)) : list (LiveEvent T) :=
  omap (fun x => match x with LDeliver e => Some e | _ => None end) steps.

(** A step that delivers no message reporting an interruption, and one
    that delivers none reporting the end of a turn. *)
Definition no_interruption {T} (x : LiveStep T) : Prop :=
  match x with
  | LDeliver e => interrupted (ev_message e) = false
  | _ => True
  end.

Definition no_turn_end {T} (x : LiveStep T) : Prop :=
  match x with
  | LDeliver e => turnComplete (ev_message e) = false
  | _ => True
  end.

(** Each message handled alone: delivered, and resumed before the next. *)
Definition one_by_one {T} (evs : list (LiveEvent T)) : list (LiveStep T) :=
  flat_map (fun e => [LDeliver e; LResume]) evs.

Section MoreLive.
Context {T : Type} {clock : AudioClock T} {env : Env}.

(** Every source of the set has been started and has not been stopped,
    and only started sources have been stopped. *)
Definition sources_tracked (r : LiveRefs T) : Prop :=
  (forall n, n ∈ audioSources r ->
             (n < length (started r))%nat /\ n ∉ stopped r) /\
  (forall n, n ∈ stopped r -> (n < length (started r))%nat).

(** What line 236-244 do to the store and the accumulators, for the
    transcriptions [input] and [output] they find: [before] and [after]
    are the store before and after, [r] the refs after. *)
Definition turn_stored (cur : option string) (e : LiveEvent T)
  (input output : string) (before after : AppState) (r : LiveRefs T) : Prop :=
  let userMsg := userTurnMessage (ev_uid e) input (ev_t1 e) in
  let modelMsg := modelTurnMessage (ev_mid e) output (ev_t2 e) in
  (input <> "" \/ output <> "" ->
   (forall s, find_session cur (sessions before) = Some s ->
      exists s', find_session cur (sessions after) = Some s' /\
                 messages s' = messages s ++ [userMsg; modelMsg]) /\
   (find_session cur (sessions before) = None ->
    sessions after = sessions before) /\
   length (sessions after) = length (sessions before) /\
   (forall i s, sessions before !! i = Some s -> is_current cur s = false ->
                sessions after !! i = Some s) /\
   role userMsg = USER /\
   content userMsg = (if decide (input = "") then "[Audio]" else input) /\
   role modelMsg = MODEL /\
   content modelMsg
   = (if decide (output = "") then "[Audio Response]" else output) /\
   transcription_input r = "" /\
   transcription_output r = "")
  /\
  (input = "" /\ output = "" -> after = before).

End MoreLive.

(* ===================================================================== *)
(** * Audio samples ([src/App.tsx], lines 30-47 and 203-209)              *)
(* ===================================================================== *)

Module Pcm.

(** The byte order of the platform, which decides how a typed array of
    16-bit integers lies in its buffer. *)
Inductive ByteOrder := LittleEndian | BigEndian.

(** [ToInt16] of a finite number: the fraction is dropped, and the result
    is taken modulo [2^16] into the signed range.  Samples are finite
    numbers, written as rationals. *)
(** The values of a 16-bit signed integer. *)
Definition int16_range (v : Z) : Prop := (-32768 <= v < 32768)%Z.

Definition truncate (x : Q) : Z := Z.quot (Qnum x) (Z.pos (Qden x)).

Definition toInt16 (x : Q) : Z :=
  let int := truncate x in
  let int16bit := (int mod 65536)%Z in
  if (int16bit <? 32768)%Z then int16bit else (int16bit - 65536)%Z.

Definition byte_of_Z (z : Z) : Byte.byte :=
  default Byte.x00 (Byte.of_N (Z.to_N (z mod 256))).

Definition Z_of_byte (b : Byte.byte) : Z := Z.of_N (Byte.to_N b).

(** The two bytes of an [Int16Array] element. *)
Definition int16_bytes (order : ByteOrder) (v : Z) : list Byte.byte :=
  let lo := byte_of_Z v in
  let hi := byte_of_Z (v / 256) in
  match order with
  | LittleEndian => [lo; hi]
  | BigEndian => [hi; lo]
  end.

(** The element two bytes of a buffer stand for. *)
Definition int16_of_bytes (order : ByteOrder) (b0 b1 : Byte.byte) : Z :=
  let '(lo, hi) := match order with
                   | LittleEndian => (b0, b1)
                   | BigEndian => (b1, b0)
                   end in
  let u := (Z_of_byte lo + 256 * Z_of_byte hi)%Z in
  if (u <? 32768)%Z then u else (u - 65536)%Z.

(** [new Uint8Array(int16.buffer)]. *)
Definition uint8View (order : ByteOrder) (int16 : list Z) : list Byte.byte :=
  flat_map (int16_bytes order) int16.

(** [new Int16Array(data.buffer)], for a buffer of even length. *)
Fixpoint int16View (order : ByteOrder) (data : list Byte.byte) : list Z :=
  match data with
  | b0 :: b1 :: rest => int16_of_bytes order b0 b1 :: int16View order rest
  | _ => []
  end.

(** [onaudioprocess] (lines 203-207): the blob sent for one buffer of the
    microphone. *)
Definition pcmBlob (order : ByteOrder) (inputData : list Q) : Blob :=
  let int16 := map (fun x => toInt16 (x * 32768)%Q) inputData in
  {| blob_mimeType := Some "audio/pcm;rate=16000";
     blob_data := Some (Base64.encode (uint8View order int16)) |}.

(** The channel data [decodeAudioData] fills (lines 36-45), for one
    channel; [None] where it throws. *)
Definition channelData (order : ByteOrder) (data : list Byte.byte)
  : option (list Q) :=
  if Nat.odd (length data) then None
  else
    let dataInt16 := int16View order data in
    let frameCount := length dataInt16 in
    if (frameCount =? 0)%nat then None
    else Some (map (fun v => (v # 32768)%Q) dataInt16).

End Pcm.

(* ===================================================================== *)
(** * Speech for a reply ([generateTTS], [playResponseAudio])             *)
(* ===================================================================== *)

(** [getVoiceForLanguage] ([src/App.tsx], lines 69-79). *)
Definition getVoiceForLanguage (lang : Language) : string :=
  or_else (match lang with
           | en => "Zephyr" | pt => "Kore" | es => "Charon"
           | fr => "Puck" | de => "Fenrir" | it => "Kore"
           end) "Zephyr".

(** The request of [generateTTS] ([src/services/geminiService.ts], lines
    107-118), by what varies in it. *)
Record SpeechRequest := {
  speech_model : string;
  speech_text : string;
  speech_voiceName : string
}.

Definition voiceMap (language : Language) : string :=
  match language with
  | en => "Zephyr" | pt => "Kore" | es => "Charon"
  | fr => "Puck" | de => "Fenrir" | it => "Kore"
  end.

Definition speechRequest (text : string) (language : Language)
  : SpeechRequest :=
  {| speech_model := "gemini-2.5-flash-preview-tts";
     speech_text := "Respond in the language " +:+ lang_code language
                    +:+ " with a very friendly and cheerful voice: " +:+ text;
     speech_voiceName := or_else (voiceMap language) "Zephyr" |}.

(** [generateTTS] (lines 94-120); [generateContent] is the answer of the
    service to the request. *)
Definition generateTTS
  (generateContent : SpeechRequest -> Outcome GenerateContentResponse)
  (text : string) (language : Language) : Outcome (option string) :=
  match generateContent (speechRequest text language) with
  | Resolved response =>
      Resolved (parts ← first_candidate_parts response;
                part ← head parts;
                inlineData ← part_inlineData part;
                blob_data inlineData)
  | Rejected error => Rejected error
  end.

(** [playResponseAudio] ([src/App.tsx], lines 145-161): [played] lists the
    buffers of the sources started on the output context; an error is
    caught and logged. *)
Definition playResponseAudio
  (generateContent : SpeechRequest -> Outcome GenerateContentResponse)
  (text : string) (language : Language) (played : list AudioBuffer)
  : list AudioBuffer :=
  match generateTTS generateContent text language with
  | Resolved base64Audio =>
      if truthy_ostring base64Audio then
        match Base64.decode (default "" base64Audio) ≫= decodeAudioData with
        | Some buffer => played ++ [buffer]
        | None => played
        end
      else played
  | Rejected _ => played
  end.
(* ===================================================================== *)
(** * Predicates used by the proofs                                       *)
(* ===================================================================== *)

(** The character of a six-bit value decodes to it, and is neither white
    space nor the padding character. *)
Definition sextet_ok (n : N) : bool :=
  match Base64.dec_char (Base64.enc_char n) with
  | Some m => (m =? n)%N
  | None => false
  end
  && negb (Base64.is_ascii_whitespace (Base64.enc_char n))
  && negb (Ascii.eqb (Base64.enc_char n) Base64.pad_char).

(** The character of a six-bit value is not a comma. *)
Definition sextet_no_comma (n : N) : bool :=
  negb (Ascii.eqb ","%char (Base64.enc_char n)).


Section StorePredicates.
Context {env : Env}.

(** A non-empty session list is the one in storage. *)
Definition persisted (st : AppState) : Prop :=
  sessions st <> [] ->
  stored_sessions st = Some (JSON_stringify (sessions st)).

(** What may follow a [setSessions] inside a handler: it keeps the list
    persisted, keeps its length, and writes nothing for the empty list. *)
Definition follow_up (g : AppState -> AppState) : Prop :=
  forall st,
    (persisted st -> persisted (g st)) /\
    length (sessions (g st)) = length (sessions st) /\
    (sessions (g st) = [] -> stored_sessions (g st) = stored_sessions st).

End StorePredicates.

(** Uniqueness on a session list. *)
Definition unique_sessions (ss : list ChatSession) : Prop :=
  NoDup (map s_id ss) /\
  Forall (fun s => NoDup (map m_id (messages s))) ss.

(** An updater that changes no identifier. *)
Definition keeps_ids (f : ChatSession -> ChatSession) : Prop :=
  forall s, s_id (f s) = s_id s /\
            map m_id (messages (f s)) = map m_id (messages s).


Section LivePredicates.
Context {T : Type} {clock : AudioClock T}.

(** What one message does to the schedule. *)
Definition scheduled (c : T) (new : list (T * T)) (c' : T) : Prop :=
  sequential c new /\ t_le (end_of c new) c' /\ t_le c c'.

(** The audio part of a message schedules nothing, and the cursor does not
    move back, or one buffer, which starts at or after the cursor and moves
    the cursor to its end. *)
Definition one_step (r r' : LiveRefs T) : Prop :=
  (started r' = started r /\ t_le (nextStartTime r) (nextStartTime r')) \/
  (exists s n,
     started r' = started r ++ [(s, frames_duration n)] /\
     t_le (nextStartTime r) s /\
     nextStartTime r' = t_add s (frames_duration n)).

End LivePredicates.


(* ===================================================================== *)
(** * More sample data                                                    *)
(* ===================================================================== *)

(** The store after one exchange in the first session. *)
Definition chattedStore : AppState :=
  handleSendMessage (env := sampleEnv) helloService "Hi" []
                    "u1" "m2" 2000 2001 2002 oneSession.

(** A store whose last session has been deleted. *)
Definition emptiedStore : AppState :=
  deleteSession (env := sampleEnv) "s1" oneSession.

(** Two sessions created one after the other, then a click on the
    first. *)
Definition clickRun : list Action :=
  [ ACreateNewSession "s1" "m1" 1000 1001;
    ACreateNewSession "s2" "m5" 4000 4001;
    ASelectSession "s1" ].

(** An exchange, a switch of mode and a live turn in the first session. *)
Definition busyRun : list Action :=
  [ ASendStart "Hi" [] "u1" "m2" 2000 2001 2002;
    AChunk (Some "s1") "m2" "Hello";
    ADone (Some "s1") "m2";
    ASetIsLoading false;
    ASetLanguage pt;
    ALiveTurn (Some "s1") "good morning" "" "u3" "m4" 3000 3001 3002;
    ACreateNewSession "s2" "m5" 4000 4001 ].

Definition pictureAttachment : Attachment :=
  {| mimeType := "image/png"; data := Some "iVBORw0KGgo="; url := None |}.

(** A file of three bytes, as [readAsDataURL] presents it. *)
Definition smallFile : File :=
  {| file_type := "image/png";
     file_result := readAsDataURL "image/png" "abc" |}.

(** A message of the live session that carries transcriptions only. *)
Definition heardEvent (input output : option string) : LiveEvent Z :=
  liveEvent
    {| inputTranscription :=
         option_map (fun t => {| transcription_text := Some t |}) input;
       outputTranscription :=
         option_map (fun t => {| transcription_text := Some t |}) output;
       modelTurn := None; interrupted := false; turnComplete := false |} 0%Z.

(** An interruption and the end of a turn as messages without a model
    turn: [serverContent = { interrupted: true }] and
    [serverContent = { turnComplete: true }]. *)
Definition plainInterruption : LiveServerMessage :=
  {| inputTranscription := None; outputTranscription := None;
     modelTurn := None; interrupted := true; turnComplete := false |}.

Definition plainTurnEnd : LiveServerMessage :=
  {| inputTranscription := None; outputTranscription := None;
     modelTurn := None; interrupted := false; turnComplete := true |}.

(** A message handled, at clock time 11, while one buffer is playing, and
    one handled after the user has been heard. *)
Definition whilePlaying (message : LiveServerMessage) : LiveRefs Z * AppState :=
  onevent (clock := frameClock) (env := sampleEnv) (Some "s1")
          (playingRefs, oneSession) (liveEvent message 11).

Definition afterHearing (message : LiveServerMessage) : LiveRefs Z * AppState :=
  onevent (clock := frameClock) (env := sampleEnv) (Some "s1")
          (heardRefs, oneSession) (liveEvent message 11).

(** The last message of a turn, with audio of three frames. *)
Definition turnEndWithAudio : LiveServerMessage :=
  {| inputTranscription := None; outputTranscription := None;
     modelTurn := Some (audioTurn "AAAAAAAA"); interrupted := false;
     turnComplete := true |}.

(** The user's first session after a run of a live session that began
    after the user had been heard. *)
Definition heardThen (steps : list (LiveStep Z)) : option (list string) :=
  s ← find_session (Some "s1")
        (sessions (snd (live (liverun (clock := frameClock) (env := sampleEnv)
                                (Some "s1") steps
                                {| live := (heardRefs, oneSession);
                                   suspended := [] |}))));
  Some (map content (messages s)).
(* ===================================================================== *)
(** * Properties                                                          *)
(* ===================================================================== *)

Ltac nlia := zify; Z.to_euclidean_division_equations; lia.

Ltac list_eq :=
  repeat match goal with |- _ :: _ = _ :: _ => f_equal end.

(** Induction over a list three elements at a time, the step of base64. *)
Lemma list_ind3 {A} (P : list A -> Prop) :
  P [] -> (forall a, P [a]) -> (forall a b, P [a; b]) ->
  (forall a b c l, P l -> P (a :: b :: c :: l)) ->
  forall l, P l.
Proof.
  intros H0 H1 H2 H3.
  assert (H : forall l, P l /\ (forall a, P (a :: l)) /\
                        (forall a b, P (a :: b :: l))).
  { induction l as [|x l (Ha & Hb & Hc)]; [auto|].
    split; [apply Hb|]. split; [intros a; apply Hc|].
    intros a b. apply H3, Ha. }
  intros l. apply H.
Qed.

Section Base64Facts.
Import Base64.

Lemma sextet_ok_all (n : N) : (n < 64)%N -> sextet_ok n = true.
Proof.
  intros Hn.
  assert (Hall : forallb sextet_ok (map N.of_nat (seq 0 64)) = true)
    by (vm_compute; reflexivity).
  rewrite forallb_forall in Hall. apply Hall.
  rewrite <- (N2Nat.id n). apply in_map, in_seq. lia.
Qed.

Lemma dec_enc_char (n : N) : (n < 64)%N -> dec_char (enc_char n) = Some n.
Proof.
  intros Hn. pose proof (sextet_ok_all n Hn) as H. unfold sextet_ok in H.
  apply andb_prop in H as [H _]. apply andb_prop in H as [H _].
  destruct (dec_char (enc_char n)) as [m|]; [|discriminate].
  apply N.eqb_eq in H. congruence.
Qed.

Lemma enc_char_not_ws (n : N) :
  (n < 64)%N -> is_ascii_whitespace (enc_char n) = false.
Proof.
  intros Hn. pose proof (sextet_ok_all n Hn) as H. unfold sextet_ok in H.
  apply andb_prop in H as [H _]. apply andb_prop in H as [_ H].
  now apply negb_true_iff in H.
Qed.

Lemma enc_char_not_pad (n : N) :
  (n < 64)%N -> Ascii.eqb (enc_char n) pad_char = false.
Proof.
  intros Hn. pose proof (sextet_ok_all n Hn) as H. unfold sextet_ok in H.
  apply andb_prop in H as [_ H]. now apply negb_true_iff in H.
Qed.

Lemma enc_char_not_comma (n : N) :
  (n < 64)%N -> Ascii.eqb ","%char (enc_char n) = false.
Proof.
  intros Hn.
  assert (Hall : forallb sextet_no_comma (map N.of_nat (seq 0 64)) = true)
    by (vm_compute; reflexivity).
  rewrite forallb_forall in Hall. apply negb_true_iff, Hall.
  rewrite <- (N2Nat.id n). apply in_map, in_seq. lia.
Qed.

Lemma to_sextets_bound (l : list N) :
  Forall (fun a => (a < 256)%N) l -> Forall (fun s => (s < 64)%N) (to_sextets l).
Proof.
  induction l as [|a|a b|a b c l IH] using list_ind3; intros H; simpl.
  - constructor.
  - inversion_clear H. repeat constructor; nlia.
  - inversion_clear H as [|? ? Ha H']. inversion_clear H'.
    repeat constructor; nlia.
  - inversion_clear H as [|? ? Ha H']. inversion_clear H' as [|? ? Hb H''].
    inversion_clear H'' as [|? ? Hc Hl].
    repeat (constructor; [nlia|]). now apply IH.
Qed.

Lemma of_to_sextets (l : list N) :
  Forall (fun a => (a < 256)%N) l -> of_sextets (to_sextets l) = l.
Proof.
  induction l as [|a|a b|a b c l IH] using list_ind3; intros H; simpl.
  - reflexivity.
  - inversion_clear H. list_eq. nlia.
  - inversion_clear H as [|? ? Ha H']. inversion_clear H'.
    list_eq; nlia.
  - inversion_clear H as [|? ? Ha H']. inversion_clear H' as [|? ? Hb H''].
    inversion_clear H'' as [|? ? Hc Hl].
    list_eq; solve [nlia | now apply IH].
Qed.

Lemma sextets_length (l : list N) :
  (length (to_sextets l) mod 4 <> 1)%nat /\
  ((length (to_sextets l) + length (padding l)) mod 4 = 0)%nat.
Proof.
  induction l as [|a|a b|a b c l [IH1 IH2]] using list_ind3;
    try (split; [discriminate|reflexivity]).
  cbn [to_sextets padding length]. split.
  - intros H. apply IH1. nlia.
  - nlia.
Qed.

Lemma padding_cases (l : list N) :
  padding l = [] \/ padding l = [pad_char] \/ padding l = [pad_char; pad_char].
Proof. induction l using list_ind3; simpl; auto. Qed.

Lemma drop_last_pad_none (e : list ascii) :
  Forall (fun c => Ascii.eqb c pad_char = false) e -> drop_last_pad e = None.
Proof.
  intros H. unfold drop_last_pad. destruct (rev e) as [|c r] eqn:E; [done|].
  assert (Hc : In c e) by (apply in_rev; rewrite E; now left).
  rewrite Forall_forall in H. apply list_elem_of_In in Hc.
  now rewrite (H c Hc).
Qed.

Lemma drop_last_pad_snoc (e : list ascii) :
  drop_last_pad (e ++ [pad_char]) = Some e.
Proof.
  unfold drop_last_pad. rewrite rev_app_distr. simpl.
  now rewrite rev_involutive.
Qed.

Lemma strip_padding_encoded (e : list ascii) (l : list N) :
  Forall (fun c => Ascii.eqb c pad_char = false) e ->
  strip_padding (e ++ padding l) = e.
Proof.
  intros He. unfold strip_padding.
  destruct (padding_cases l) as [-> | [-> | ->]].
  - rewrite app_nil_r. now rewrite drop_last_pad_none.
  - rewrite drop_last_pad_snoc. now rewrite drop_last_pad_none.
  - change [pad_char; pad_char] with ([pad_char] ++ [pad_char])%list.
    rewrite app_assoc, drop_last_pad_snoc, drop_last_pad_snoc. reflexivity.
Qed.

Lemma filter_no_whitespace (e : list ascii) :
  Forall (fun c => is_ascii_whitespace c = false) e ->
  List.filter (fun c => negb (is_ascii_whitespace c)) e = e.
Proof.
  induction 1 as [|c e Hc _ IH]; simpl; [done|]. now rewrite Hc, IH.
Qed.

Lemma mapM_dec_enc (l : list N) :
  Forall (fun s => (s < 64)%N) l -> mapM dec_char (map enc_char l) = Some l.
Proof.
  induction 1 as [|s l Hs _ IH]; simpl; [done|].
  rewrite dec_enc_char by done. simpl. now rewrite IH.
Qed.

Lemma ascii_codes_bound (cs : list ascii) :
  Forall (fun a => (a < 256)%N) (map N_of_ascii cs).
Proof.
  induction cs; simpl; constructor; [apply N_ascii_bounded | done].
Qed.

Lemma ascii_codes_inv (cs : list ascii) :
  map ascii_of_N (map N_of_ascii cs) = cs.
Proof.
  induction cs as [|c cs IH]; simpl; [done|].
  now rewrite ascii_N_embedding, IH.
Qed.

(** [atob] undoes [btoa] on every binary string. *)
Lemma atob_btoa (s : string) : atob (btoa s) = Some s.
Proof.
  unfold atob, btoa.
  set (codes := map N_of_ascii (list_ascii_of_string s)).
  pose proof (to_sextets_bound codes (ascii_codes_bound _)) as Hb.
  set (e := map enc_char (to_sextets codes)).
  assert (Hpad : Forall (fun c => Ascii.eqb c pad_char = false) e).
  { subst e. apply Forall_map. eapply Forall_impl; [exact Hb|].
    intros n Hn. now apply enc_char_not_pad. }
  assert (Hws : Forall (fun c => is_ascii_whitespace c = false)
                       (e ++ padding codes)).
  { apply Forall_app. split.
    - subst e. apply Forall_map. eapply Forall_impl; [exact Hb|].
      intros n Hn. now apply enc_char_not_ws.
    - destruct (padding_cases codes) as [-> | [-> | ->]];
        repeat constructor. }
  rewrite list_ascii_of_string_of_list_ascii.
  rewrite (filter_no_whitespace _ Hws).
  destruct (sextets_length codes) as [H1 H0].
  assert (Hlen : length e = length (to_sextets codes))
    by (subst e; apply length_map).
  rewrite length_app, Hlen, H0. rewrite Nat.eqb_refl.
  rewrite (strip_padding_encoded e codes Hpad).
  rewrite Hlen. destruct (Nat.eqb_spec (length (to_sextets codes) mod 4) 1);
    [contradiction|].
  subst e. rewrite (mapM_dec_enc _ Hb). simpl.
  rewrite of_to_sextets by apply ascii_codes_bound.
  subst codes. rewrite ascii_codes_inv.
  now rewrite string_of_list_ascii_of_string.
Qed.

(** The base64 text of a string has no comma. *)
Lemma btoa_no_comma (s : string) :
  existsb (Ascii.eqb ","%char) (list_ascii_of_string (btoa s)) = false.
Proof.
  unfold btoa. rewrite list_ascii_of_string_of_list_ascii.
  set (codes := map N_of_ascii (list_ascii_of_string s)).
  pose proof (to_sextets_bound codes (ascii_codes_bound _)) as Hb.
  rewrite existsb_app. apply orb_false_iff. split.
  - induction Hb as [|n l Hn _ IH]; [done|]. cbn [map existsb].
    now rewrite (enc_char_not_comma n Hn), IH.
  - now destruct (padding_cases codes) as [-> | [-> | ->]].
Qed.

Lemma string_app_cons (x : ascii) (a b : string) :
  String x a +:+ b = String x (a +:+ b).
Proof. reflexivity. Qed.

Lemma string_app_assoc (a b c : string) : (a +:+ b) +:+ c = a +:+ (b +:+ c).
Proof.
  induction a as [|x a IH]; [done|].
  rewrite !string_app_cons. now rewrite IH.
Qed.

Lemma string_app_nil_r (a : string) : a +:+ "" = a.
Proof.
  induction a as [|x a IH]; [done|].
  rewrite string_app_cons. now rewrite IH.
Qed.

Lemma encode_loop (bytes : list Byte.byte) (acc : string) :
  fold_left (fun binary b => binary +:+ String (ascii_of_byte b) "") bytes acc
  = acc +:+ string_of_list_ascii (map ascii_of_byte bytes).
Proof.
  revert acc. induction bytes as [|b bytes IH]; intros acc.
  - cbn [fold_left map string_of_list_ascii]. now rewrite string_app_nil_r.
  - cbn [fold_left map string_of_list_ascii].
    rewrite IH, string_app_assoc. reflexivity.
Qed.

Lemma bytes_of_ascii_inv (bytes : list Byte.byte) :
  map byte_of_ascii (map ascii_of_byte bytes) = bytes.
Proof.
  induction bytes as [|b bytes IH]; simpl; [done|].
  now rewrite byte_of_ascii_of_byte, IH.
Qed.

(** C9. For every byte array [b], [decode (encode b)] returns [b]: the
    base64 audio helpers of [App.tsx] are mutually inverse in the direction
    the claim states, and decoding an encoded array never throws. *)
Theorem decode_encode (b : list Byte.byte) :
  Base64.decode (Base64.encode b) = Some b.
Proof.
  unfold decode, encode. rewrite encode_loop.
  change ("" +:+ ?s) with s. rewrite atob_btoa.
  cbn [mbind option_bind]. f_equal.
  rewrite list_ascii_of_string_of_list_ascii.
  apply bytes_of_ascii_inv.
Qed.

End Base64Facts.

(* --------------------------------------------------------------------- *)
(** ** Strings and lists                                                  *)
(* --------------------------------------------------------------------- *)

Lemma string_app_nil_l (a : string) : "" +:+ a = a.
Proof. reflexivity. Qed.

Lemma concat_empty_cons (x : string) (l : list string) :
  String.concat "" (x :: l) = x +:+ String.concat "" l.
Proof.
  destruct l as [|y l]; cbn [String.concat].
  - now rewrite string_app_nil_r.
  - reflexivity.
Qed.

Lemma last_map {A B} (f : A -> B) (l : list A) :
  last (map f l) = f <$> last l.
Proof.
  induction l as [|x l IH]; [done|].
  destruct l as [|y l]; [done|]. exact IH.
Qed.

Lemma truthy_string_true (s : string) : truthy_string s = true <-> s <> "".
Proof.
  unfold truthy_string. rewrite negb_true_iff. apply String.eqb_neq.
Qed.

Lemma truthy_string_false (s : string) : truthy_string s = false <-> s = "".
Proof.
  unfold truthy_string. rewrite negb_false_iff. apply String.eqb_eq.
Qed.

(* --------------------------------------------------------------------- *)
(** ** The store's primitives                                             *)
(* --------------------------------------------------------------------- *)

Section StoreFacts.
Context {env : Env}.

Lemma sessions_persistSessions st :
  sessions (persistSessions st) = sessions st.
Proof. unfold persistSessions. now destruct (0 <? _)%nat. Qed.

Lemma sessions_setSessions f st :
  sessions (setSessions f st) = f (sessions st).
Proof. unfold setSessions. now rewrite sessions_persistSessions. Qed.

Lemma currentSessionId_setSessions f st :
  currentSessionId (setSessions f st) = currentSessionId st.
Proof. unfold setSessions, persistSessions. now destruct (0 <? _)%nat. Qed.

Lemma language_setSessions f st :
  language (setSessions f st) = language st.
Proof. unfold setSessions, persistSessions. now destruct (0 <? _)%nat. Qed.

Lemma isLoading_setSessions f st :
  isLoading (setSessions f st) = isLoading st.
Proof. unfold setSessions, persistSessions. now destruct (0 <? _)%nat. Qed.

Lemma find_session_current cur ss s :
  find_session cur ss = Some s -> is_current cur s = true.
Proof. intros Hf. now apply find_some in Hf. Qed.

Lemma find_session_In cur ss s :
  find_session cur ss = Some s -> In s ss.
Proof. intros Hf. now apply find_some in Hf. Qed.

Lemma is_current_same_id cur s s' :
  s_id s' = s_id s -> is_current cur s' = is_current cur s.
Proof. unfold is_current. now intros ->. Qed.

(** An updater that keeps the session ids commutes with the lookup of the
    current session. *)
Lemma find_session_map cur f ss :
  (forall s, s_id (f s) = s_id s) ->
  find_session cur (map f ss) = f <$> find_session cur ss.
Proof.
  intros Hid. unfold find_session.
  induction ss as [|s ss IH]; [done|]. cbn [map find].
  rewrite (is_current_same_id cur s (f s) (Hid s)).
  destruct (is_current cur s); [done|]. exact IH.
Qed.

Lemma s_id_updateMessage cur mid g s : s_id (updateMessage cur mid g s) = s_id s.
Proof. unfold updateMessage. now destruct (is_current cur s). Qed.

Lemma s_id_appendUpdate lang cur u p text now s :
  s_id (appendUpdate lang cur u p text now s) = s_id s.
Proof. unfold appendUpdate. now destruct (is_current cur s). Qed.

Lemma s_id_turnUpdate cur u p now s : s_id (turnUpdate cur u p now s) = s_id s.
Proof. unfold turnUpdate. now destruct (is_current cur s). Qed.

Lemma s_id_welcomeUpdate lang cur s : s_id (welcomeUpdate lang cur s) = s_id s.
Proof.
  unfold welcomeUpdate. destruct (messages s) as [|m0 [|? ?]]; [done| |done].
  now destruct (is_current cur s).
Qed.

Lemma s_id_toggleKidUpdate lang cur s :
  s_id (toggleKidUpdate lang cur s) = s_id s.
Proof. unfold toggleKidUpdate. now destruct (is_current cur s). Qed.

(** The update of the placeholder reaches the last message of the current
    session whenever that message carries the placeholder's id. *)
Lemma last_message_updateMessage cur mid g ss m :
  last_message cur ss = Some m -> m_id m = mid ->
  last_message cur (map (updateMessage cur mid g) ss) = Some (g m).
Proof.
  unfold last_message. intros Hl Hid.
  rewrite find_session_map by apply s_id_updateMessage.
  destruct (find_session cur ss) as [s|] eqn:Hf; [|discriminate].
  cbn in Hl |- *. unfold updateMessage.
  rewrite (find_session_current _ _ _ Hf). cbn [messages with_messages].
  rewrite last_map, Hl. cbn.
  apply String.eqb_eq in Hid. now rewrite Hid.
Qed.

Lemma last_message_sendStart text atts uid mid t1 t2 t3 st s :
  find_session (currentSessionId st) (sessions st) = Some s ->
  last_message (currentSessionId st)
               (sessions (sendStart text atts uid mid t1 t2 t3 st))
  = Some (initialModelMessageOf mid t2).
Proof.
  intros Hf. unfold sendStart, last_message.
  change (sessions (setIsLoading true ?x)) with (sessions x).
  rewrite sessions_setSessions.
  rewrite find_session_map by apply s_id_appendUpdate.
  rewrite Hf. cbn. unfold appendUpdate.
  rewrite (find_session_current _ _ _ Hf). cbn [messages].
  change [?a; ?b] with ([a] ++ [b]). rewrite app_assoc. apply last_snoc.
Qed.

Lemma with_content_twice c c' m :
  with_content c (with_content c' m) = with_content c m.
Proof. reflexivity. Qed.

Lemma with_content_same m : with_content (content m) m = m.
Proof. now destruct m. Qed.

(** After the chunk callback has run on [chunks], [fullResponse] is what it
    was followed by the chunks, and so is the content of the placeholder. *)
Lemma afterChunks_last cur mid chunks full0 st0 m :
  last_message cur (sessions st0) = Some m -> m_id m = mid ->
  content m = full0 ->
  fst (afterChunks cur mid chunks (full0, st0))
  = full0 +:+ String.concat "" chunks /\
  last_message cur (sessions (snd (afterChunks cur mid chunks (full0, st0))))
  = Some (with_content (full0 +:+ String.concat "" chunks) m).
Proof.
  revert full0 st0 m.
  induction chunks as [|c chunks IH]; intros full0 st0 m Hl Hid Hc.
  - cbn. rewrite string_app_nil_r. split; [done|].
    now rewrite <- Hc, with_content_same.
  - unfold afterChunks. cbn [fold_left]. unfold onChunkCallback at 2.
    cbn [fst snd]. fold (afterChunks cur mid chunks).
    rewrite concat_empty_cons, <- string_app_assoc.
    specialize (IH (full0 +:+ c)
                   (setSessions (map (chunkUpdate cur mid (full0 +:+ c))) st0)
                   (with_content (full0 +:+ c) m)).
    rewrite with_content_twice in IH. apply IH; [|done|done].
    rewrite sessions_setSessions.
    now apply last_message_updateMessage.
Qed.

(** The streaming loop calls [onChunk] on the delivered texts, in order,
    and accumulates them in [fullText]. *)
Lemma forwardChunk_fold {S} (onChunk : string -> S -> S) chunks ft (s : S) :
  fold_left (forwardChunk onChunk) chunks (ft, s)
  = (ft +:+ String.concat "" (delivered chunks),
     fold_left (fun s c => onChunk c s) (delivered chunks) s).
Proof.
  revert ft s. induction chunks as [|c chunks IH]; intros ft s.
  - cbn. now rewrite string_app_nil_r.
  - cbn [fold_left]. unfold forwardChunk at 2, delivered.
    cbn [omap list_omap fst snd]. fold (delivered chunks).
    destruct (chunk_text c) as [text|]; [|exact (IH ft s)].
    destruct (truthy_string text); [|exact (IH ft s)].
    rewrite IH. cbn [fold_left].
    now rewrite concat_empty_cons, string_app_assoc.
Qed.

Lemma currentMessagesOf_found st u s :
  find_session (currentSessionId st) (sessions st) = Some s ->
  currentMessagesOf st u = messages s ++ [u].
Proof. intros Hf. unfold currentMessagesOf. now rewrite Hf. Qed.

(** The run of a send on the streaming path. *)
Lemma sendRun_stream ai text atts uid mid t1 t2 t3 st s :
  find_session (currentSessionId st) (sessions st) = Some s ->
  hasImages (messages s ++ [userMessageOf uid text atts t1]) = false ->
  let stream :=
    models_generateContentStream ai
      (streamRequest (messages s ++ [userMessageOf uid text atts t1])
                     (language st) (isKidModeOf st)) in
  final (sendRun ai text atts uid mid t1 t2 t3 st)
  = afterChunks (currentSessionId st) mid (delivered (yielded stream))
                ("", sendStart text atts uid mid t1 t2 t3 st) /\
  outcome (sendRun ai text atts uid mid t1 t2 t3 st)
  = match failure stream with
    | None => Resolved (String.concat "" (delivered (yielded stream)))
    | Some error => Rejected error
    end.
Proof.
  intros Hf Hno stream. unfold sendRun, generateStreamingResponse.
  rewrite (currentMessagesOf_found _ _ _ Hf), Hno.
  fold stream. rewrite forwardChunk_fold. cbn [final outcome].
  split; reflexivity.
Qed.

End StoreFacts.

(* --------------------------------------------------------------------- *)
(** ** Streaming a response into the placeholder                          *)
(* --------------------------------------------------------------------- *)

Section Streaming.
Context {env : Env}.

Lemma handleSendMessage_live ai text atts uid mid t1 t2 t3 st :
  truthy_ostring (currentSessionId st) = true ->
  handleSendMessage ai text atts uid mid t1 t2 t3 st
  = setIsLoading false
      (match outcome (sendRun ai text atts uid mid t1 t2 t3 st) with
       | Resolved _ =>
           setSessions (map (doneUpdate (currentSessionId st) mid))
                       (snd (final (sendRun ai text atts uid mid t1 t2 t3 st)))
       | Rejected _ => snd (final (sendRun ai text atts uid mid t1 t2 t3 st))
       end).
Proof. intros Hcur. unfold handleSendMessage. now rewrite Hcur. Qed.

(** C1. During a send that takes the streaming path (no message of the
    conversation has an attachment), in a store that holds the current
    session: the callbacks of the send are the delivered chunks in arrival
    order; after the n-th of them (a state the run goes through) the last
    message of the current session is the placeholder with the
    concatenation of the first n chunks as its content, still streaming;
    and when the stream ends normally the
    placeholder has the concatenation of all chunks and [isStreaming] is
    [false]. *)
Theorem streamed_content_is_concatenation
  ai text atts uid mid t1 t2 t3 st s :
  truthy_ostring (currentSessionId st) = true ->
  find_session (currentSessionId st) (sessions st) = Some s ->
  hasImages (messages s ++ [userMessageOf uid text atts t1]) = false ->
  let cur := currentSessionId st in
  let stream :=
    models_generateContentStream ai
      (streamRequest (messages s ++ [userMessageOf uid text atts t1])
                     (language st) (isKidModeOf st)) in
  let chunks := delivered (yielded stream) in
  let start := sendStart text atts uid mid t1 t2 t3 st in
  final (sendRun ai text atts uid mid t1 t2 t3 st)
  = afterChunks cur mid chunks ("", start) /\
  (forall n, (n <= length chunks)%nat ->
     afterChunks cur mid chunks ("", start)
     = afterChunks cur mid (drop n chunks)
                   (afterChunks cur mid (take n chunks) ("", start)) /\
     last_message cur
       (sessions (snd (afterChunks cur mid (take n chunks) ("", start))))
     = Some (placeholderMessage mid t2 (String.concat "" (take n chunks)) true))
  /\
  (failure stream = None ->
     last_message cur
       (sessions (handleSendMessage ai text atts uid mid t1 t2 t3 st))
     = Some (placeholderMessage mid t2 (String.concat "" chunks) false)).
Proof.
  intros Hcur Hf Hno cur stream chunks start.
  destruct (sendRun_stream ai text atts uid mid t1 t2 t3 st s Hf Hno)
    as [Hfinal Hout].
  fold stream chunks start cur in Hfinal, Hout.
  pose proof (last_message_sendStart text atts uid mid t1 t2 t3 st s Hf)
    as Hstart.
  fold start cur in Hstart.
  assert (Hafter : forall cs,
    last_message cur (sessions (snd (afterChunks cur mid cs ("", start))))
    = Some (placeholderMessage mid t2 (String.concat "" cs) true)).
  { intros cs.
    destruct (afterChunks_last cur mid cs "" start
                (initialModelMessageOf mid t2) Hstart eq_refl eq_refl)
      as [_ Hl].
    exact Hl. }
  split; [exact Hfinal|]. split.
  - intros n _. split; [|apply Hafter].
    unfold afterChunks. rewrite <- fold_left_app. now rewrite take_drop.
  - intros Hend. rewrite handleSendMessage_live by exact Hcur.
    fold cur. rewrite Hout, Hend, Hfinal.
    change (sessions (setIsLoading false ?x)) with (sessions x).
    rewrite sessions_setSessions.
    apply (last_message_updateMessage cur mid (with_isStreaming false) _ _
             (Hafter chunks) eq_refl).
Qed.

End Streaming.

(* --------------------------------------------------------------------- *)
(** ** A request that fails                                               *)
(* --------------------------------------------------------------------- *)

Section Failure.
Context {env : Env}.

Lemma update_placeholder_only mid g (l : list Message) u p :
  ~ In mid (map m_id l) -> m_id u <> mid -> m_id p = mid ->
  map (fun m => if String.eqb (m_id m) mid then g m else m) (l ++ [u; p])
  = l ++ [u; g p].
Proof.
  intros Hl Hu Hp. rewrite map_app. f_equal.
  - induction l as [|m l IH]; [done|]. cbn [map] in *.
    apply not_in_cons in Hl as [Hm Hl].
    destruct (String.eqb_spec (m_id m) mid) as [E|_]; [now symmetry in E|].
    now rewrite IH.
  - cbn [map]. apply String.eqb_neq in Hu. apply String.eqb_eq in Hp.
    now rewrite Hu, Hp.
Qed.

Lemma sendStart_messages text atts uid mid t1 t2 t3 st s :
  find_session (currentSessionId st) (sessions st) = Some s ->
  exists s',
    find_session (currentSessionId st)
                 (sessions (sendStart text atts uid mid t1 t2 t3 st)) = Some s'
    /\ messages s' = messages s ++ [userMessageOf uid text atts t1;
                                    initialModelMessageOf mid t2].
Proof.
  intros Hf. unfold sendStart.
  change (sessions (setIsLoading true ?x)) with (sessions x).
  rewrite sessions_setSessions.
  rewrite find_session_map by apply s_id_appendUpdate.
  rewrite Hf. eexists. split; [reflexivity|].
  unfold appendUpdate. now rewrite (find_session_current _ _ _ Hf).
Qed.

Lemma afterChunks_messages cur mid chunks full0 st0 s0 l u p :
  find_session cur (sessions st0) = Some s0 ->
  messages s0 = l ++ [u; p] ->
  ~ In mid (map m_id l) -> m_id u <> mid -> m_id p = mid ->
  content p = full0 ->
  exists s',
    find_session cur (sessions (snd (afterChunks cur mid chunks (full0, st0))))
    = Some s' /\
    messages s' = l ++ [u; with_content (fst (afterChunks cur mid chunks
                                                (full0, st0))) p].
Proof.
  revert full0 st0 s0 p.
  induction chunks as [|c chunks IH]; intros full0 st0 s0 p Hf Hm Hl Hu Hp Hc.
  - cbn. exists s0. split; [done|]. now rewrite <- Hc, with_content_same.
  - unfold afterChunks. cbn [fold_left]. unfold onChunkCallback at 2 4.
    cbn [fst snd]. fold (afterChunks cur mid chunks).
    set (st1 := setSessions (map (chunkUpdate cur mid (full0 +:+ c))) st0).
    destruct (IH (full0 +:+ c) st1 (chunkUpdate cur mid (full0 +:+ c) s0)
                 (with_content (full0 +:+ c) p)) as (s' & Hf' & Hm');
      try done.
    + subst st1. rewrite sessions_setSessions.
      rewrite find_session_map by apply s_id_updateMessage. now rewrite Hf.
    + unfold chunkUpdate, updateMessage.
      rewrite (find_session_current _ _ _ Hf). cbn [messages with_messages].
      rewrite Hm. now apply update_placeholder_only.
    + exists s'. split; [exact Hf'|]. now rewrite Hm'.
Qed.

(** C10. If the request of a send throws, what the send did before is
    kept: the current session ends with the user message followed by the
    placeholder, the placeholder still has [isStreaming = true] and holds
    the text accumulated before the failure (all chunks delivered before
    the stream threw; nothing when the single call of the image path
    threw), and the loading flag is cleared. *)
Theorem failed_request_keeps_partial_state
  ai text atts uid mid t1 t2 t3 st s error :
  truthy_ostring (currentSessionId st) = true ->
  find_session (currentSessionId st) (sessions st) = Some s ->
  uid <> mid -> ~ In mid (map m_id (messages s)) ->
  outcome (sendRun ai text atts uid mid t1 t2 t3 st) = Rejected error ->
  let st' := handleSendMessage ai text atts uid mid t1 t2 t3 st in
  let partial := fst (final (sendRun ai text atts uid mid t1 t2 t3 st)) in
  let conversation := messages s ++ [userMessageOf uid text atts t1] in
  isLoading st' = false /\
  sessions st' = sessions (snd (final (sendRun ai text atts uid mid t1 t2 t3 st)))
  /\
  (exists s',
     find_session (currentSessionId st) (sessions st') = Some s' /\
     messages s' = messages s ++ [userMessageOf uid text atts t1;
                                  placeholderMessage mid t2 partial true]) /\
  partial
  = if hasImages conversation then ""
    else String.concat ""
           (delivered (yielded (models_generateContentStream ai
              (streamRequest conversation (language st) (isKidModeOf st))))).
Proof.
  intros Hcur Hf Hne Hfresh Hout st' partial conversation.
  subst st'. rewrite handleSendMessage_live by exact Hcur. rewrite Hout.
  split; [reflexivity|]. split; [reflexivity|].
  change (sessions (setIsLoading false ?x)) with (sessions x).
  destruct (sendStart_messages text atts uid mid t1 t2 t3 st s Hf)
    as (s1 & Hf1 & Hm1).
  destruct (hasImages conversation) eqn:Himg.
  - (* image path: the call threw before any callback *)
    assert (Hfinal : final (sendRun ai text atts uid mid t1 t2 t3 st)
                     = ("", sendStart text atts uid mid t1 t2 t3 st)).
    { revert Hout. unfold sendRun, generateStreamingResponse.
      rewrite (currentMessagesOf_found _ _ _ Hf).
      fold conversation. rewrite Himg.
      destruct (models_generateContent ai _); [discriminate|done]. }
    subst partial. rewrite Hfinal. cbn [fst snd]. split; [|reflexivity].
    exists s1. split; [exact Hf1|exact Hm1].
  - (* streaming path: the stream threw after some chunks *)
    destruct (sendRun_stream ai text atts uid mid t1 t2 t3 st s Hf Himg)
      as [Hfinal _].
    fold conversation in Hfinal.
    subst partial. rewrite Hfinal.
    destruct (afterChunks_messages (currentSessionId st) mid
                (delivered (yielded (models_generateContentStream ai
                   (streamRequest conversation (language st) (isKidModeOf st)))))
                "" (sendStart text atts uid mid t1 t2 t3 st) s1 (messages s)
                (userMessageOf uid text atts t1) (initialModelMessageOf mid t2)
                Hf1 Hm1 Hfresh Hne eq_refl eq_refl) as (s' & Hf' & Hm').
    split.
    + exists s'. split; [exact Hf'|exact Hm'].
    + destruct (afterChunks_last (currentSessionId st) mid
                  (delivered (yielded (models_generateContentStream ai
                     (streamRequest conversation (language st) (isKidModeOf st)))))
                  "" (sendStart text atts uid mid t1 t2 t3 st)
                  (initialModelMessageOf mid t2)
                  (last_message_sendStart text atts uid mid t1 t2 t3 st s Hf)
                  eq_refl eq_refl) as [Hfst _].
      exact Hfst.
Qed.

End Failure.

(* --------------------------------------------------------------------- *)
(** ** Persistence of the session list                                    *)
(* --------------------------------------------------------------------- *)

Section Persistence.
Context {env : Env}.

Lemma stored_setSessions f st :
  stored_sessions (setSessions f st)
  = match f (sessions st) with
    | [] => stored_sessions st
    | _ :: _ => Some (JSON_stringify (f (sessions st)))
    end.
Proof.
  unfold setSessions, persistSessions, stored_sessions.
  cbn [sessions with_sessions].
  destruct (f (sessions st)) as [|s ss]; [done|].
  cbn [length Nat.ltb Nat.leb localStorage setItem].
  apply lookup_insert_eq.
Qed.

Lemma persisted_setSessions f st : persisted (setSessions f st).
Proof.
  unfold persisted. rewrite sessions_setSessions, stored_setSessions.
  now destruct (f (sessions st)).
Qed.

Lemma stored_setSessions_empty f st :
  sessions (setSessions f st) = [] ->
  stored_sessions (setSessions f st) = stored_sessions st.
Proof.
  rewrite sessions_setSessions, stored_setSessions. now intros ->.
Qed.

Lemma follow_up_id : follow_up (fun st => st).
Proof. intros st. auto. Qed.

Lemma follow_up_setIsLoading b : follow_up (setIsLoading b).
Proof. intros st. unfold persisted. cbn. auto. Qed.

Lemma follow_up_with_currentSessionId c : follow_up (with_currentSessionId c).
Proof. intros st. unfold persisted. cbn. auto. Qed.

Lemma follow_up_with_language l : follow_up (with_language l).
Proof. intros st. unfold persisted. cbn. auto. Qed.

Lemma follow_up_compose g1 g2 :
  follow_up g1 -> follow_up g2 -> follow_up (fun st => g2 (g1 st)).
Proof.
  intros H1 H2 st.
  destruct (H1 st) as (P1 & L1 & E1), (H2 (g1 st)) as (P2 & L2 & E2).
  split; [auto|]. split; [congruence|].
  intros He. rewrite E2 by exact He. apply E1.
  apply length_zero_iff_nil. rewrite <- L2. now rewrite He.
Qed.

Lemma follow_up_map_setSessions (f : ChatSession -> ChatSession) :
  follow_up (setSessions (map f)).
Proof.
  intros st. split; [intros _; apply persisted_setSessions|].
  split; [now rewrite sessions_setSessions, length_map|].
  apply stored_setSessions_empty.
Qed.

Lemma follow_up_setItem_lang v : follow_up (setItem "gemini_lang" v).
Proof.
  intros st. unfold persisted, stored_sessions. cbn [sessions localStorage setItem].
  rewrite lookup_insert_ne by discriminate. auto.
Qed.

Lemma follow_up_languageEffect : follow_up languageEffect.
Proof.
  intros st. unfold languageEffect.
  destruct (negb (truthy_ostring (currentSessionId st))).
  - apply follow_up_id.
  - exact (follow_up_compose _ _ (follow_up_map_setSessions _)
             (follow_up_setItem_lang _) st).
Qed.

Lemma follow_up_setCurrentSessionId c : follow_up (setCurrentSessionId c).
Proof.
  intros st. unfold setCurrentSessionId. destruct (decide _).
  - apply follow_up_id.
  - exact (follow_up_compose _ _ (follow_up_with_currentSessionId c)
             follow_up_languageEffect st).
Qed.

Lemma follow_up_setLanguage l : follow_up (setLanguage l).
Proof.
  intros st. unfold setLanguage. destruct (decide _).
  - apply follow_up_id.
  - exact (follow_up_compose _ _ (follow_up_with_language l)
             follow_up_languageEffect st).
Qed.

(** A [setSessions] and what follows it leave the list persisted. *)
Lemma mutation_then_follow_up g f st :
  follow_up g ->
  persisted (g (setSessions f st)) /\
  (sessions (g (setSessions f st)) = [] ->
   stored_sessions (g (setSessions f st)) = stored_sessions st).
Proof.
  intros Hg. destruct (Hg (setSessions f st)) as (P & L & E).
  split; [apply P, persisted_setSessions|].
  intros He. rewrite E by exact He. apply stored_setSessions_empty.
  apply length_zero_iff_nil. rewrite <- L. now rewrite He.
Qed.

Lemma mutation_persisted (a : Action) (st : AppState) :
  is_mutation a = true ->
  persisted (step st a) /\
  (sessions (step st a) = [] ->
   stored_sessions (step st a) = stored_sessions st).
Proof.
  intros Hmut.
  destruct a; try discriminate Hmut; cbn [step];
    try (exact (mutation_then_follow_up (fun st => st) _ st follow_up_id)).
  - (* createNewSession *)
    unfold createNewSession.
    exact (mutation_then_follow_up _ _ st (follow_up_setCurrentSessionId _)).
  - (* deleteSession *)
    unfold deleteSession. destruct (decide _).
    + exact (mutation_then_follow_up _ _ st (follow_up_setCurrentSessionId _)).
    + exact (mutation_then_follow_up (fun st => st) _ st follow_up_id).
Qed.

(** The other actions keep a persisted list persisted. *)
Lemma persisted_step (a : Action) (st : AppState) :
  persisted st -> persisted (step st a).
Proof.
  intros Hp. destruct (is_mutation a) eqn:Hmut.
  - exact (proj1 (mutation_persisted a st Hmut)).
  - destruct a; try discriminate Hmut; cbn [step].
    + now apply follow_up_setCurrentSessionId.
    + now apply follow_up_setLanguage.
    + now apply follow_up_setIsLoading.
Qed.

(** The effect on the language and the current session either does
    nothing or maps an update over the sessions and stores the language. *)
Lemma languageEffect_cases st :
  languageEffect st = st \/
  languageEffect st
  = setItem "gemini_lang" (lang_code (language st))
      (setSessions (map (welcomeUpdate (language st) (currentSessionId st))) st).
Proof.
  unfold languageEffect.
  destruct (negb (truthy_ostring (currentSessionId st))); auto.
Qed.

Lemma languageEffect_persisted st :
  sessions (languageEffect st) <> sessions st ->
  persisted (languageEffect st) /\
  (sessions (languageEffect st) = [] ->
   stored_sessions (languageEffect st) = stored_sessions st).
Proof.
  destruct (languageEffect_cases st) as [-> | ->]; [done|]. intros _.
  exact (mutation_then_follow_up _ _ st (follow_up_setItem_lang _)).
Qed.

(** C2, as the code has it.  After every mutation of the session store
    (creating or deleting a session, toggling kid mode, appending or
    updating messages, a completed live turn, and any other action that
    changes the session list) a non-empty session list is the one stored
    under the sessions key; when the mutation leaves the list empty,
    nothing is written and the key keeps its value. *)
Theorem sessions_persisted_unless_empty (a : Action) (st : AppState) :
  is_mutation a = true \/ sessions (step st a) <> sessions st ->
  (sessions (step st a) <> [] ->
   stored_sessions (step st a) = Some (JSON_stringify (sessions (step st a))))
  /\
  (sessions (step st a) = [] ->
   stored_sessions (step st a) = stored_sessions st).
Proof.
  intros [Hmut | Hchanged]; [exact (mutation_persisted a st Hmut)|].
  destruct (is_mutation a) eqn:Hmut; [exact (mutation_persisted a st Hmut)|].
  destruct a; try discriminate Hmut; cbn [step] in *.
  - (* selecting a session re-ran the effect on the current session *)
    unfold selectSession, setCurrentSessionId in *.
    destruct (decide _); [done|].
    exact (languageEffect_persisted _ Hchanged).
  - (* changing the language re-ran the same effect *)
    unfold setLanguage in *. destruct (decide _); [done|].
    exact (languageEffect_persisted _ Hchanged).
  - (* the loading flag *)
    now elim Hchanged.
Qed.

End Persistence.

(* --------------------------------------------------------------------- *)
(** ** Uniqueness of identifiers                                          *)
(* --------------------------------------------------------------------- *)

Section Uniqueness.
Context {env : Env}.

Lemma inb_false u l : inb u l = false <-> ~ In u l.
Proof.
  unfold inb. split.
  - intros Hf Hin. apply not_true_iff_false in Hf. apply Hf.
    apply existsb_exists. exists u. split; [exact Hin|apply String.eqb_refl].
  - intros Hn. apply not_true_iff_false. intros Ht.
    apply existsb_exists in Ht as (x & Hx & Heq).
    apply String.eqb_eq in Heq. now subst.
Qed.

Lemma map_s_id_map f ss :
  (forall s, s_id (f s) = s_id s) -> map s_id (map f ss) = map s_id ss.
Proof.
  intros Hid. induction ss as [|s ss IH]; [done|].
  cbn [map]. now rewrite Hid, IH.
Qed.

Lemma unique_sessions_map f ss :
  (forall s, s_id (f s) = s_id s) ->
  (forall s, In s ss -> NoDup (map m_id (messages s)) ->
             NoDup (map m_id (messages (f s)))) ->
  unique_sessions ss -> unique_sessions (map f ss).
Proof.
  intros Hid Hm [Hs Hall]. split.
  - now rewrite map_s_id_map.
  - rewrite Forall_forall in Hall. apply Forall_forall.
    intros s' Hin. apply list_elem_of_In, in_map_iff in Hin as (s & <- & Hin).
    apply Hm; [exact Hin|]. apply Hall. now apply list_elem_of_In.
Qed.

Lemma unique_sessions_keeps f ss :
  keeps_ids f -> unique_sessions ss -> unique_sessions (map f ss).
Proof.
  intros Hk. apply unique_sessions_map.
  - intros s. apply Hk.
  - intros s _ Hn. now rewrite (proj2 (Hk s)).
Qed.

Lemma keeps_ids_id : keeps_ids (fun s => s).
Proof. intros s. auto. Qed.

Lemma keeps_ids_welcomeUpdate lang cur : keeps_ids (welcomeUpdate lang cur).
Proof.
  intros s. unfold welcomeUpdate.
  destruct (messages s) as [|m0 [|m1 ms]] eqn:E; rewrite ?E; auto.
  destruct (is_current cur s); rewrite ?E; auto.
Qed.

Lemma keeps_ids_toggleKidUpdate lang cur : keeps_ids (toggleKidUpdate lang cur).
Proof.
  intros s. unfold toggleKidUpdate.
  destruct (is_current cur s); [|auto]. cbn [s_id messages].
  split; [done|]. now destruct (messages s) as [|m0 [|m1 ms]].
Qed.

Lemma keeps_ids_updateMessage cur mid g :
  (forall m, m_id (g m) = m_id m) -> keeps_ids (updateMessage cur mid g).
Proof.
  intros Hg s. unfold updateMessage.
  destruct (is_current cur s); [|auto]. cbn [s_id messages with_messages].
  split; [done|].
  induction (messages s) as [|m ms IH]; [done|]. cbn [map].
  rewrite IH. f_equal. destruct (String.eqb _ _); [apply Hg|done].
Qed.

Lemma NoDup_append_two (l : list string) u p :
  NoDup l -> ~ In u l -> ~ In p l -> u <> p -> NoDup (l ++ [u; p]).
Proof.
  intros Hl Hu Hp Hne. apply NoDup_app. split; [exact Hl|]. split.
  - intros x Hx Hin. apply list_elem_of_In in Hx, Hin.
    destruct Hin as [<- | [<- | []]]; contradiction.
  - apply NoDup_cons. split.
    + intros Hin. apply list_elem_of_In in Hin. destruct Hin as [E | []].
      now symmetry in E.
    + apply NoDup_cons. split; [|constructor].
      intros Hin. now apply list_elem_of_In in Hin.
Qed.

Lemma unique_sessions_filter (p : ChatSession -> bool) ss :
  unique_sessions ss -> unique_sessions (List.filter p ss).
Proof.
  intros [Hs Hall]. split.
  - induction ss as [|s ss IH]; [done|]. cbn [List.filter map] in *.
    apply NoDup_cons in Hs as [Hnin Hs].
    apply Forall_cons in Hall as [_ Hall].
    destruct (p s); [|now apply IH].
    cbn [map]. apply NoDup_cons. split; [|now apply IH].
    intros Hin. apply Hnin.
    apply list_elem_of_In, in_map_iff in Hin as (s' & E & Hin).
    apply filter_In in Hin as [Hin _].
    apply list_elem_of_In, in_map_iff. now exists s'.
  - rewrite Forall_forall in Hall. apply Forall_forall.
    intros s Hin. apply list_elem_of_In, filter_In in Hin as [Hin _].
    apply Hall. now apply list_elem_of_In.
Qed.

(** Not in the store, so in no session's message ids and no session id. *)
Lemma fresh_not_session u st :
  inb u (all_ids st) = false -> ~ In u (map s_id (sessions st)).
Proof.
  rewrite inb_false. unfold all_ids. intros Hn Hin. apply Hn, in_or_app.
  now left.
Qed.

Lemma fresh_not_message u st s :
  inb u (all_ids st) = false -> In s (sessions st) ->
  ~ In u (map m_id (messages s)).
Proof.
  rewrite inb_false. unfold all_ids. intros Hn Hs Hin. apply Hn, in_or_app.
  right. apply in_concat. exists (map m_id (messages s)). split; [|exact Hin].
  apply in_map_iff. now exists s.
Qed.

(** The sessions after the effect on the language and the current
    session: an updater that changes no identifier was mapped over them. *)
Lemma sessions_languageEffect st :
  exists f, keeps_ids f /\ sessions (languageEffect st) = map f (sessions st).
Proof.
  unfold languageEffect.
  destruct (negb (truthy_ostring (currentSessionId st))).
  - exists (fun s => s). split; [apply keeps_ids_id|]. now rewrite map_id.
  - eexists. split; [apply keeps_ids_welcomeUpdate|].
    cbn [sessions setItem]. now rewrite sessions_setSessions.
Qed.

Lemma sessions_setCurrentSessionId c st :
  exists f, keeps_ids f /\
            sessions (setCurrentSessionId c st) = map f (sessions st).
Proof.
  unfold setCurrentSessionId. destruct (decide _).
  - exists (fun s => s). split; [apply keeps_ids_id|]. now rewrite map_id.
  - apply (sessions_languageEffect (with_currentSessionId c st)).
Qed.

Lemma sessions_setLanguage l st :
  exists f, keeps_ids f /\ sessions (setLanguage l st) = map f (sessions st).
Proof.
  unfold setLanguage. destruct (decide _).
  - exists (fun s => s). split; [apply keeps_ids_id|]. now rewrite map_id.
  - apply (sessions_languageEffect (with_language l st)).
Qed.

Lemma ids_unique_sessions st : ids_unique st <-> unique_sessions (sessions st).
Proof. reflexivity. Qed.

Lemma unique_after_keeps st st' f :
  keeps_ids f -> sessions st' = map f (sessions st) ->
  ids_unique st -> ids_unique st'.
Proof.
  intros Hk Hs Hu. apply ids_unique_sessions. rewrite Hs.
  now apply unique_sessions_keeps.
Qed.

(** Appending two fresh, distinct message ids to the sessions an updater
    addresses keeps the list unique. *)
Lemma unique_after_append st (f : ChatSession -> ChatSession) u p :
  (forall s, s_id (f s) = s_id s) ->
  (forall s, map m_id (messages (f s)) = map m_id (messages s) \/
             map m_id (messages (f s)) = map m_id (messages s) ++ [u; p]) ->
  fresh_draws_ids st [u; p] ->
  ids_unique st -> unique_sessions (map f (sessions st)).
Proof.
  intros Hid Hm (Hne & Hu & Hp) Huniq.
  apply unique_sessions_map; [exact Hid| |exact Huniq].
  intros s Hin Hn. destruct (Hm s) as [-> | ->]; [exact Hn|].
  apply NoDup_append_two; [exact Hn| | |exact Hne].
  - now apply (fresh_not_message u st s).
  - now apply (fresh_not_message p st s).
Qed.

Lemma fresh_draws_two st a u p :
  fresh_draws st a = true -> drawn a = [u; p] -> fresh_draws_ids st [u; p].
Proof.
  unfold fresh_draws, fresh_draws_ids. intros Hf E. rewrite E in Hf.
  revert Hf. cbn.
  rewrite !andb_true_iff, !negb_true_iff, orb_false_r.
  intros [[Hne _] (Hu & Hp & _)]. split; [|done].
  now apply String.eqb_neq in Hne.
Qed.

(** One action keeps the identifiers unique, given fresh draws. *)
Lemma ids_unique_step st a :
  ids_unique st -> fresh_draws st a = true -> ids_unique (step st a).
Proof.
  intros Hu Hfresh. destruct a; cbn [step].
  - (* createNewSession *)
    pose proof (fresh_draws_two st _ sid mid Hfresh eq_refl) as (_ & Hsid & _).
    unfold createNewSession.
    destruct (sessions_setCurrentSessionId (Some sid)
                (setSessions (fun prev =>
                   {| s_id := sid;
                      title := newConversation (translations (language st));
                      messages := [ {| m_id := mid; role := MODEL;
                                       content := welcome (translations (language st));
                                       timestamp := tm; attachments := None;
                                       generatedImage := None;
                                       isStreaming := None |} ];
                      updatedAt := tu; isKidMode := Some false |} :: prev) st))
      as (f & Hk & Hs).
    eapply unique_after_keeps; [exact Hk|exact Hs|].
    apply ids_unique_sessions. rewrite sessions_setSessions.
    destruct Hu as [Hs1 Hs2]. split; cbn [map s_id messages m_id].
    + apply NoDup_cons. split; [|exact Hs1].
      intros Hin. apply list_elem_of_In in Hin.
      now apply (fresh_not_session sid st).
    + apply Forall_cons. split; [|exact Hs2].
      apply NoDup_cons. split; [|constructor]. intros Hin.
      now apply list_elem_of_In in Hin.
  - (* deleteSession *)
    unfold deleteSession.
    assert (Hdel : ids_unique
              (setSessions (fun _ =>
                 List.filter (fun s => negb (String.eqb (s_id s) id))
                             (sessions st)) st)).
    { apply ids_unique_sessions. rewrite sessions_setSessions.
      now apply unique_sessions_filter. }
    destruct (decide _); [|exact Hdel].
    destruct (sessions_setCurrentSessionId
                (match List.filter (fun s => negb (String.eqb (s_id s) id))
                                   (sessions st) with
                 | s0 :: _ => Some (s_id s0)
                 | [] => None
                 end)
                (setSessions (fun _ =>
                   List.filter (fun s => negb (String.eqb (s_id s) id))
                               (sessions st)) st))
      as (f & Hk & Hs).
    eapply unique_after_keeps; [exact Hk|exact Hs|exact Hdel].
  - (* toggleKidMode *)
    eapply unique_after_keeps;
      [apply keeps_ids_toggleKidUpdate|apply sessions_setSessions|exact Hu].
  - (* selectSession *)
    destruct (sessions_setCurrentSessionId (Some id) st) as (f & Hk & Hs).
    eapply unique_after_keeps; [exact Hk|exact Hs|exact Hu].
  - (* setLanguage *)
    destruct (sessions_setLanguage l st) as (f & Hk & Hs).
    eapply unique_after_keeps; [exact Hk|exact Hs|exact Hu].
  - (* the start of a send *)
    apply ids_unique_sessions. unfold sendStart.
    change (sessions (setIsLoading true ?x)) with (sessions x).
    rewrite sessions_setSessions.
    apply (unique_after_append st _ uid mid);
      [apply s_id_appendUpdate| |exact (fresh_draws_two st _ uid mid Hfresh eq_refl)
      |exact Hu].
    intros s. unfold appendUpdate. destruct (is_current _ s); [right|now left].
    cbn [messages]. now rewrite map_app.
  - (* chunk *)
    eapply unique_after_keeps;
      [apply (keeps_ids_updateMessage cur mid)|apply sessions_setSessions
      |exact Hu]. done.
  - (* image *)
    eapply unique_after_keeps;
      [apply (keeps_ids_updateMessage cur mid)|apply sessions_setSessions
      |exact Hu]. done.
  - (* done *)
    eapply unique_after_keeps;
      [apply (keeps_ids_updateMessage cur mid)|apply sessions_setSessions
      |exact Hu]. done.
  - (* setIsLoading *)
    exact Hu.
  - (* live turn *)
    apply ids_unique_sessions. unfold appendTurn. rewrite sessions_setSessions.
    apply (unique_after_append st _ uid mid);
      [apply s_id_turnUpdate| |exact (fresh_draws_two st _ uid mid Hfresh eq_refl)
      |exact Hu].
    intros s. unfold turnUpdate. destruct (is_current _ s); [right|now left].
    cbn [messages]. now rewrite map_app.
Qed.

Lemma ids_unique_run (st : AppState) (l : list Action) :
  ids_unique st -> fresh_run st l = true -> ids_unique (run st l).
Proof.
  revert st. induction l as [|a l IH]; intros st Hu Hfresh; [exact Hu|].
  cbn [fresh_run] in Hfresh. apply andb_true_iff in Hfresh as [Ha Hl].
  cbn [run fold_left]. apply IH; [|exact Hl].
  now apply ids_unique_step.
Qed.

(** C3. Uniqueness of identifiers is an invariant of the store: from a
    state in which session ids are pairwise distinct and the message ids of
    each session are pairwise distinct, every run of the store's operations
    (create, delete, select, toggle kid mode, change language, the updates
    of a send in any interleaving, live turn completion) in which
    [crypto.randomUUID] keeps its contract ends in such a state. *)
Theorem ids_unique_invariant (st : AppState) (l : list Action) :
  ids_unique st -> fresh_run st l = true -> ids_unique (run st l).
Proof.
  revert st. induction l as [|a l IH]; intros st Hu Hfresh.
  - exact Hu.
  - cbn [fresh_run] in Hfresh. apply andb_true_iff in Hfresh as [Ha Hl].
    change (run st (a :: l)) with (run (step st a) l).
    apply IH; [|exact Hl].
    destruct Hu as [Hsessions Hmessages].
    apply ids_unique_step; [split; assumption|exact Ha].
Qed.

End Uniqueness.

(* --------------------------------------------------------------------- *)
(** ** The streaming client and its callbacks                             *)
(* --------------------------------------------------------------------- *)

Section ServiceFacts.
Context {env : Env}.

Lemma forwardPart_fold {S} (onChunk : string -> S -> S)
  (onImage : option string -> option string -> S -> S) parts (s : S) :
  fold_left (forwardPart onChunk (Some onImage)) parts s
  = fold_left (apply_callback onChunk onImage)
              (concat (map part_callbacks parts)) s.
Proof.
  revert s. induction parts as [|part parts IH]; intros s; [done|].
  cbn [fold_left map concat]. rewrite fold_left_app, IH. f_equal.
  unfold forwardPart, part_callbacks.
  destruct (part_text part) as [text|], (part_inlineData part) as [b|];
    try destruct (truthy_string text); reflexivity.
Qed.

Lemma record_callbacks (cbs log : list Callback) :
  fold_left (apply_callback (fun text log => log ++ [ChunkCallback text])
               (fun imageData mime log => log ++ [ImageCallback imageData mime]))
            cbs log
  = log ++ cbs.
Proof.
  revert log. induction cbs as [|c cbs IH]; intros log.
  - now rewrite app_nil_r.
  - cbn [fold_left]. rewrite IH. destruct c; cbn; now rewrite <- app_assoc.
Qed.

Lemma chunk_callbacks_fold {S} (onChunk : string -> S -> S)
  (onImage : option string -> option string -> S -> S) texts (s : S) :
  fold_left (fun s c => onChunk c s) texts s
  = fold_left (apply_callback onChunk onImage) (map ChunkCallback texts) s.
Proof.
  revert s. induction texts as [|t texts IH]; intros s; [done|].
  cbn [fold_left map]. apply IH.
Qed.

(** The callbacks of a run, by path. *)
Lemma callbacks_image ai messages language isKidMode :
  hasImages messages = true ->
  sdk_calls (callbacks ai messages language isKidMode)
  = [GenerateContent (imageRequest messages language isKidMode)] /\
  final (callbacks ai messages language isKidMode)
  = match models_generateContent ai (imageRequest messages language isKidMode) with
    | Resolved result =>
        match first_candidate_parts result with
        | Some parts => concat (map part_callbacks parts)
        | None => []
        end
    | Rejected _ => []
    end.
Proof.
  intros Himg. unfold callbacks, generateStreamingResponse. rewrite Himg.
  destruct (models_generateContent ai _) as [result|error];
    cbn [sdk_calls final]; [|done]. split; [done|].
  destruct (first_candidate_parts result) as [parts|]; [|done].
  now rewrite forwardPart_fold, record_callbacks.
Qed.

Lemma callbacks_stream ai messages language isKidMode :
  hasImages messages = false ->
  sdk_calls (callbacks ai messages language isKidMode)
  = [GenerateContentStream (streamRequest messages language isKidMode)] /\
  final (callbacks ai messages language isKidMode)
  = map ChunkCallback
      (delivered (yielded (models_generateContentStream ai
                             (streamRequest messages language isKidMode)))).
Proof.
  intros Himg. unfold callbacks, generateStreamingResponse. rewrite Himg.
  rewrite forwardChunk_fold. cbn [sdk_calls final]. split; [done|].
  rewrite (chunk_callbacks_fold _
             (fun imageData mime log => log ++ [ImageCallback imageData mime])).
  now rewrite record_callbacks.
Qed.

(** Whatever the callbacks of the caller, a run of the client applies them
    to the recorded calls, in order, makes the same SDK calls and settles
    the same way. *)
Lemma generateStreamingResponse_callbacks {S} (onChunk : string -> S -> S)
  (onImage : option string -> option string -> S -> S)
  ai messages language isKidMode (s : S) :
  let run := generateStreamingResponse onChunk (Some onImage)
               ai messages language isKidMode s in
  let trace := callbacks ai messages language isKidMode in
  final run = fold_left (apply_callback onChunk onImage) (final trace) s /\
  outcome run = outcome trace /\
  sdk_calls run = sdk_calls trace.
Proof.
  cbv zeta. destruct (hasImages messages) eqn:Himg.
  - destruct (callbacks_image ai messages language isKidMode Himg) as [_ ->].
    unfold callbacks, generateStreamingResponse. rewrite Himg.
    destruct (models_generateContent ai _) as [result|error];
      cbn [sdk_calls final outcome]; [|done].
    split; [|done].
    destruct (first_candidate_parts result) as [parts|]; [|done].
    apply forwardPart_fold.
  - destruct (callbacks_stream ai messages language isKidMode Himg) as [_ ->].
    unfold callbacks, generateStreamingResponse. rewrite Himg.
    rewrite !forwardChunk_fold. cbn [sdk_calls final outcome].
    split; [|done]. apply chunk_callbacks_fold.
Qed.

(** The callbacks of [handleSendMessage] are the store updates
    [callback_actions] lists. *)
Lemma send_callbacks_run cur mid cbs full st :
  snd (fold_left (apply_callback (onChunkCallback cur mid)
                                 (onImageCallback cur mid)) cbs (full, st))
  = run st (callback_actions cur mid full cbs).
Proof.
  revert full st. induction cbs as [|c cbs IH]; intros full st; [done|].
  destruct c as [text|imageData mime];
    cbn [fold_left apply_callback callback_actions run].
  - unfold onChunkCallback at 2. cbn [fst snd]. rewrite IH. reflexivity.
  - unfold onImageCallback at 2. cbn [fst snd]. rewrite IH. reflexivity.
Qed.

(** [handleSendMessage] is the run of its store updates. *)
Lemma handleSendMessage_run ai text atts uid mid t1 t2 t3 st :
  truthy_ostring (currentSessionId st) = true ->
  handleSendMessage ai text atts uid mid t1 t2 t3 st
  = run st (send_actions ai text atts uid mid t1 t2 t3 st).
Proof.
  intros Hcur. rewrite handleSendMessage_live by exact Hcur.
  unfold send_actions, run. rewrite !fold_left_app. cbn [fold_left step].
  destruct (generateStreamingResponse_callbacks
              (onChunkCallback (currentSessionId st) mid)
              (onImageCallback (currentSessionId st) mid)
              ai (currentMessagesOf st (userMessageOf uid text atts t1))
              (language st) (isKidModeOf st)
              ("", sendStart text atts uid mid t1 t2 t3 st))
    as (Hfinal & Hout & _).
  fold (sendRun ai text atts uid mid t1 t2 t3 st) in Hfinal, Hout.
  rewrite Hfinal, Hout, send_callbacks_run. unfold run.
  now destruct (outcome (callbacks _ _ _ _)).
Qed.

End ServiceFacts.

Section PathSelection.
Context {env : Env}.

Lemma hasImages_spec messages :
  hasImages messages = true <->
  exists m a atts, In m messages /\ attachments m = Some (a :: atts).
Proof.
  unfold hasImages. rewrite existsb_exists. split.
  - intros (m & Hin & Hm). unfold hasAttachments in Hm.
    destruct (attachments m) as [[|a atts]|] eqn:E; try discriminate.
    now exists m, a, atts.
  - intros (m & a & atts & Hin & Hm). exists m. split; [exact Hin|].
    unfold hasAttachments. now rewrite Hm.
Qed.

Lemma last_message_imageUpdate cur mid imageData mime full st m :
  last_message cur (sessions st) = Some m -> m_id m = mid ->
  last_message cur
    (sessions (snd (onImageCallback cur mid imageData mime (full, st))))
  = Some (with_generatedImage
            {| image_data := imageData; image_mimeType := mime |} m).
Proof.
  intros Hl Hid. unfold onImageCallback. cbn [fst snd].
  rewrite sessions_setSessions. now apply last_message_updateMessage.
Qed.

(** C6, as the code has it.  The client selects its SDK path by
    attachments.  When some message of the conversation has at least one
    attachment it makes a single [generateContent] call with the image
    model and forwards, part by part of the first candidate, every
    non-empty text to the chunk callback and every inline-data part to the
    image callback, which stores it as the [generatedImage] of the model
    message.  When no message has an attachment it makes a single
    [generateContentStream] call with the text model and forwards the
    non-empty texts of the chunks. *)
Theorem client_selects_path_by_attachments ai messages language isKidMode :
  let trace := callbacks ai messages language isKidMode in
  (hasImages messages = true <->
   exists m a atts, In m messages /\ attachments m = Some (a :: atts)) /\
  (hasImages messages = true ->
   sdk_calls trace = [GenerateContent (imageRequest messages language isKidMode)]
   /\ model (imageRequest messages language isKidMode) = "gemini-2.5-flash-image"
   /\ forall result parts,
        models_generateContent ai (imageRequest messages language isKidMode)
        = Resolved result ->
        first_candidate_parts result = Some parts ->
        final trace = concat (map part_callbacks parts)) /\
  (hasImages messages = false ->
   sdk_calls trace
   = [GenerateContentStream (streamRequest messages language isKidMode)]
   /\ model (streamRequest messages language isKidMode) = "gemini-3-flash-preview"
   /\ final trace
      = map ChunkCallback
          (delivered (yielded (models_generateContentStream ai
                                 (streamRequest messages language isKidMode)))))
  /\
  (forall cur mid imageData mime full st m,
     last_message cur (sessions st) = Some m -> m_id m = mid ->
     last_message cur
       (sessions (snd (onImageCallback cur mid imageData mime (full, st))))
     = Some (with_generatedImage
               {| image_data := imageData; image_mimeType := mime |} m)).
Proof.
  cbv zeta. split; [apply hasImages_spec|]. split; [|split].
  - intros Himg.
    destruct (callbacks_image ai messages language isKidMode Himg) as [Hc Hf].
    split; [exact Hc|]. split; [cbn; now rewrite Himg|].
    intros result parts Hr Hp. now rewrite Hf, Hr, Hp.
  - intros Himg.
    destruct (callbacks_stream ai messages language isKidMode Himg) as [Hc Hf].
    split; [exact Hc|]. split; [cbn; now rewrite Himg|]. exact Hf.
  - intros. now apply last_message_imageUpdate.
Qed.

(** A send in a store that holds the current session and whose draws are
    fresh keeps the identifiers unique. *)
Lemma ids_unique_handleSendMessage ai text atts uid mid t1 t2 t3 st :
  ids_unique st ->
  fresh_draws st (ASendStart text atts uid mid t1 t2 t3) = true ->
  ids_unique (handleSendMessage ai text atts uid mid t1 t2 t3 st).
Proof.
  intros Hu Hfresh.
  destruct (truthy_ostring (currentSessionId st)) eqn:Hcur.
  - rewrite handleSendMessage_run by exact Hcur.
    apply ids_unique_run; [exact Hu|].
    unfold send_actions. cbn [app fresh_run]. rewrite Hfresh. cbn [andb].
    generalize (step st (ASendStart text atts uid mid t1 t2 t3)) as st1.
    generalize (outcome (callbacks ai
      (currentMessagesOf st (userMessageOf uid text atts t1))
      (language st) (isKidModeOf st))) as o.
    generalize "" as full.
    induction (final (callbacks ai
      (currentMessagesOf st (userMessageOf uid text atts t1))
      (language st) (isKidModeOf st))) as [|c cbs IH]; intros full o st1.
    + now destruct o.
    + destruct c; cbn [callback_actions app fresh_run]; apply IH.
  - unfold handleSendMessage. now rewrite Hcur.
Qed.

End PathSelection.
(* --------------------------------------------------------------------- *)
(** ** The live session: playback                                         *)
(* --------------------------------------------------------------------- *)

Section LiveFacts.
Context {T : Type} {clock : AudioClock T} {laws : AudioClockLaws T} {env : Env}.

Lemma sequential_weaken (c c1 : T) l :
  t_le c c1 -> sequential c1 l -> sequential c l.
Proof.
  destruct l as [|[s d] l]; [done|]. cbn [sequential].
  intros Hc [Hs Hl]. split; [|exact Hl]. exact (t_le_trans _ _ _ Hc Hs).
Qed.

Lemma sequential_no_overlap (c : T) l : sequential c l -> no_overlap l.
Proof.
  revert c. induction l as [|[s d] l IH]; intros c Hseq i s1 d1 s2 d2 Hi HSi.
  - discriminate Hi.
  - destruct Hseq as [_ Hl]. destruct i as [|i].
    + cbn in Hi, HSi. injection Hi as -> ->.
      destruct l as [|[s' d'] l]; [discriminate HSi|].
      cbn in HSi. injection HSi as -> ->. exact (proj1 Hl).
    + exact (IH _ Hl i s1 d1 s2 d2 Hi HSi).
Qed.

Lemma scheduled_nil (c c' : T) : t_le c c' -> scheduled c [] c'.
Proof. intros Hc. now repeat split. Qed.

Lemma scheduled_compose_nil (c c1 c2 : T) l :
  t_le c c1 -> scheduled c1 l c2 -> scheduled c l c2.
Proof.
  intros Hc (Hs & He & Hl). split; [|split].
  - exact (sequential_weaken _ _ _ Hc Hs).
  - destruct l as [|[s d] l]; [|exact He].
    cbn [end_of] in *. exact (t_le_trans _ _ _ Hc He).
  - exact (t_le_trans _ _ _ Hc Hl).
Qed.

Lemma scheduled_compose_one (c c2 s : T) n l :
  t_le c s -> scheduled (t_add s (frames_duration n)) l c2 ->
  scheduled c ((s, frames_duration n) :: l) c2.
Proof.
  intros Hc (Hs & He & Hl). split; [|split].
  - split; [exact Hc|exact Hs].
  - exact He.
  - apply (t_le_trans _ _ _ Hc).
    exact (t_le_trans _ _ _ (t_add_duration s n) Hl).
Qed.

End LiveFacts.

Section HandlerFacts.
Context {T : Type} {clock : AudioClock T} {env : Env}.

Lemma handleTurnComplete_audio cur message uid mid t1 t2 t3
  (s : LiveRefs T * AppState) :
  let r' := fst (handleTurnComplete cur message uid mid t1 t2 t3 s) in
  nextStartTime r' = nextStartTime (fst s) /\
  started r' = started (fst s) /\
  audioSources r' = audioSources (fst s) /\
  stopped r' = stopped (fst s).
Proof.
  cbv zeta. unfold handleTurnComplete.
  destruct (turnComplete message); [|done].
  now destruct (truthy_string _ || truthy_string _).
Qed.

(** Lines 230-244 on a message that reports no interruption leave the
    playback as it is. *)
Lemma onmessage_rest_audio cur (e : LiveEvent T) (s : LiveRefs T * AppState) :
  interrupted (ev_message e) = false ->
  let r' := fst (onmessage_rest cur e s) in
  nextStartTime r' = nextStartTime (fst s) /\
  started r' = started (fst s) /\
  audioSources r' = audioSources (fst s) /\
  stopped r' = stopped (fst s).
Proof.
  intros Hint. cbv zeta. unfold onmessage_rest.
  destruct (handleTurnComplete_audio cur (ev_message e) (ev_uid e) (ev_mid e)
              (ev_t1 e) (ev_t2 e) (ev_t3 e)
              (handleInterrupted (ev_message e) (fst s), snd s))
    as (-> & -> & -> & ->).
  unfold handleInterrupted. now rewrite Hint.
Qed.

(** Lines 230-244 never change the record of started sources. *)
Lemma onmessage_rest_started cur (e : LiveEvent T) (s : LiveRefs T * AppState) :
  started (fst (onmessage_rest cur e s)) = started (fst s).
Proof.
  unfold onmessage_rest.
  destruct (handleTurnComplete_audio cur (ev_message e) (ev_uid e) (ev_mid e)
              (ev_t1 e) (ev_t2 e) (ev_t3 e)
              (handleInterrupted (ev_message e) (fst s), snd s))
    as (_ & -> & _).
  unfold handleInterrupted. now destruct (interrupted (ev_message e)).
Qed.

(** The handler up to its [await]: what it waits with is the buffer of the
    audio of its message. *)
Lemma onmessage_begin_progress cur (e : LiveEvent T) (s : LiveRefs T * AppState) :
  match snd (onmessage_begin cur e s) with
  | Awaiting buffer => awaited e = Some buffer
  | _ => awaited e = None
  end.
Proof.
  unfold onmessage_begin, awaited.
  destruct (audioData (ev_message e)) as [audio|]; [|done].
  destruct (truthy_ostring audio); [|done].
  now destruct (_ ≫= decodeAudioData).
Qed.

(** A handler that waits or has failed has changed the accumulators and
    the cursor at most. *)
Lemma onmessage_begin_kept cur (e : LiveEvent T) (s : LiveRefs T * AppState) :
  snd (onmessage_begin cur e s) <> Finished ->
  let s' := fst (onmessage_begin cur e s) in
  snd s' = snd s /\
  started (fst s') = started (fst s) /\
  audioSources (fst s') = audioSources (fst s) /\
  stopped (fst s') = stopped (fst s) /\
  transcription_input (fst s')
  = transcription_input (accumulate (ev_message e) (fst s)) /\
  transcription_output (fst s')
  = transcription_output (accumulate (ev_message e) (fst s)) /\
  (nextStartTime (fst s') = nextStartTime (fst s) \/
   nextStartTime (fst s')
   = t_max (nextStartTime (fst s)) (ev_currentTime e)).
Proof.
  unfold onmessage_begin.
  destruct (audioData (ev_message e)) as [audio|]; cbn [fst snd].
  - destruct (truthy_ostring audio).
    + destruct (_ ≫= decodeAudioData); cbn [fst snd]; intros _;
        repeat split; try done; now right.
    + cbn [snd]. intros Hn. now elim Hn.
  - intros _. repeat split; try done. now left.
Qed.

End HandlerFacts.

Section ScheduleFacts.
Context {T : Type} {clock : AudioClock T} {laws : AudioClockLaws T} {env : Env}.

(** A delivery that reports no interruption starts nothing and does not
    move the cursor back; its handler joins the queue if it waits. *)
Lemma livestep_deliver cur (st : LiveState T) (e : LiveEvent T) :
  interrupted (ev_message e) = false ->
  let st' := livestep cur st (LDeliver e) in
  started (fst (live st')) = started (fst (live st)) /\
  t_le (nextStartTime (fst (live st))) (nextStartTime (fst (live st'))) /\
  map sus_buffer (suspended st')
  = map sus_buffer (suspended st) ++ option_list (awaited e) /\
  (Forall (fun h => interrupted (ev_message (sus_event h)) = false) (suspended st) ->
   Forall (fun h => interrupted (ev_message (sus_event h)) = false) (suspended st')).
Proof.
  intros Hint. cbv zeta. cbn [livestep].
  pose proof (onmessage_begin_progress cur e (live st)) as Hp.
  unfold onmessage_begin in *.
  destruct (audioData (ev_message e)) as [audio|]; cbn [fst snd] in *.
  - destruct (truthy_ostring audio).
    + destruct (_ ≫= decodeAudioData) as [buffer|];
        cbn [fst snd live suspended] in *; rewrite Hp.
      * split; [done|]. split; [apply t_max_l|].
        split; [now rewrite map_app|].
        intros Hq. apply Forall_app. split; [exact Hq|].
        constructor; [exact Hint|constructor].
      * split; [done|]. split; [apply t_max_l|].
        split; [now rewrite app_nil_r|done].
    + cbn [fst snd live suspended] in *. rewrite Hp.
      destruct (onmessage_rest_audio cur e
                  (accumulate (ev_message e) (fst (live st)), snd (live st)) Hint)
        as (-> & -> & _).
      split; [done|]. split; [apply t_le_refl|].
      split; [now rewrite app_nil_r|done].
  - cbn [fst snd live suspended] in *. rewrite Hp.
    split; [done|]. split; [apply t_le_refl|].
    split; [now rewrite app_nil_r|done].
Qed.

(** The resumption of a handler whose message reports no interruption
    starts its buffer at the cursor and moves the cursor to its end. *)
Lemma livestep_resume cur (st : LiveState T) h rest :
  suspended st = h :: rest ->
  interrupted (ev_message (sus_event h)) = false ->
  let st' := livestep cur st LResume in
  started (fst (live st'))
  = started (fst (live st))
    ++ [(nextStartTime (fst (live st)),
         frames_duration (frameCount (sus_buffer h)))] /\
  nextStartTime (fst (live st'))
  = t_add (nextStartTime (fst (live st)))
          (frames_duration (frameCount (sus_buffer h))) /\
  suspended st' = rest.
Proof.
  intros Hq Hint. cbv zeta. cbn [livestep]. rewrite Hq.
  cbn [live suspended]. unfold onmessage_resume.
  destruct (onmessage_rest_audio cur (sus_event h)
              (scheduleBuffer (sus_buffer h) (fst (live st)), snd (live st)) Hint)
    as (-> & -> & _).
  done.
Qed.

(** A run that delivers no interruption. *)
Lemma liverun_scheduled cur (steps : list (LiveStep T)) (st : LiveState T) :
  Forall no_interruption steps ->
  Forall (fun h => interrupted (ev_message (sus_event h)) = false) (suspended st) ->
  Forall (fun h => interrupted (ev_message (sus_event h)) = false) (suspended (liverun cur steps st)) /\
  exists new,
    started (fst (live (liverun cur steps st)))
    = started (fst (live st)) ++ new /\
    map snd new
    = map (fun buffer => frames_duration (frameCount buffer))
          (resumed (map sus_buffer (suspended st)) steps) /\
    scheduled (nextStartTime (fst (live st))) new
              (nextStartTime (fst (live (liverun cur steps st)))).
Proof.
  intros Hall. revert st.
  induction Hall as [|x steps Hx _ IH]; intros st Hq.
  - split; [exact Hq|]. exists []. split; [now rewrite app_nil_r|].
    split; [done|]. apply scheduled_nil, t_le_refl.
  - unfold liverun. cbn [fold_left]. fold (liverun cur steps (livestep cur st x)).
    destruct x as [e| |source|].
    + destruct (livestep_deliver cur st e Hx) as (Hst & Hle & Hqueue & Hkeep).
      destruct (IH _ (Hkeep Hq)) as (Hq' & new & Hnew & Hdur & Hsch).
      split; [exact Hq'|]. exists new.
      split; [now rewrite Hnew, Hst|].
      split; [cbn [resumed]; now rewrite <- Hqueue|].
      exact (scheduled_compose_nil _ _ _ _ Hle Hsch).
    + destruct (suspended st) as [|h rest] eqn:Hs.
      * assert (Hsame : livestep cur st LResume = st)
          by (cbn [livestep]; now rewrite Hs).
        rewrite Hsame.
        destruct (IH st) as (Hq' & new & Hnew & Hdur & Hsch);
          [now rewrite Hs|].
        split; [exact Hq'|]. exists new. split; [exact Hnew|].
        split; [|exact Hsch]. rewrite Hs in Hdur. exact Hdur.
      * apply Forall_cons in Hq as [Hh Hrest].
        destruct (livestep_resume cur st h rest Hs Hh) as (Hst & Hnext & Hqueue).
        destruct (IH (livestep cur st LResume)) as (Hq' & new & Hnew & Hdur & Hsch);
          [now rewrite Hqueue|].
        split; [exact Hq'|].
        exists ((nextStartTime (fst (live st)),
                 frames_duration (frameCount (sus_buffer h))) :: new).
        split; [now rewrite Hnew, Hst, <- app_assoc|].
        split.
        -- cbn [map snd resumed]. f_equal. now rewrite Hdur, Hqueue.
        -- rewrite Hnext in Hsch.
           apply scheduled_compose_one; [apply t_le_refl|exact Hsch].
    + destruct (IH (livestep cur st (LEnded source)) Hq)
        as (Hq' & new & Hnew & Hdur & Hsch).
      split; [exact Hq'|]. exists new.
      split; [exact Hnew|]. split; [exact Hdur|exact Hsch].
    + destruct (IH (livestep cur st LStop) Hq)
        as (Hq' & new & Hnew & Hdur & Hsch).
      split; [exact Hq'|]. exists new.
      split; [exact Hnew|]. split; [exact Hdur|exact Hsch].
Qed.

Lemma liverun_app cur (steps1 steps2 : list (LiveStep T)) (st : LiveState T) :
  liverun cur (steps1 ++ steps2) st
  = liverun cur steps2 (liverun cur steps1 st).
Proof. apply fold_left_app. Qed.

(** Messages handled one by one are a run in which every delivery is
    followed by the resumption of its own handler. *)
Lemma onevent_livestep cur (s : LiveRefs T * AppState) (e : LiveEvent T) :
  liverun cur [LDeliver e; LResume] {| live := s; suspended := [] |}
  = {| live := onevent cur s e; suspended := [] |}.
Proof.
  unfold liverun, onevent. cbn [fold_left livestep live suspended].
  destruct (onmessage_begin cur e s) as [s' [|buffer|]]; reflexivity.
Qed.

Lemma onmessages_liverun cur (evs : list (LiveEvent T))
  (s : LiveRefs T * AppState) :
  liverun cur (one_by_one evs) {| live := s; suspended := [] |}
  = {| live := onmessages cur evs s; suspended := [] |}.
Proof.
  revert s. induction evs as [|e evs IH]; intros s; [done|].
  unfold one_by_one. cbn [flat_map].
  change ([LDeliver e; LResume] ++ ?l) with ([LDeliver e; LResume] ++ l).
  rewrite liverun_app, onevent_livestep. exact (IH (onevent cur s e)).
Qed.

Lemma resumed_one_by_one (evs : list (LiveEvent T)) :
  resumed [] (one_by_one evs) = omap awaited evs.
Proof.
  induction evs as [|e evs IH]; [done|].
  unfold one_by_one. cbn [flat_map app resumed omap]. fold (one_by_one evs).
  destruct (awaited e) as [buffer|] eqn:Ha; unfold option_list;
    cbn [option_rect omap list_omap]; rewrite Ha; now rewrite IH.
Qed.

Lemma no_interruption_one_by_one (evs : list (LiveEvent T)) :
  Forall (fun e => interrupted (ev_message e) = false) evs ->
  Forall no_interruption (one_by_one evs).
Proof.
  induction 1 as [|e evs He _ IH]; [constructor|].
  unfold one_by_one. cbn [flat_map app].
  constructor; [exact He|]. constructor; [exact I|exact IH].
Qed.

End ScheduleFacts.

(* --------------------------------------------------------------------- *)
(** ** The input component                                                *)
(* --------------------------------------------------------------------- *)

Section InputFacts.

Lemma read_loop files (acc : list Attachment) :
  fold_left (fun acc file => acc ++ [readAttachment file]) files acc
  = acc ++ map readAttachment files.
Proof.
  revert acc. induction files as [|f files IH]; intros acc.
  - now rewrite app_nil_r.
  - cbn [fold_left map]. rewrite IH. now rewrite <- app_assoc.
Qed.

Lemma split_on_no_comma (s : string) :
  has_comma s = false -> split_on ","%char s = [s].
Proof.
  unfold has_comma. induction s as [|c s IH]; [done|].
  cbn [list_ascii_of_string existsb split_on].
  rewrite orb_false_iff. intros [Hc Hs].
  rewrite Ascii.eqb_sym in Hc. rewrite Hc, (IH Hs). reflexivity.
Qed.

Lemma split_on_header (header rest : string) :
  has_comma header = false ->
  split_on ","%char (header +:+ String ","%char rest)
  = header :: split_on ","%char rest.
Proof.
  unfold has_comma. induction header as [|c header IH].
  - intros _. reflexivity.
  - cbn [list_ascii_of_string existsb]. rewrite orb_false_iff. intros [Hc Hs].
    rewrite string_app_cons. cbn [split_on].
    rewrite Ascii.eqb_sym in Hc. rewrite Hc, (IH Hs). reflexivity.
Qed.

(** The data of an attachment is what follows the comma of the data URL. *)
Lemma readAttachment_payload file header payload :
  file_result file = header +:+ "," +:+ payload ->
  has_comma header = false -> has_comma payload = false ->
  data (readAttachment file) = Some payload.
Proof.
  intros Hr Hh Hp. unfold readAttachment. cbn [data]. rewrite Hr.
  change ("," +:+ payload) with (String ","%char payload).
  rewrite (split_on_header _ _ Hh), (split_on_no_comma _ Hp). reflexivity.
Qed.

Lemma has_comma_app (a b : string) :
  has_comma (a +:+ b) = has_comma a || has_comma b.
Proof.
  unfold has_comma. induction a as [|c a IH]; [done|].
  rewrite string_app_cons. cbn [list_ascii_of_string existsb].
  now rewrite IH, orb_assoc.
Qed.

(** For a data URL as [readAsDataURL] builds it, the data of the
    attachment is the base64 text of the file's content. *)
Lemma readAttachment_base64 file mediaType content :
  file_result file = readAsDataURL mediaType content ->
  has_comma mediaType = false ->
  data (readAttachment file) = Some (Base64.btoa content).
Proof.
  intros Hr Hm.
  apply (readAttachment_payload file ("data:" +:+ mediaType +:+ ";base64")).
  - rewrite Hr. unfold readAsDataURL.
    change (";base64," +:+ ?x) with (";base64" +:+ "," +:+ x).
    now rewrite !string_app_assoc.
  - rewrite !has_comma_app, Hm. reflexivity.
  - apply btoa_no_comma.
Qed.

Lemma trimStart_shape (s : string) :
  (is_blank s = true /\ trimStart s = "") \/
  (is_blank s = false /\
   exists c r, trimStart s = String c r /\ is_js_whitespace c = false).
Proof.
  unfold is_blank. induction s as [|c s IH]; [now left|].
  cbn [list_ascii_of_string forallb trimStart].
  destruct (is_js_whitespace c) eqn:Hc; cbn [andb]; [exact IH|].
  right. split; [done|]. now exists c, s.
Qed.

Lemma trimEnd_blank (s : string) : trimEnd s = "" <-> is_blank s = true.
Proof.
  unfold is_blank. induction s as [|c s IH]; [done|].
  cbn [list_ascii_of_string forallb trimEnd]. rewrite andb_true_iff, <- IH.
  destruct (trimEnd s) as [|c' r'].
  - destruct (is_js_whitespace c); split; try done.
    intros [? _]; discriminate.
  - split; [discriminate|]. intros [_ ?]; discriminate.
Qed.

(** The trimmed text is empty exactly when the text is blank. *)
Lemma trim_blank (s : string) : trim s = "" <-> is_blank s = true.
Proof.
  unfold trim. rewrite trimEnd_blank.
  destruct (trimStart_shape s) as [[Hb ->] | (Hb & c & r & -> & Hc)].
  - now rewrite Hb.
  - rewrite Hb. unfold is_blank. cbn [list_ascii_of_string forallb].
    now rewrite Hc.
Qed.

(** C7. The input component converts every selected file into an inline
    payload: the attachments read from the files are appended, in selection
    order, after the existing ones, each with the file's type as its
    [mimeType] and what follows the comma of the file's data URL (the
    base64 text of the file's content, for a data URL as [readAsDataURL]
    builds it) as its [data]; a send is triggered exactly when the
    trimmed text is non-empty or at least one attachment exists, and no
    request is in flight; the send passes the text and the attachments and
    clears both. *)
Theorem input_builds_attachments_and_sends
  (files : list File) (isLoading : bool) (st : InputState) :
  handleFileChange (Some files) st
  = {| ci_text := ci_text st;
       ci_attachments := ci_attachments st ++ map readAttachment files |} /\
  (forall file, mimeType (readAttachment file) = file_type file) /\
  (forall file header payload,
     file_result file = header +:+ "," +:+ payload ->
     has_comma header = false -> has_comma payload = false ->
     data (readAttachment file) = Some payload) /\
  (forall file mediaType content,
     file_result file = readAsDataURL mediaType content ->
     has_comma mediaType = false ->
     data (readAttachment file) = Some (Base64.btoa content)) /\
  (trim (ci_text st) = "" <-> is_blank (ci_text st) = true) /\
  (snd (handleSend isLoading st) <> None <->
   (trim (ci_text st) <> "" \/ ci_attachments st <> []) /\ isLoading = false) /\
  (snd (handleSend isLoading st) <> None ->
   snd (handleSend isLoading st) = Some (ci_text st, ci_attachments st) /\
   fst (handleSend isLoading st) = {| ci_text := ""; ci_attachments := [] |}) /\
  (snd (handleSend isLoading st) = None -> fst (handleSend isLoading st) = st).
Proof.
  split; [|split; [|split; [|split; [|split; [|split; [|split]]]]]].
  - unfold handleFileChange. now rewrite read_loop.
  - reflexivity.
  - apply readAttachment_payload.
  - apply readAttachment_base64.
  - apply trim_blank.
  - unfold handleSend.
    destruct (truthy_string (trim (ci_text st))) eqn:Ht;
      destruct (ci_attachments st) as [|a atts] eqn:Ha;
      destruct isLoading; cbn; split; try done;
      try (intros [_ ?]; discriminate);
      try (apply truthy_string_false in Ht; intros [[?|?] _]; contradiction);
      try (intros _; split; [|done]);
      try (left; now apply truthy_string_true);
      try (right; discriminate).
  - unfold handleSend. destruct (_ && _); cbn; [done|]. intros Hn. now elim Hn.
  - unfold handleSend. destruct (_ && _); cbn; [discriminate|done].
Qed.

End InputFacts.

(* --------------------------------------------------------------------- *)
(** ** The message renderer                                               *)
(* --------------------------------------------------------------------- *)

Lemma view_of_readProps (host : Host) (p1 p2 : ChatMessageProps) :
  readProps p1 = readProps p2 ->
  fst (ChatMessage host p1) = fst (ChatMessage host p2).
Proof.
  unfold readProps. intros E.
  injection E as Huser Hcontent Hstreaming Hatts Himage Htime Hkid Hpic.
  unfold ChatMessage. cbn [fst].
  rewrite Huser, Hcontent, Hstreaming, Htime, Hkid.
  assert (Ha : match attachments (message p1) with
               | Some atts =>
                   map (fun att => dataURL (Some (mimeType att)) (data att)) atts
               | None => []
               end
               = match attachments (message p2) with
                 | Some atts =>
                     map (fun att => dataURL (Some (mimeType att)) (data att)) atts
                 | None => []
                 end).
  { transitivity (map (fun p : string * option string =>
                         dataURL (Some (fst p)) (snd p))
                      (map (fun att => (mimeType att, data att))
                           (default [] (attachments (message p1))))).
    - rewrite map_map. now destruct (attachments (message p1)).
    - rewrite Hatts, map_map. now destruct (attachments (message p2)). }
  rewrite Ha.
  assert (Hg : match generatedImage (message p1) with
               | Some g => Some (dataURL (image_mimeType g) (image_data g))
               | None => None
               end
               = match generatedImage (message p2) with
                 | Some g => Some (dataURL (image_mimeType g) (image_data g))
                 | None => None
                 end).
  { destruct (generatedImage (message p1)) as [g1|],
             (generatedImage (message p2)) as [g2|];
      cbn [option_map] in Himage; try discriminate; [|done].
    injection Himage as Hm Hd. now rewrite Hm, Hd. }
  rewrite Hg.
  assert (Hdots : match generatedImage (message p1) with
                  | Some _ => "" | None => "..." end
                  = match generatedImage (message p2) with
                    | Some _ => "" | None => "..." end).
  { destruct (generatedImage (message p1)), (generatedImage (message p2));
      cbn [option_map] in Himage; try discriminate; done. }
  rewrite Hdots.
  rewrite Huser in Hpic. revert Hpic.
  destruct (bool_decide (role (message p2) = USER)); [|reflexivity].
  destruct (userProfilePic p1) as [pic1|], (userProfilePic p2) as [pic2|];
    try destruct (truthy_string pic1); try destruct (truthy_string pic2);
    intros Hpic; try discriminate Hpic; try reflexivity.
  now injection Hpic as ->.
Qed.

Lemma messageList_of_session (host : Host) (pic : option string)
  (st1 st2 : AppState) (s1 s2 : ChatSession) :
  find_session (currentSessionId st1) (sessions st1) = Some s1 ->
  find_session (currentSessionId st2) (sessions st2) = Some s2 ->
  messages s1 = messages s2 ->
  truthy_obool (isKidMode s1) = truthy_obool (isKidMode s2) ->
  messageList host pic st1 = messageList host pic st2.
Proof.
  intros H1 H2 Hm Hk. unfold messageList, isKidModeOf.
  now rewrite H1, H2, Hm, Hk.
Qed.

Lemma readProps_of_view (host : Host) (p1 p2 : ChatMessageProps) :
  fst (ChatMessage host p1) = fst (ChatMessage host p2) ->
  read_isUser (readProps p1) = read_isUser (readProps p2) /\
  read_streaming (readProps p1) = read_streaming (readProps p2) /\
  read_kid (readProps p1) = read_kid (readProps p2) /\
  read_picture (readProps p1) = read_picture (readProps p2) /\
  length (read_attachments (readProps p1))
  = length (read_attachments (readProps p2)) /\
  (read_content (readProps p1) <> "" -> read_content (readProps p2) <> "" ->
   read_content (readProps p1) = read_content (readProps p2)).
Proof.
  intros E.
  pose proof (f_equal v_userSide E) as Huser.
  pose proof (f_equal v_cursor E) as Hcursor.
  pose proof (f_equal v_kidText E) as Hkid.
  pose proof (f_equal v_avatar E) as Havatar.
  pose proof (f_equal (fun v => length (v_attachments v)) E) as Hlen.
  pose proof (f_equal v_text E) as Htext.
  unfold ChatMessage in Huser, Hcursor, Hkid, Havatar, Hlen, Htext.
  cbn [fst v_userSide v_cursor v_kidText v_avatar v_attachments v_text]
    in Huser, Hcursor, Hkid, Havatar, Hlen, Htext.
  unfold readProps.
  cbn [read_isUser read_streaming read_kid read_picture read_attachments
       read_content].
  split; [exact Huser|]. split; [exact Hcursor|]. split; [exact Hkid|].
  split; [|split].
  - rewrite <- Huser in Havatar |- *.
    destruct (bool_decide (role (message p1) = USER)); [|reflexivity].
    destruct (userProfilePic p1) as [pic1|], (userProfilePic p2) as [pic2|];
      try destruct (truthy_string pic1); try destruct (truthy_string pic2);
      try discriminate Havatar; try reflexivity.
    now injection Havatar as ->.
  - rewrite !length_map.
    destruct (attachments (message p1)), (attachments (message p2));
      now rewrite ?length_map in Hlen.
  - intros H1 H2. unfold or_else in Htext.
    apply truthy_string_true in H1, H2. now rewrite H1, H2 in Htext.
Qed.

(** C8, as the code has it.  What flows into the view.  Outside its props
    the renderer reads the host's formatting of the time stamp of the
    message (its locale and time zone), and nothing else: two hosts give
    the same view for the same props exactly when they format that time
    stamp the same, whatever their clocks and documents.  Of its props it
    reads what [readProps] lists and nothing else: not the id of the
    message, not the urls of the attachments, not the profile picture on a
    message of the model, not whether a play handler is given; and what it
    reads shows: two views that are the same come from props that agree on
    the side of the message, the streaming flag, the mode, the picture
    shown, the number of attachments and the text, when there is one.  Through
    the message list of the application the view of the current session
    does not depend on the rest of the store: not on the other sessions,
    the loading flag, the language or the storage.  Rendering leaves the
    host as it found it; the click on the download button is what writes,
    one download named after the clock, and it changes no view. *)
Theorem render_depends_on_props_and_time_format
  (h1 h2 : Host) (p1 p2 : ChatMessageProps) :
  (fst (ChatMessage h1 p1) = fst (ChatMessage h2 p1) <->
   toLocaleTimeString h1 (timestamp (message p1))
   = toLocaleTimeString h2 (timestamp (message p1))) /\
  (readProps p1 = readProps p2 ->
   (fst (ChatMessage h1 p1) = fst (ChatMessage h2 p2) <->
    toLocaleTimeString h1 (timestamp (message p1))
    = toLocaleTimeString h2 (timestamp (message p2)))) /\
  (fst (ChatMessage h1 p1) = fst (ChatMessage h1 p2) ->
   read_isUser (readProps p1) = read_isUser (readProps p2) /\
   read_streaming (readProps p1) = read_streaming (readProps p2) /\
   read_kid (readProps p1) = read_kid (readProps p2) /\
   read_picture (readProps p1) = read_picture (readProps p2) /\
   length (read_attachments (readProps p1))
   = length (read_attachments (readProps p2)) /\
   (read_content (readProps p1) <> "" -> read_content (readProps p2) <> "" ->
    read_content (readProps p1) = read_content (readProps p2))) /\
  (forall pic st1 st2 s1 s2,
     find_session (currentSessionId st1) (sessions st1) = Some s1 ->
     find_session (currentSessionId st2) (sessions st2) = Some s2 ->
     messages s1 = messages s2 ->
     truthy_obool (isKidMode s1) = truthy_obool (isKidMode s2) ->
     messageList h1 pic st1 = messageList h1 pic st2) /\
  snd (ChatMessage h1 p1) = h1 /\
  (forall imageData mime,
     downloads (downloadImage imageData mime h1)
     = downloads h1
       ++ [(dataURL mime imageData,
            "gemini-pulse-creation-" +:+ pretty (clock h1) +:+ ".png")] /\
     fst (ChatMessage (downloadImage imageData mime h1) p1)
     = fst (ChatMessage h1 p1)).
Proof.
  assert (Hhost : forall p,
    fst (ChatMessage h1 p) = fst (ChatMessage h2 p) <->
    toLocaleTimeString h1 (timestamp (message p))
    = toLocaleTimeString h2 (timestamp (message p))).
  { intros p. split.
    - intros E. exact (f_equal v_time E).
    - intros E. unfold ChatMessage. cbn [fst]. now rewrite E. }
  split; [apply Hhost|].
  split; [|split; [apply readProps_of_view|split; [|split; [reflexivity|]]]].
  - intros Hread.
    rewrite (view_of_readProps h1 p1 p2 Hread).
    replace (timestamp (message p1)) with (timestamp (message p2))
      by exact (eq_sym (f_equal read_timestamp Hread)).
    apply Hhost.
  - intros pic st1 st2 s1 s2. apply messageList_of_session.
  - intros imageData mime. split; reflexivity.
Qed.

(* --------------------------------------------------------------------- *)
(** ** What the store's operations keep                                   *)
(* --------------------------------------------------------------------- *)

Section MoreStoreFacts.
Context {env : Env}.

Lemma currentSessionId_languageEffect st :
  currentSessionId (languageEffect st) = currentSessionId st.
Proof.
  unfold languageEffect. destruct (negb _); [done|].
  cbn [currentSessionId setItem]. apply currentSessionId_setSessions.
Qed.

Lemma currentSessionId_setCurrentSessionId c st :
  currentSessionId (setCurrentSessionId c st) = c.
Proof.
  unfold setCurrentSessionId. destruct (decide _) as [->|_]; [done|].
  now rewrite currentSessionId_languageEffect.
Qed.

Lemma language_languageEffect st : language (languageEffect st) = language st.
Proof.
  unfold languageEffect. destruct (negb _); [done|].
  cbn [language setItem]. apply language_setSessions.
Qed.

Lemma language_setCurrentSessionId c st :
  language (setCurrentSessionId c st) = language st.
Proof.
  unfold setCurrentSessionId. destruct (decide _); [done|].
  now rewrite language_languageEffect.
Qed.

Lemma map_s_id_languageEffect st :
  map s_id (sessions (languageEffect st)) = map s_id (sessions st).
Proof.
  destruct (sessions_languageEffect st) as (f & Hk & ->).
  apply map_s_id_map. intros s. apply Hk.
Qed.

Lemma map_s_id_setCurrentSessionId c st :
  map s_id (sessions (setCurrentSessionId c st)) = map s_id (sessions st).
Proof.
  destruct (sessions_setCurrentSessionId c st) as (f & Hk & ->).
  apply map_s_id_map. intros s. apply Hk.
Qed.

Lemma map_s_id_filter id ss :
  map s_id (List.filter (fun s => negb (String.eqb (s_id s) id)) ss)
  = List.filter (fun i => negb (String.eqb i id)) (map s_id ss).
Proof.
  induction ss as [|s ss IH]; [done|]. cbn [List.filter map].
  destruct (negb _); cbn [map]; now rewrite IH.
Qed.

Lemma map_s_id_step (a : Action) (st : AppState) :
  map s_id (sessions (step st a))
  = match a with
    | ACreateNewSession sid _ _ _ => sid :: map s_id (sessions st)
    | ADeleteSession id =>
        List.filter (fun i => negb (String.eqb i id)) (map s_id (sessions st))
    | _ => map s_id (sessions st)
    end.
Proof.
  destruct a; cbn [step].
  - unfold createNewSession.
    now rewrite map_s_id_setCurrentSessionId, sessions_setSessions.
  - unfold deleteSession. destruct (decide _).
    + now rewrite map_s_id_setCurrentSessionId, sessions_setSessions,
        map_s_id_filter.
    + now rewrite sessions_setSessions, map_s_id_filter.
  - unfold toggleKidMode. rewrite sessions_setSessions.
    apply map_s_id_map, s_id_toggleKidUpdate.
  - apply map_s_id_setCurrentSessionId.
  - destruct (sessions_setLanguage l st) as (f & Hk & ->).
    apply map_s_id_map. intros s. apply Hk.
  - unfold sendStart. change (sessions (setIsLoading true ?x)) with (sessions x).
    rewrite sessions_setSessions. apply map_s_id_map, s_id_appendUpdate.
  - rewrite sessions_setSessions. apply map_s_id_map, s_id_updateMessage.
  - rewrite sessions_setSessions. apply map_s_id_map, s_id_updateMessage.
  - rewrite sessions_setSessions. apply map_s_id_map, s_id_updateMessage.
  - reflexivity.
  - unfold appendTurn. rewrite sessions_setSessions.
    apply map_s_id_map, s_id_turnUpdate.
Qed.

Lemma currentSessionId_step (a : Action) (st : AppState) :
  currentSessionId (step st a)
  = match a with
    | ACreateNewSession sid _ _ _ => Some sid
    | ADeleteSession id =>
        if decide (currentSessionId st = Some id)
        then head (List.filter (fun i => negb (String.eqb i id))
                               (map s_id (sessions st)))
        else currentSessionId st
    | ASelectSession id => Some id
    | _ => currentSessionId st
    end.
Proof.
  destruct a; cbn [step]; try apply currentSessionId_setSessions;
    try reflexivity.
  - apply currentSessionId_setCurrentSessionId.
  - unfold deleteSession. destruct (decide _).
    + rewrite currentSessionId_setCurrentSessionId, <- map_s_id_filter.
      now destruct (List.filter _ _).
    + apply currentSessionId_setSessions.
  - apply currentSessionId_setCurrentSessionId.
  - unfold setLanguage. destruct (decide _); [done|].
    now rewrite currentSessionId_languageEffect.
Qed.

Lemma in_filter_ids id i (ids : list string) :
  In i (List.filter (fun j => negb (String.eqb j id)) ids) <->
  In i ids /\ i <> id.
Proof.
  rewrite filter_In, negb_true_iff. now rewrite String.eqb_neq.
Qed.

Lemma current_valid_step (a : Action) (st : AppState) :
  current_valid st -> select_listed st a = true -> current_valid (step st a).
Proof.
  unfold current_valid. intros Hv Hsel.
  rewrite currentSessionId_step, map_s_id_step.
  destruct a; try exact Hv.
  - now left.
  - destruct (decide _) as [Hc|Hc].
    + destruct (List.filter _ _) as [|i ids]; [done|]. now left.
    + destruct (currentSessionId st) as [c|]; [|done].
      apply in_filter_ids. split; [exact Hv|]. congruence.
  - cbn in Hsel. unfold inb in Hsel. apply existsb_exists in Hsel.
    destruct Hsel as (x & Hx & Heq). apply String.eqb_eq in Heq. now subst.
Qed.

(** X1. The list of session ids changes only by creating a session, which
    puts the new id in front, and by deleting one, which removes the
    deleted id; every other operation keeps the sessions, by id, in the
    same order. *)
Theorem session_ids_change_only_by_create_and_delete
  (a : Action) (st : AppState) :
  map s_id (sessions (step st a))
  = match a with
    | ACreateNewSession sid _ _ _ => sid :: map s_id (sessions st)
    | ADeleteSession id =>
        List.filter (fun i => negb (String.eqb i id)) (map s_id (sessions st))
    | _ => map s_id (sessions st)
    end.
Proof. exact (map_s_id_step a st). Qed.

(** X2. The current session is always one of the list: in every run of the
    store's operations whose sidebar clicks select listed sessions, from a
    state where the current session (if any) is listed, the current
    session id is [null] or the id of a session of the list, so that the
    lookup of the current session finds it. *)
Theorem current_session_is_listed (st : AppState) (l : list Action) :
  current_valid st -> selects_listed st l = true ->
  forall c, currentSessionId (run st l) = Some c ->
            exists s, find_session (Some c) (sessions (run st l)) = Some s.
Proof.
  intros Hv Hsel.
  assert (Hrun : current_valid (run st l)).
  { revert st Hv Hsel. induction l as [|a l IH]; intros st Hv Hsel; [exact Hv|].
    cbn [selects_listed] in Hsel. apply andb_true_iff in Hsel as [Ha Hl].
    change (run st (a :: l)) with (run (step st a) l).
    apply IH; [|exact Hl]. now apply current_valid_step. }
  intros c Hc. unfold current_valid in Hrun. rewrite Hc in Hrun.
  apply in_map_iff in Hrun as (s & Hs & Hin).
  destruct (find_session (Some c) (sessions (run st l))) as [s'|] eqn:Hf;
    [now exists s'|].
  unfold find_session in Hf.
  pose proof (find_none _ _ Hf s Hin) as Hn. cbn in Hn.
  rewrite Hs, String.eqb_refl in Hn. discriminate.
Qed.

End MoreStoreFacts.

Section StoreInvariants.
Context {env : Env}.

Lemma lang_persisted_setSessions f st :
  lang_persisted st -> lang_persisted (setSessions f st).
Proof.
  unfold lang_persisted. rewrite currentSessionId_setSessions, language_setSessions.
  intros Hp Hc. unfold setSessions, persistSessions.
  destruct (0 <? _)%nat; cbn [localStorage setItem with_sessions]; [|auto].
  rewrite lookup_insert_ne by discriminate. auto.
Qed.

Lemma lang_persisted_languageEffect st : lang_persisted (languageEffect st).
Proof.
  unfold lang_persisted. rewrite currentSessionId_languageEffect.
  intros Hc. unfold languageEffect. rewrite Hc. cbn [negb localStorage setItem language].
  rewrite language_setSessions. apply lookup_insert_eq.
Qed.

Lemma lang_persisted_setCurrentSessionId c st :
  lang_persisted st -> lang_persisted (setCurrentSessionId c st).
Proof.
  intros Hp. unfold setCurrentSessionId. destruct (decide _); [exact Hp|].
  apply lang_persisted_languageEffect.
Qed.

Lemma lang_persisted_step (a : Action) (st : AppState) :
  lang_persisted st -> lang_persisted (step st a).
Proof.
  intros Hp. destruct a; cbn [step];
    try (now apply lang_persisted_setSessions).
  - unfold createNewSession.
    now apply lang_persisted_setCurrentSessionId, lang_persisted_setSessions.
  - unfold deleteSession. destruct (decide _).
    + now apply lang_persisted_setCurrentSessionId, lang_persisted_setSessions.
    + now apply lang_persisted_setSessions.
  - now apply lang_persisted_setCurrentSessionId.
  - unfold setLanguage. destruct (decide _); [exact Hp|].
    apply lang_persisted_languageEffect.
  - exact Hp.
Qed.

(** X3. Whenever a session is current, the language stored under the
    language key is the language of the interface: every run of the store's
    operations keeps this, and it holds on a first visit. *)
Theorem stored_language_follows_the_interface (st : AppState) (l : list Action) :
  lang_persisted st ->
  lang_persisted (run st l) /\ lang_persisted (run initialState l).
Proof.
  intros Hp.
  assert (Hrun : forall st0, lang_persisted st0 -> lang_persisted (run st0 l)).
  { induction l as [|a l IH]; intros st0 H0; [exact H0|].
    change (run st0 (a :: l)) with (run (step st0 a) l).
    now apply IH, lang_persisted_step. }
  split; [now apply Hrun|]. apply Hrun. intros Hc. discriminate Hc.
Qed.

Lemma welcomeUpdate_other lang c s :
  s_id s <> c -> welcomeUpdate lang (Some c) s = s.
Proof.
  intros Hne. unfold welcomeUpdate, is_current.
  apply String.eqb_neq in Hne. rewrite Hne.
  now destruct (messages s) as [|m0 [|m1 ms]].
Qed.

Lemma welcomeUpdate_long lang cur s :
  length (messages s) <> 1%nat -> welcomeUpdate lang cur s = s.
Proof.
  unfold welcomeUpdate. now destruct (messages s) as [|m0 [|m1 ms]].
Qed.

(** X4. Creating a session with an id no session has puts the new session,
    holding the greeting alone, in front of the list, leaves every existing
    session as it is, and makes the new session the current one. *)
Theorem createNewSession_prepends (sid mid : string) (tm tu : Z) (st : AppState) :
  ~ In sid (map s_id (sessions st)) ->
  sessions (createNewSession sid mid tm tu st)
  = newSessionOf (language st) sid mid tm tu :: sessions st /\
  currentSessionId (createNewSession sid mid tm tu st) = Some sid /\
  find_session (Some sid) (sessions (createNewSession sid mid tm tu st))
  = Some (newSessionOf (language st) sid mid tm tu).
Proof.
  intros Hfresh.
  assert (Hs : sessions (createNewSession sid mid tm tu st)
               = newSessionOf (language st) sid mid tm tu :: sessions st).
  { unfold createNewSession. fold (newSessionOf (language st) sid mid tm tu).
    cbn [s_id newSessionOf]. unfold setCurrentSessionId.
    destruct (decide _); [apply sessions_setSessions|].
    unfold languageEffect.
    destruct (negb _); [apply sessions_setSessions|].
    cbn [sessions setItem currentSessionId with_currentSessionId language].
    rewrite !sessions_setSessions.
    cbn [sessions with_currentSessionId]. rewrite sessions_setSessions.
    rewrite language_setSessions. cbn [map]. f_equal.
    - unfold welcomeUpdate, is_current, newSessionOf.
      cbn. now rewrite String.eqb_refl.
    - rewrite <- (map_id (sessions st)) at 2. apply map_ext_in.
      intros s Hin. apply welcomeUpdate_other. intros E. apply Hfresh.
      apply in_map_iff. now exists s. }
  split; [exact Hs|]. split.
  - unfold createNewSession. apply currentSessionId_setCurrentSessionId.
  - rewrite Hs. unfold find_session. cbn. now rewrite String.eqb_refl.
Qed.

Lemma filter_absent id ss :
  ~ In id (map s_id ss) ->
  List.filter (fun s => negb (String.eqb (s_id s) id)) ss = ss.
Proof.
  induction ss as [|s ss IH]; [done|]. cbn [map List.filter].
  intros Hn. apply not_in_cons in Hn as [Hne Hn].
  apply not_eq_sym, String.eqb_neq in Hne. rewrite Hne. cbn [negb].
  now rewrite IH.
Qed.

(** X5. Deleting a session: no session with the deleted id is left; if the
    deleted session was the current one, the first remaining session
    becomes current, or none when no session remains; otherwise the current
    session stays.  Deleting an id no session has leaves the list as it
    is. *)
Theorem deleteSession_selection (id : string) (st : AppState) :
  ~ In id (map s_id (sessions (deleteSession id st))) /\
  currentSessionId (deleteSession id st)
  = (if decide (currentSessionId st = Some id)
     then head (List.filter (fun i => negb (String.eqb i id))
                            (map s_id (sessions st)))
     else currentSessionId st) /\
  (~ In id (map s_id (sessions st)) ->
   currentSessionId st <> Some id ->
   sessions (deleteSession id st) = sessions st).
Proof.
  split; [|split].
  - pose proof (map_s_id_step (ADeleteSession id) st) as E.
    cbn [step] in E. rewrite E. intros Hin.
    apply in_filter_ids in Hin. now destruct Hin.
  - exact (currentSessionId_step (ADeleteSession id) st).
  - intros Habs Hcur. unfold deleteSession.
    destruct (decide _); [contradiction|].
    rewrite sessions_setSessions. now apply filter_absent.
Qed.

Lemma sessions_languageEffect_cases st :
  sessions (languageEffect st) = sessions st \/
  sessions (languageEffect st)
  = map (welcomeUpdate (language st) (currentSessionId st)) (sessions st).
Proof.
  destruct (languageEffect_cases st) as [-> | ->]; [now left|right].
  cbn [sessions setItem]. apply sessions_setSessions.
Qed.

Lemma In_languageEffect_long st s :
  length (messages s) <> 1%nat -> In s (sessions st) ->
  In s (sessions (languageEffect st)).
Proof.
  intros Hlen Hin.
  destruct (sessions_languageEffect_cases st) as [-> | ->]; [exact Hin|].
  rewrite <- (welcomeUpdate_long (language st) (currentSessionId st) s Hlen).
  now apply in_map.
Qed.

Lemma In_setCurrentSessionId_long c st s :
  length (messages s) <> 1%nat -> In s (sessions st) ->
  In s (sessions (setCurrentSessionId c st)).
Proof.
  intros Hlen Hin. unfold setCurrentSessionId. destruct (decide _); [exact Hin|].
  now apply In_languageEffect_long.
Qed.

(** X6. Navigation never alters a conversation: creating, selecting or
    deleting a session, changing the language or the loading flag leave
    every session that does not consist of a single message exactly as it
    is (unless it is the one deleted).  Only a session that holds one
    message, the greeting, can have it rewritten. *)
Theorem navigation_keeps_conversations (a : Action) (st : AppState) (s : ChatSession) :
  is_navigation a = true ->
  In s (sessions st) ->
  length (messages s) <> 1%nat ->
  a <> ADeleteSession (s_id s) ->
  In s (sessions (step st a)).
Proof.
  intros Hnav Hin Hlen Hdel.
  destruct a; try discriminate Hnav; cbn [step].
  - unfold createNewSession. apply In_setCurrentSessionId_long; [exact Hlen|].
    rewrite sessions_setSessions. now right.
  - assert (Hkept : In s (List.filter
                            (fun s0 => negb (String.eqb (s_id s0) id))
                            (sessions st))).
    { apply filter_In. split; [exact Hin|]. apply negb_true_iff.
      apply String.eqb_neq. intros E. apply Hdel. now rewrite E. }
    unfold deleteSession. destruct (decide _).
    + apply In_setCurrentSessionId_long; [exact Hlen|].
      now rewrite sessions_setSessions.
    + now rewrite sessions_setSessions.
  - now apply In_setCurrentSessionId_long.
  - unfold setLanguage. destruct (decide _); [exact Hin|].
    now apply In_languageEffect_long.
  - exact Hin.
Qed.

End StoreInvariants.

Section AppendOnly.
Context {env : Env}.

Lemma grown_refl s : grown s s.
Proof. split; [done|]. exists []. cbn. now rewrite app_nil_r. Qed.

Lemma grown_trans s1 s2 s3 : grown s1 s2 -> grown s2 s3 -> grown s1 s3.
Proof.
  intros [Hi1 (m1 & H1)] [Hi2 (m2 & H2)]. split; [congruence|].
  exists (m1 ++ m2). now rewrite H2, H1, map_app, app_assoc.
Qed.

Lemma grown_keeps f s : keeps_keys f -> grown s (f s).
Proof.
  intros Hk. destruct (Hk s) as [Hi Hm]. split; [exact Hi|].
  exists []. cbn. now rewrite app_nil_r.
Qed.

Lemma keeps_keys_welcomeUpdate lang cur : keeps_keys (welcomeUpdate lang cur).
Proof.
  intros s. unfold welcomeUpdate.
  destruct (messages s) as [|m0 [|m1 ms]] eqn:E; rewrite ?E; auto.
  destruct (is_current cur s); rewrite ?E; auto.
Qed.

Lemma keeps_keys_toggleKidUpdate lang cur : keeps_keys (toggleKidUpdate lang cur).
Proof.
  intros s. unfold toggleKidUpdate.
  destruct (is_current cur s); [|auto]. cbn [s_id messages].
  split; [done|]. now destruct (messages s) as [|m0 [|m1 ms]].
Qed.

Lemma keeps_keys_updateMessage cur mid g :
  (forall m, message_key (g m) = message_key m) ->
  keeps_keys (updateMessage cur mid g).
Proof.
  intros Hg s. unfold updateMessage.
  destruct (is_current cur s); [|auto]. cbn [s_id messages with_messages].
  split; [done|].
  induction (messages s) as [|m ms IH]; [done|]. cbn [map].
  rewrite IH. f_equal. destruct (String.eqb _ _); [apply Hg|done].
Qed.

Lemma grown_appendUpdate lang cur u p text now s :
  grown s (appendUpdate lang cur u p text now s).
Proof.
  unfold appendUpdate. destruct (is_current cur s); [|apply grown_refl].
  split; [done|]. exists [u; p]. cbn [messages]. apply map_app.
Qed.

Lemma grown_turnUpdate cur u p now s : grown s (turnUpdate cur u p now s).
Proof.
  unfold turnUpdate. destruct (is_current cur s); [|apply grown_refl].
  split; [done|]. exists [u; p]. cbn [messages]. apply map_app.
Qed.

Lemma grown_map (f : ChatSession -> ChatSession) ss s :
  (forall x, grown x (f x)) -> In s ss ->
  exists s', In s' (map f ss) /\ grown s s'.
Proof. intros Hf Hin. exists (f s). split; [now apply in_map|apply Hf]. Qed.

Lemma grown_setSessions_map (f : ChatSession -> ChatSession) st s :
  (forall x, grown x (f x)) -> In s (sessions st) ->
  exists s', In s' (sessions (setSessions (map f) st)) /\ grown s s'.
Proof. rewrite sessions_setSessions. apply grown_map. Qed.

Lemma grown_languageEffect st s :
  In s (sessions st) ->
  exists s', In s' (sessions (languageEffect st)) /\ grown s s'.
Proof.
  intros Hin.
  destruct (sessions_languageEffect_cases st) as [-> | ->].
  - exists s. split; [exact Hin|apply grown_refl].
  - apply grown_map; [|exact Hin].
    intros x. apply grown_keeps, keeps_keys_welcomeUpdate.
Qed.

Lemma grown_setCurrentSessionId c st s :
  In s (sessions st) ->
  exists s', In s' (sessions (setCurrentSessionId c st)) /\ grown s s'.
Proof.
  intros Hin. unfold setCurrentSessionId. destruct (decide _).
  - exists s. split; [exact Hin|apply grown_refl].
  - now apply grown_languageEffect.
Qed.

Lemma grown_step (a : Action) (st : AppState) (s : ChatSession) :
  In s (sessions st) -> a <> ADeleteSession (s_id s) ->
  exists s', In s' (sessions (step st a)) /\ grown s s'.
Proof.
  intros Hin Hdel. destruct a; cbn [step].
  - unfold createNewSession. apply grown_setCurrentSessionId.
    rewrite sessions_setSessions. now right.
  - assert (Hkept : In s (List.filter
                            (fun s0 => negb (String.eqb (s_id s0) id))
                            (sessions st))).
    { apply filter_In. split; [exact Hin|]. apply negb_true_iff.
      apply String.eqb_neq. intros E. apply Hdel. now rewrite E. }
    unfold deleteSession. destruct (decide _).
    + apply grown_setCurrentSessionId. now rewrite sessions_setSessions.
    + exists s. rewrite sessions_setSessions. split; [exact Hkept|apply grown_refl].
  - apply grown_setSessions_map; [|exact Hin].
    intros x. apply grown_keeps, keeps_keys_toggleKidUpdate.
  - now apply grown_setCurrentSessionId.
  - unfold setLanguage. destruct (decide _).
    + exists s. split; [exact Hin|apply grown_refl].
    + now apply grown_languageEffect.
  - unfold sendStart. change (sessions (setIsLoading true ?x)) with (sessions x).
    apply grown_setSessions_map; [|exact Hin]. intros x. apply grown_appendUpdate.
  - apply grown_setSessions_map; [|exact Hin].
    intros x. now apply grown_keeps, keeps_keys_updateMessage.
  - apply grown_setSessions_map; [|exact Hin].
    intros x. now apply grown_keeps, keeps_keys_updateMessage.
  - apply grown_setSessions_map; [|exact Hin].
    intros x. now apply grown_keeps, keeps_keys_updateMessage.
  - exists s. split; [exact Hin|apply grown_refl].
  - unfold appendTurn. apply grown_setSessions_map; [|exact Hin].
    intros x. apply grown_turnUpdate.
Qed.

(** X7. Messages are only ever appended: along every run of the store's
    operations that does not delete a session, that session stays in the
    list and keeps its messages, by id, role, time stamp and attachments,
    in the same order at the front of its message list; no operation
    removes, reorders or re-attributes a message. *)
Theorem messages_are_append_only (st : AppState) (l : list Action) (s : ChatSession) :
  In s (sessions st) ->
  Forall (fun a => a <> ADeleteSession (s_id s)) l ->
  exists s', In s' (sessions (run st l)) /\ grown s s'.
Proof.
  revert st s. induction l as [|a l IH]; intros st s Hin Hall.
  - exists s. split; [exact Hin|apply grown_refl].
  - apply Forall_cons in Hall as [Ha Hl].
    destruct (grown_step a st s Hin Ha) as (s1 & Hin1 & Hg1).
    change (run st (a :: l)) with (run (step st a) l).
    destruct (IH (step st a) s1 Hin1) as (s' & Hin' & Hg').
    + destruct Hg1 as [-> _]. exact Hl.
    + exists s'. split; [exact Hin'|]. exact (grown_trans _ _ _ Hg1 Hg').
Qed.

Lemma find_session_none_map cur (f : ChatSession -> ChatSession) ss :
  find_session cur ss = None ->
  (forall s, is_current cur s = false -> f s = s) ->
  map f ss = ss.
Proof.
  unfold find_session. intros Hn Hf.
  rewrite <- (map_id ss) at 2. apply map_ext_in. intros s Hin.
  apply Hf. exact (find_none _ _ Hn s Hin).
Qed.

(** X8. The kid-mode switch flips the mode of the interface when the
    current session is in the list: the session's flag becomes the
    opposite, its greeting (when it is the only message) becomes the
    greeting of the new mode, and longer message lists are untouched.  With
    no current session in the list it changes no session. *)
Theorem toggleKidMode_flips (st : AppState) :
  (forall s, find_session (currentSessionId st) (sessions st) = Some s ->
     isKidModeOf (toggleKidMode st) = negb (isKidModeOf st) /\
     exists s',
       find_session (currentSessionId st) (sessions (toggleKidMode st)) = Some s'
       /\ isKidMode s' = Some (negb (truthy_obool (isKidMode s)))
       /\ title s' = title s
       /\ (length (messages s) <> 1%nat -> messages s' = messages s)
       /\ (forall m0, messages s = [m0] ->
             messages s'
             = [with_content
                  (if negb (truthy_obool (isKidMode s))
                   then kidWelcome (translations (language st))
                   else welcome (translations (language st))) m0])) /\
  (find_session (currentSessionId st) (sessions st) = None ->
   sessions (toggleKidMode st) = sessions st).
Proof.
  split.
  - intros s Hf.
    assert (Hf' : find_session (currentSessionId st) (sessions (toggleKidMode st))
                  = Some (toggleKidUpdate (language st) (currentSessionId st) s)).
    { unfold toggleKidMode. rewrite sessions_setSessions.
      rewrite find_session_map by apply s_id_toggleKidUpdate. now rewrite Hf. }
    pose proof (find_session_current _ _ _ Hf) as Hc.
    split.
    + unfold isKidModeOf.
      replace (currentSessionId (toggleKidMode st)) with (currentSessionId st)
        by (symmetry; apply currentSessionId_setSessions).
      rewrite Hf', Hf. unfold toggleKidUpdate. now rewrite Hc.
    + eexists. split; [exact Hf'|]. unfold toggleKidUpdate. rewrite Hc.
      cbn [isKidMode title messages]. repeat split.
      * intros Hlen. now destruct (messages s) as [|m0 [|m1 ms]].
      * now intros m0 ->.
  - intros Hn. unfold toggleKidMode. rewrite sessions_setSessions.
    apply (find_session_none_map _ _ _ Hn).
    intros s Hc. unfold toggleKidUpdate. now rewrite Hc.
Qed.

End AppendOnly.

(* --------------------------------------------------------------------- *)
(** ** Sending: the wiring of the input, titles and the image model       *)
(* --------------------------------------------------------------------- *)

Section SendFacts.
Context {env : Env}.

Lemma handleSend_sendable isLoading input :
  is_blank (ci_text input) = false \/ ci_attachments input <> [] ->
  isLoading = false ->
  handleSend isLoading input
  = ({| ci_text := ""; ci_attachments := [] |},
     Some (ci_text input, ci_attachments input)).
Proof.
  intros Hs ->. unfold handleSend.
  assert (Ht : truthy_string (trim (ci_text input))
               || (0 <? length (ci_attachments input))%nat = true).
  { apply orb_true_iff. destruct Hs as [Hb | Ha].
    - left. apply truthy_string_true. intros E. apply trim_blank in E.
      congruence.
    - right. now destruct (ci_attachments input). }
  now rewrite Ht.
Qed.

(** X9. A send made while no session is current is lost: the input
    component clears its text and attachments, and the application keeps
    its state, storage included; nothing is appended and no request is
    made. *)
Theorem send_without_session_is_lost
  ai uid mid t1 t2 t3 (input : InputState) (st : AppState) :
  is_blank (ci_text input) = false \/ ci_attachments input <> [] ->
  isLoading st = false ->
  truthy_ostring (currentSessionId st) = false ->
  submit ai uid mid t1 t2 t3 (input, st)
  = ({| ci_text := ""; ci_attachments := [] |}, st).
Proof.
  intros Hs Hl Hc. unfold submit. cbn [fst snd].
  rewrite (handleSend_sendable _ _ Hs Hl).
  unfold handleSendMessage. now rewrite Hc.
Qed.

Lemma isLoading_callbacks cur mid full cbs st :
  isLoading (run st (callback_actions cur mid full cbs)) = isLoading st.
Proof.
  revert full st. induction cbs as [|c cbs IH]; intros full st; [done|].
  destruct c; cbn [callback_actions]; 
    change (run st (?a :: ?l)) with (run (step st a) l);
    rewrite IH; cbn [step]; apply isLoading_setSessions.
Qed.

(** X10. One request at a time: from the start of a send and through all
    of its callbacks the loading flag is set, and the input component
    refuses to send, keeping its text and attachments; when the handler
    ends, with or without an error, the flag is cleared. *)
Theorem one_request_at_a_time
  ai ai' text atts uid mid uid' mid' t1 t2 t3 t1' t2' t3'
  (cbs : list Callback) (input : InputState) (st : AppState) :
  let during :=
    run (sendStart text atts uid mid t1 t2 t3 st)
        (callback_actions (currentSessionId st) mid "" cbs) in
  isLoading during = true /\
  submit ai' uid' mid' t1' t2' t3' (input, during) = (input, during) /\
  (truthy_ostring (currentSessionId st) = true ->
   isLoading (handleSendMessage ai text atts uid mid t1 t2 t3 st) = false).
Proof.
  cbv zeta.
  assert (Hl : isLoading (run (sendStart text atts uid mid t1 t2 t3 st)
                            (callback_actions (currentSessionId st) mid "" cbs))
               = true) by now rewrite isLoading_callbacks.
  split; [exact Hl|]. split.
  - unfold submit. cbn [fst snd]. rewrite Hl. unfold handleSend.
    rewrite andb_false_r. now destruct input.
  - intros Hc. now rewrite handleSendMessage_live.
Qed.

Lemma same_frame_refl s : same_frame s s.
Proof. now repeat split. Qed.

Lemma same_frame_trans s1 s2 s3 :
  same_frame s1 s2 -> same_frame s2 s3 -> same_frame s1 s3.
Proof.
  intros (A1 & B1 & C1 & D1 & E1) (A2 & B2 & C2 & D2 & E2).
  repeat split; congruence.
Qed.

Lemma same_frame_updateMessage cur mid g s :
  (forall m, message_key (g m) = message_key m) ->
  same_frame s (updateMessage cur mid g s).
Proof.
  intros Hg. destruct (keeps_keys_updateMessage cur mid g Hg s) as [Hi Hm].
  split; [exact Hi|]. unfold updateMessage in *.
  destruct (is_current cur s); now repeat split.
Qed.

(** The updates of a send after its start keep the frame of every session
    found by its id. *)
Lemma find_after_updates c (l : list Action) st s :
  Forall (fun a => is_update a = true) l ->
  find_session c (sessions st) = Some s ->
  exists s', find_session c (sessions (run st l)) = Some s' /\ same_frame s s'.
Proof.
  intros Hall. revert st s.
  induction Hall as [|a l Ha _ IH]; intros st s Hf.
  - exists s. split; [exact Hf|apply same_frame_refl].
  - change (run st (a :: l)) with (run (step st a) l).
    assert (Hstep : exists s1, find_session c (sessions (step st a)) = Some s1
                               /\ same_frame s s1).
    { destruct a; try discriminate Ha; cbn [step].
      - rewrite sessions_setSessions, find_session_map, Hf
          by apply s_id_updateMessage.
        eexists. split; [reflexivity|]. now apply same_frame_updateMessage.
      - rewrite sessions_setSessions, find_session_map, Hf
          by apply s_id_updateMessage.
        eexists. split; [reflexivity|]. now apply same_frame_updateMessage.
      - rewrite sessions_setSessions, find_session_map, Hf
          by apply s_id_updateMessage.
        eexists. split; [reflexivity|]. now apply same_frame_updateMessage.
      - exists s. split; [exact Hf|apply same_frame_refl]. }
    destruct Hstep as (s1 & Hf1 & Hs1).
    destruct (IH _ _ Hf1) as (s' & Hf' & Hs').
    exists s'. split; [exact Hf'|]. exact (same_frame_trans _ _ _ Hs1 Hs').
Qed.

Lemma callback_actions_updates cur mid full cbs :
  Forall (fun a => is_update a = true) (callback_actions cur mid full cbs).
Proof.
  revert full. induction cbs as [|c cbs IH]; intros full; [constructor|].
  destruct c; cbn [callback_actions]; constructor; auto.
Qed.

(** A whole send: the session found by the current id is the one the start
    of the send left, up to content, image and streaming flag. *)
Lemma find_after_send ai text atts uid mid t1 t2 t3 st s :
  truthy_ostring (currentSessionId st) = true ->
  find_session (currentSessionId st) (sessions st) = Some s ->
  exists s',
    find_session (currentSessionId st)
      (sessions (handleSendMessage ai text atts uid mid t1 t2 t3 st)) = Some s'
    /\ same_frame
         (appendUpdate (language st) (currentSessionId st)
            (userMessageOf uid text atts t1) (initialModelMessageOf mid t2)
            text t3 s) s'.
Proof.
  intros Hc Hf. rewrite handleSendMessage_run by exact Hc.
  unfold send_actions. cbn [app].
  change (run st (?a :: ?l)) with (run (step st a) l).
  apply find_after_updates.
  - apply Forall_app. split; [apply callback_actions_updates|].
    apply Forall_app. split; [|repeat constructor].
    destruct (outcome _); repeat constructor.
  - cbn [step]. unfold sendStart.
    change (sessions (setIsLoading true ?x)) with (sessions x).
    rewrite sessions_setSessions, find_session_map, Hf
      by apply s_id_appendUpdate.
    reflexivity.
Qed.

Lemma substring_length_le (n : nat) (s : string) :
  (String.length (substring 0 n s) <= n)%nat.
Proof.
  revert s. induction n as [|n IH]; intros s.
  - now destruct s.
  - destruct s as [|c s]; cbn; [lia|]. specialize (IH s). lia.
Qed.

Lemma substring_short (n : nat) (s : string) :
  (String.length s <= n)%nat -> substring 0 n s = s.
Proof.
  revert s. induction n as [|n IH]; intros s Hl.
  - destruct s; [done|]. cbn in Hl. lia.
  - destruct s as [|c s]; [done|]. cbn in *. rewrite IH; [done|lia].
Qed.

(** X11. The first message titles the session: after a send, the current
    session's title is the first thirty characters of the text if the
    title was still the placeholder title of the interface language, and
    the title it had otherwise; a text of at most thirty characters is
    taken whole.  The title set at the start of the send is still there
    when the send ends. *)
Theorem first_send_titles_the_session ai text atts uid mid t1 t2 t3 st s :
  truthy_ostring (currentSessionId st) = true ->
  find_session (currentSessionId st) (sessions st) = Some s ->
  exists s',
    find_session (currentSessionId st)
      (sessions (handleSendMessage ai text atts uid mid t1 t2 t3 st)) = Some s'
    /\ title s'
       = (if String.eqb (title s) (newConversation (translations (language st)))
          then substring 0 30 text else title s)
    /\ (title s = newConversation (translations (language st)) ->
        (String.length (title s') <= 30)%nat /\
        ((String.length text <= 30)%nat -> title s' = text))
    /\ updatedAt s' = t3.
Proof.
  intros Hc Hf.
  destruct (find_after_send ai text atts uid mid t1 t2 t3 st s Hc Hf)
    as (s' & Hf' & (_ & Ht & Hu & _)).
  exists s'. split; [exact Hf'|].
  unfold appendUpdate in Ht, Hu.
  rewrite (find_session_current _ _ _ Hf) in Ht, Hu. cbn [title updatedAt] in Ht, Hu.
  split; [exact Ht|]. split; [|exact Hu].
  intros Hnew. rewrite Ht, Hnew, String.eqb_refl.
  split; [apply substring_length_le|apply substring_short].
Qed.

Lemma hasImages_keys ms ms' :
  map message_key ms' = map message_key ms -> hasImages ms' = hasImages ms.
Proof.
  revert ms'. induction ms as [|m ms IH]; intros [|m' ms'] Hk; try done.
  cbn [map] in Hk. unfold message_key at 1 3 in Hk.
  injection Hk as _ _ _ Ha Hr. unfold hasImages. cbn [existsb].
  fold (hasImages ms') (hasImages ms). rewrite (IH _ Hr). f_equal.
  unfold hasAttachments. now rewrite Ha.
Qed.

Lemma hasImages_app ms ms' :
  hasImages (ms ++ ms') = hasImages ms || hasImages ms'.
Proof. apply existsb_app. Qed.

Lemma sendRun_image_call ai text atts uid mid t1 t2 t3 st s :
  find_session (currentSessionId st) (sessions st) = Some s ->
  hasImages (messages s ++ [userMessageOf uid text atts t1]) = true ->
  sdk_calls (sendRun ai text atts uid mid t1 t2 t3 st)
  = [GenerateContent
       (imageRequest (messages s ++ [userMessageOf uid text atts t1])
                     (language st) (isKidModeOf st))].
Proof.
  intros Hf Himg. unfold sendRun.
  destruct (generateStreamingResponse_callbacks
              (onChunkCallback (currentSessionId st) mid)
              (onImageCallback (currentSessionId st) mid)
              ai (currentMessagesOf st (userMessageOf uid text atts t1))
              (language st) (isKidModeOf st)
              ("", sendStart text atts uid mid t1 t2 t3 st))
    as (_ & _ & ->).
  rewrite (currentMessagesOf_found _ _ _ Hf).
  now apply callbacks_image.
Qed.

Lemma currentSessionId_run_updates (l : list Action) st :
  Forall (fun a => is_update a = true) l ->
  currentSessionId (run st l) = currentSessionId st /\
  language (run st l) = language st.
Proof.
  intros Hall. revert st. induction Hall as [|a l Ha _ IH]; intros st; [done|].
  change (run st (a :: l)) with (run (step st a) l).
  destruct (IH (step st a)) as [-> ->].
  destruct a; try discriminate Ha; cbn [step];
    try (split; [apply currentSessionId_setSessions|apply language_setSessions]).
  done.
Qed.

Lemma handleSendMessage_keeps_current ai text atts uid mid t1 t2 t3 st :
  currentSessionId (handleSendMessage ai text atts uid mid t1 t2 t3 st)
  = currentSessionId st /\
  language (handleSendMessage ai text atts uid mid t1 t2 t3 st) = language st.
Proof.
  destruct (truthy_ostring (currentSessionId st)) eqn:Hc.
  - rewrite handleSendMessage_run by exact Hc.
    unfold send_actions. cbn [app].
    change (run st (?a :: ?l)) with (run (step st a) l).
    destruct (currentSessionId_run_updates
                (callback_actions (currentSessionId st) mid ""
                   (final (callbacks ai
                      (currentMessagesOf st (userMessageOf uid text atts t1))
                      (language st) (isKidModeOf st)))
                 ++ match outcome (callbacks ai
                      (currentMessagesOf st (userMessageOf uid text atts t1))
                      (language st) (isKidModeOf st)) with
                    | Resolved _ => [ADone (currentSessionId st) mid]
                    | Rejected _ => []
                    end ++ [ASetIsLoading false])
                (step st (ASendStart text atts uid mid t1 t2 t3))) as [-> ->].
    + apply Forall_app. split; [apply callback_actions_updates|].
      apply Forall_app. split; [|repeat constructor].
      destruct (outcome _); repeat constructor.
    + cbn [step]. unfold sendStart. cbn.
      split; [apply currentSessionId_setSessions|apply language_setSessions].
  - unfold handleSendMessage. now rewrite Hc.
Qed.

(** X12. Attachments switch a session to the image model for good: after a
    send whose message has an attachment, or in a session that already
    holds one, the session holds a message with attachments, and the next
    send in it, whatever its message, makes the single non-streaming call
    with the image model. *)
Theorem attachments_switch_the_session_to_the_image_model
  ai text atts uid mid t1 t2 t3 ai' text' atts' uid' mid' t1' t2' t3' st s :
  truthy_ostring (currentSessionId st) = true ->
  find_session (currentSessionId st) (sessions st) = Some s ->
  atts <> [] \/ hasImages (messages s) = true ->
  let st' := handleSendMessage ai text atts uid mid t1 t2 t3 st in
  exists s',
    find_session (currentSessionId st') (sessions st') = Some s' /\
    hasImages (messages s') = true /\
    sdk_calls (sendRun ai' text' atts' uid' mid' t1' t2' t3' st')
    = [GenerateContent
         (imageRequest (messages s' ++ [userMessageOf uid' text' atts' t1'])
                       (language st') (isKidModeOf st'))] /\
    model (imageRequest (messages s' ++ [userMessageOf uid' text' atts' t1'])
                        (language st') (isKidModeOf st'))
    = "gemini-2.5-flash-image".
Proof.
  intros Hc Hf Himg st'.
  destruct (find_after_send ai text atts uid mid t1 t2 t3 st s Hc Hf)
    as (s' & Hf' & (_ & _ & _ & _ & Hk)).
  destruct (handleSendMessage_keeps_current ai text atts uid mid t1 t2 t3 st)
    as [Hcur _].
  fold st' in Hf', Hcur. rewrite <- Hcur in Hf'.
  assert (Hs' : hasImages (messages s') = true).
  { rewrite (hasImages_keys _ _ Hk). unfold appendUpdate.
    rewrite (find_session_current _ _ _ Hf). cbn [messages].
    rewrite hasImages_app. apply orb_true_iff.
    destruct Himg as [Ha | Hs]; [right|now left].
    unfold hasImages, hasAttachments. cbn. now destruct atts. }
  assert (Hnext : hasImages (messages s' ++ [userMessageOf uid' text' atts' t1'])
                  = true) by (rewrite hasImages_app, Hs'; reflexivity).
  exists s'. split; [exact Hf'|]. split; [exact Hs'|]. split.
  - now apply sendRun_image_call.
  - cbn [model imageRequest]. now rewrite Hnext.
Qed.

(** X13. The request carries the conversation without its system
    messages: one content per other message, in order; a user message has
    role [user], any other [model]; and each content holds the text of the
    message first, followed by one inline part per attachment, in order,
    with its media type and data. *)
Theorem request_contents_follow_the_conversation (messages1 messages2 : list Message) :
  buildContents (messages1 ++ messages2)
  = buildContents messages1 ++ buildContents messages2 /\
  (forall m, buildContents [m]
             = if decide (role m = SYSTEM) then [] else [toContent m]) /\
  (forall c, In c (buildContents messages1) ->
     (content_role c = "user" \/ content_role c = "model") /\
     exists m, In m messages1 /\ role m <> SYSTEM /\ c = toContent m) /\
  (forall m,
     (content_role (toContent m) = "user" <-> role m = USER) /\
     content_parts (toContent m)
     = {| part_text := Some (content m); part_inlineData := None |}
       :: map (fun a => {| part_text := None;
                           part_inlineData :=
                             Some {| blob_mimeType := Some (mimeType a);
                                     blob_data := data a |} |})
              (default [] (attachments m))).
Proof.
  split; [|split; [|split]].
  - unfold buildContents. now rewrite List.filter_app, List.map_app.
  - intros m. unfold buildContents. cbn [List.filter].
    destruct (decide (role m = SYSTEM)) as [E|E].
    + rewrite bool_decide_eq_false_2; [done|]. intros Hn. now apply Hn.
    + now rewrite bool_decide_eq_true_2.
  - intros c Hin. unfold buildContents in Hin.
    apply in_map_iff in Hin as (m & <- & Hm).
    apply filter_In in Hm as [Hm Hr]. apply bool_decide_eq_true in Hr.
    split; [|now exists m].
    unfold toContent. cbn [content_role]. destruct (decide _); auto.
  - intros m. split.
    + unfold toContent. cbn [content_role].
      destruct (decide (role m = USER)); split; try done.
    + unfold toContent. cbn [content_parts]. now destruct (attachments m).
Qed.

End SendFacts.

(* --------------------------------------------------------------------- *)
(** ** The input component: attachments                                   *)
(* --------------------------------------------------------------------- *)

Lemma imap_shift {A} (l : list A) (k : nat) :
  imap ((fun j a => (k + j, a)%nat) ∘ S) l
  = imap (fun j a => (S k + j, a)%nat) l.
Proof. apply imap_ext. intros j x _. cbn. f_equal. lia. Qed.

Lemma filter_index_above {A} (l : list A) (k i : nat) :
  (i < k)%nat ->
  map snd (List.filter (fun p => negb (fst p =? i)%nat)
                       (imap (fun j a => (k + j, a)%nat) l)) = l.
Proof.
  revert k. induction l as [|a l IH]; intros k Hk; [done|].
  cbn [imap List.filter fst].
  destruct (Nat.eqb_spec (k + 0) i) as [E|_]; [lia|].
  cbn [negb map snd]. f_equal.
  rewrite imap_shift. apply IH. lia.
Qed.

Lemma filter_index {A} (l : list A) (k i : nat) :
  map snd (List.filter (fun p => negb (fst p =? k + i)%nat)
                       (imap (fun j a => (k + j, a)%nat) l))
  = take i l ++ drop (S i) l.
Proof.
  revert k i. induction l as [|a l IH]; intros k i; [now destruct i|].
  cbn [imap List.filter fst].
  destruct i as [|i].
  - rewrite Nat.eqb_refl. cbn [negb take drop app].
    rewrite imap_shift. apply filter_index_above. lia.
  - destruct (Nat.eqb_spec (k + 0) (k + S i)) as [E|_]; [lia|].
    cbn [negb map snd take drop app]. f_equal.
    rewrite imap_shift.
    replace (k + S i)%nat with (S k + i)%nat by lia.
    apply IH.
Qed.

Lemma removeAttachment_attachments index st :
  ci_attachments (removeAttachment index st)
  = take index (ci_attachments st) ++ drop (S index) (ci_attachments st).
Proof.
  unfold removeAttachment. cbn [ci_attachments].
  exact (filter_index (ci_attachments st) 0 index).
Qed.

(** X14. Removing an attachment preview deletes the attachment at that
    position and nothing else: the others keep their order and the text is
    kept; a position past the end changes nothing; and removing the
    preview of a file that was just attached gives back the input as it
    was before the file was chosen. *)
Theorem removeAttachment_deletes_one_position
  (index : nat) (file : File) (st : InputState) :
  removeAttachment index st
  = {| ci_text := ci_text st;
       ci_attachments := take index (ci_attachments st)
                         ++ drop (S index) (ci_attachments st) |} /\
  ((length (ci_attachments st) <= index)%nat -> removeAttachment index st = st) /\
  ((index < length (ci_attachments st))%nat ->
   S (length (ci_attachments (removeAttachment index st)))
   = length (ci_attachments st)) /\
  removeAttachment (length (ci_attachments st))
                   (handleFileChange (Some [file]) st) = st.
Proof.
  assert (Heq : forall i s, removeAttachment i s
    = {| ci_text := ci_text s;
         ci_attachments := take i (ci_attachments s)
                           ++ drop (S i) (ci_attachments s) |}).
  { intros i s. rewrite <- removeAttachment_attachments. reflexivity. }
  split; [apply Heq|]. split; [|split].
  - intros Hle. rewrite Heq.
    rewrite take_ge, drop_ge, app_nil_r by lia. now destruct st.
  - intros Hlt. rewrite removeAttachment_attachments.
    rewrite length_app, length_take, length_drop. lia.
  - rewrite Heq. cbn [handleFileChange fold_left app ci_text ci_attachments].
    rewrite take_app_length, drop_ge, app_nil_r
      by (rewrite length_app; cbn; lia).
    now destruct st.
Qed.

(** X15. A chosen file reaches the request as it is: for a file read as a
    data URL, attached to an empty input and sent with a text, the send
    passes one attachment with the type of the file, the user message
    built from it is sent as the text part followed by one inline part
    with that type, the inline data is the base64 text that decodes to the
    content of the file, and the conversation counts as one with
    images. *)
Theorem attached_file_reaches_the_request
  (mediaType fileContent text uid : string) (t1 : Z) (file : File) :
  file_result file = readAsDataURL mediaType fileContent ->
  has_comma mediaType = false ->
  let input := handleFileChange (Some [file])
                 {| ci_text := text; ci_attachments := [] |} in
  exists payload,
    Base64.atob payload = Some fileContent /\
    handleSend false input
    = ({| ci_text := ""; ci_attachments := [] |},
       Some (text, [ {| mimeType := file_type file; data := Some payload;
                        url := Some (file_result file) |} ])) /\
    toContent (userMessageOf uid text (ci_attachments input) t1)
    = {| content_role := "user";
         content_parts :=
           [ {| part_text := Some text; part_inlineData := None |};
             {| part_text := None;
                part_inlineData :=
                  Some {| blob_mimeType := Some (file_type file);
                          blob_data := Some payload |} |} ] |} /\
    hasImages [userMessageOf uid text (ci_attachments input) t1] = true.
Proof.
  intros Hres Hcomma input. exists (Base64.btoa fileContent).
  pose proof (readAttachment_base64 file mediaType fileContent Hres Hcomma)
    as Hdata.
  assert (Hatt : ci_attachments input
    = [ {| mimeType := file_type file; data := Some (Base64.btoa fileContent);
           url := Some (file_result file) |} ]).
  { subst input. cbn [handleFileChange fold_left app ci_attachments].
    unfold readAttachment in *. cbn [data] in Hdata. now rewrite Hdata. }
  split; [apply atob_btoa|]. split; [|split].
  - unfold handleSend. rewrite Hatt. cbn [length Nat.ltb Nat.leb].
    rewrite orb_true_r. cbn [andb negb]. subst input. reflexivity.
  - rewrite Hatt. reflexivity.
  - rewrite Hatt. reflexivity.
Qed.

(* --------------------------------------------------------------------- *)
(** ** The message list                                                   *)
(* --------------------------------------------------------------------- *)

Section ListFacts.
Context {env : Env}.

Lemma last_message_callbacks cur mid full cbs st m :
  last_message cur (sessions st) = Some m -> m_id m = mid ->
  exists m',
    last_message cur (sessions (run st (callback_actions cur mid full cbs)))
    = Some m' /\
    m_id m' = mid /\ role m' = role m /\ isStreaming m' = isStreaming m /\
    timestamp m' = timestamp m.
Proof.
  revert full st m. induction cbs as [|c cbs IH]; intros full st m Hl Hid.
  - exists m. now repeat split.
  - destruct c as [text|imageData mime]; cbn [callback_actions];
      change (run st (?a :: ?l)) with (run (step st a) l); cbn [step].
    + destruct (IH (full +:+ text)
                   (setSessions (map (chunkUpdate cur mid (full +:+ text))) st)
                   (with_content (full +:+ text) m))
        as (m' & Hl' & Hid' & Hr & Hs & Ht); [| exact Hid |].
      * rewrite sessions_setSessions.
        exact (last_message_updateMessage cur mid _ _ _ Hl Hid).
      * exists m'. now repeat split.
    + destruct (IH full
                   (setSessions (map (imageUpdate cur mid imageData mime)) st)
                   (with_generatedImage
                      {| image_data := imageData; image_mimeType := mime |} m))
        as (m' & Hl' & Hid' & Hr & Hs & Ht); [| exact Hid |].
      * rewrite sessions_setSessions.
        exact (last_message_updateMessage cur mid _ _ _ Hl Hid).
      * exists m'. now repeat split.
Qed.

Lemma sendRun_outcome ai text atts uid mid t1 t2 t3 st :
  outcome (sendRun ai text atts uid mid t1 t2 t3 st)
  = outcome (callbacks ai
               (currentMessagesOf st (userMessageOf uid text atts t1))
               (language st) (isKidModeOf st)).
Proof.
  unfold sendRun.
  now destruct (generateStreamingResponse_callbacks
                  (onChunkCallback (currentSessionId st) mid)
                  (onImageCallback (currentSessionId st) mid)
                  ai (currentMessagesOf st (userMessageOf uid text atts t1))
                  (language st) (isKidModeOf st)
                  ("", sendStart text atts uid mid t1 t2 t3 st))
    as (_ & -> & _).
Qed.

Lemma last_messageList host pic st m :
  last_message (currentSessionId st) (sessions st) = Some m ->
  last (messageList host pic st)
  = Some (fst (ChatMessage host
                 {| message := m; userProfilePic := pic;
                    propIsKidMode := Some (isKidModeOf st);
                    hasOnPlayAudio := true |})).
Proof.
  unfold last_message, messageList.
  destruct (find_session _ _) as [s|]; [|discriminate]. cbn.
  intros Hl. now rewrite last_map, Hl.
Qed.

Lemma sessions_setIsLoading b st :
  sessions (setIsLoading b st) = sessions st /\
  currentSessionId (setIsLoading b st) = currentSessionId st.
Proof. done. Qed.

Lemma isKidModeOf_setIsLoading b st :
  isKidModeOf (setIsLoading b st) = isKidModeOf st.
Proof. reflexivity. Qed.

Lemma messageList_setIsLoading host pic b st :
  messageList host pic (setIsLoading b st) = messageList host pic st.
Proof. reflexivity. Qed.

(** X16. The placeholder of a send on the screen.  From the start of a
    send and after any number of its callbacks, the last entry of the
    message list is a model entry that shows the streaming cursor and no
    play button, dated at the creation of the placeholder; when the
    request fails this is how the list stays; when it succeeds the cursor
    goes. *)
Theorem placeholder_shows_cursor_until_done
  host pic ai text atts uid mid t1 t2 t3 (cbs : list Callback) st s :
  truthy_ostring (currentSessionId st) = true ->
  find_session (currentSessionId st) (sessions st) = Some s ->
  let shown (st' : AppState) (streaming : bool) :=
    exists v, last (messageList host pic st') = Some v /\
              v_userSide v = false /\ v_cursor v = streaming /\
              (streaming = true -> v_playButton v = None) /\
              v_time v = toLocaleTimeString host t2 in
  shown (run (sendStart text atts uid mid t1 t2 t3 st)
             (callback_actions (currentSessionId st) mid "" cbs)) true /\
  shown (handleSendMessage ai text atts uid mid t1 t2 t3 st)
        (match outcome (sendRun ai text atts uid mid t1 t2 t3 st) with
         | Resolved _ => false
         | Rejected _ => true
         end).
Proof.
  intros Hcur Hf shown.
  pose proof (last_message_sendStart text atts uid mid t1 t2 t3 st s Hf)
    as Hstart.
  assert (Hduring : forall cbs',
    exists m',
      last_message (currentSessionId st)
        (sessions (run (sendStart text atts uid mid t1 t2 t3 st)
                       (callback_actions (currentSessionId st) mid "" cbs')))
      = Some m' /\
      m_id m' = mid /\ role m' = MODEL /\ isStreaming m' = Some true /\
      timestamp m' = t2).
  { intros cbs'.
    exact (last_message_callbacks (currentSessionId st) mid "" cbs' _ _
             Hstart eq_refl). }
  assert (Hcurrent : forall l,
    Forall (fun a => is_update a = true) l ->
    currentSessionId (run (sendStart text atts uid mid t1 t2 t3 st) l)
    = currentSessionId st).
  { intros l Hl.
    destruct (currentSessionId_run_updates l
                (sendStart text atts uid mid t1 t2 t3 st) Hl) as [-> _].
    unfold sendStart. cbn. apply currentSessionId_setSessions. }
  split.
  - destruct (Hduring cbs) as (m' & Hl & _ & Hr & Hs & Ht).
    rewrite <- (Hcurrent _ (callback_actions_updates (currentSessionId st) mid "" cbs)) in Hl at 1.
    eexists. split; [exact (last_messageList host pic _ _ Hl)|].
    unfold ChatMessage. cbn [fst v_userSide v_cursor v_playButton v_time message].
    rewrite Hr, Hs, Ht. now repeat split.
  - rewrite handleSendMessage_run by exact Hcur.
    unfold send_actions. cbn [app].
    change (run st (?a :: ?l)) with (run (step st a) l). cbn [step].
    rewrite (sendRun_outcome ai text atts uid mid t1 t2 t3 st).
    set (trace := callbacks ai _ _ _).
    destruct (Hduring (final trace)) as (m' & Hl & Hid & Hr & Hs & Ht).
    unfold run. rewrite !fold_left_app.
    fold (run (sendStart text atts uid mid t1 t2 t3 st)
              (callback_actions (currentSessionId st) mid "" (final trace))).
    set (during := run _ _) in *.
    assert (Hc : currentSessionId during = currentSessionId st)
      by exact (Hcurrent _ (callback_actions_updates (currentSessionId st) mid "" (final trace))).
    subst shown. cbn beta.
    destruct (outcome trace); cbn [fold_left step app].
    + rewrite messageList_setIsLoading.
      assert (Hl' : last_message
                      (currentSessionId
                         (setSessions (map (doneUpdate (currentSessionId st) mid))
                                      during))
                      (sessions (setSessions
                         (map (doneUpdate (currentSessionId st) mid)) during))
                    = Some (with_isStreaming false m')).
      { rewrite currentSessionId_setSessions, Hc, sessions_setSessions.
        exact (last_message_updateMessage _ mid _ _ _ Hl Hid). }
      eexists. split; [exact (last_messageList host pic _ _ Hl')|].
      unfold ChatMessage.
      cbn [fst v_userSide v_cursor v_playButton v_time message
           with_isStreaming role isStreaming timestamp truthy_obool].
      rewrite Hr, Ht. now repeat split.
    + rewrite messageList_setIsLoading. rewrite <- Hc in Hl at 1.
      eexists. split; [exact (last_messageList host pic _ _ Hl)|].
      unfold ChatMessage.
      cbn [fst v_userSide v_cursor v_playButton v_time message].
      rewrite Hr, Hs, Ht. now repeat split.
Qed.

End ListFacts.

(** X17. What the renderer never shows: a play button on a user message,
    on a message that is still streaming or on one without text; when the
    button is there it plays the text of the message.  The dots stand for
    a message with neither text nor image and for nothing else, unless
    they are the text itself. *)
Theorem play_button_only_on_finished_model_text (host : Host)
  (props : ChatMessageProps) :
  let m := message props in
  let v := fst (ChatMessage host props) in
  (v_playButton v <> None <->
   role m <> USER /\ truthy_obool (isStreaming m) = false /\ content m <> "") /\
  (forall b, v_playButton v = Some b ->
     play_text b = content m /\ v_text v = content m /\ v_cursor v = false) /\
  (v_text v = "..." <->
   content m = "..." \/ (content m = "" /\ generatedImage m = None)) /\
  (content m <> "" -> v_text v = content m).
Proof.
  cbv zeta. unfold ChatMessage.
  cbn [fst v_playButton v_text v_cursor].
  pose proof (truthy_string_true (content (message props))) as Ht.
  unfold or_else.
  destruct (truthy_string (content (message props))) eqn:Hc.
  - assert (Hne : content (message props) <> "") by now apply Ht.
    split; [|split; [|split]].
    + destruct (bool_decide_reflect (role (message props) = USER)) as [E|E];
        destruct (truthy_obool (isStreaming (message props)));
        cbn; split; try done; try tauto; intros (? & ? & ?); done.
    + intros b.
      destruct (bool_decide (role (message props) = USER));
        destruct (truthy_obool (isStreaming (message props)));
        cbn; try discriminate.
      intros [= <-]. done.
    + split; [now left|]. intros [E|[E _]]; [exact E|done].
    + done.
  - assert (He : content (message props) = "").
    { destruct (decide (content (message props) = "")) as [E|E]; [exact E|].
      apply Ht in E. congruence. }
    rewrite !andb_false_r.
    split; [|split; [|split]].
    + split; [done|]. intros (_ & _ & Hn). done.
    + intros b; discriminate.
    + rewrite He. destruct (generatedImage (message props)); split;
        try done; try tauto.
      intros [E|[_ E]]; discriminate.
    + intros Hn. done.
Qed.
(* --------------------------------------------------------------------- *)
(** ** The live session between turns                                     *)
(* --------------------------------------------------------------------- *)

Section MoreLiveFacts.
Context {T : Type} {clock : AudioClock T} {env : Env}.

Lemma js_append_default (s : string) (v : option string) :
  js_append s v = s +:+ default "undefined" v.
Proof. now destruct v. Qed.

Lemma accumulate_texts (e : LiveEvent T) (r : LiveRefs T) :
  transcription_input (accumulate (ev_message e) r)
  = transcription_input r +:+ input_text e /\
  transcription_output (accumulate (ev_message e) r)
  = transcription_output r +:+ output_text e.
Proof.
  unfold accumulate, input_text, output_text. cbn.
  destruct (inputTranscription _), (outputTranscription _);
    rewrite ?js_append_default, ?string_app_nil_r; done.
Qed.

Lemma handleInterrupted_transcription message (r : LiveRefs T) :
  transcription_input (handleInterrupted message r) = transcription_input r /\
  transcription_output (handleInterrupted message r) = transcription_output r.
Proof. unfold handleInterrupted. now destruct (interrupted message). Qed.

(** Lines 230-244 on a message that does not complete a turn. *)
Lemma onmessage_rest_texts cur (e : LiveEvent T) (s : LiveRefs T * AppState) :
  turnComplete (ev_message e) = false ->
  transcription_input (fst (onmessage_rest cur e s))
  = transcription_input (fst s) /\
  transcription_output (fst (onmessage_rest cur e s))
  = transcription_output (fst s) /\
  snd (onmessage_rest cur e s) = snd s.
Proof.
  intros Hturn. unfold onmessage_rest, handleTurnComplete.
  rewrite Hturn. cbn [fst snd].
  now destruct (handleInterrupted_transcription (ev_message e) (fst s))
    as [-> ->].
Qed.

(** The handler up to its [await], on a message that does not complete a
    turn. *)
Lemma onmessage_begin_texts cur (e : LiveEvent T) (s : LiveRefs T * AppState) :
  turnComplete (ev_message e) = false ->
  transcription_input (fst (fst (onmessage_begin cur e s)))
  = transcription_input (fst s) +:+ input_text e /\
  transcription_output (fst (fst (onmessage_begin cur e s)))
  = transcription_output (fst s) +:+ output_text e /\
  snd (fst (onmessage_begin cur e s)) = snd s.
Proof.
  intros Hturn. destruct (accumulate_texts e (fst s)) as [Hi Ho].
  unfold onmessage_begin.
  destruct (audioData (ev_message e)) as [audio|]; cbn [fst snd]; [|done].
  destruct (truthy_ostring audio).
  - now destruct (_ ≫= decodeAudioData).
  - cbn [fst snd].
    destruct (onmessage_rest_texts cur e
                (accumulate (ev_message e) (fst s), snd s) Hturn)
      as (-> & -> & ->).
    done.
Qed.

Lemma onmessage_resume_texts cur (e : LiveEvent T) buffer
  (s : LiveRefs T * AppState) :
  turnComplete (ev_message e) = false ->
  transcription_input (fst (onmessage_resume cur e buffer s))
  = transcription_input (fst s) /\
  transcription_output (fst (onmessage_resume cur e buffer s))
  = transcription_output (fst s) /\
  snd (onmessage_resume cur e buffer s) = snd s.
Proof.
  intros Hturn. unfold onmessage_resume.
  now destruct (onmessage_rest_texts cur e
                  (scheduleBuffer buffer (fst s), snd s) Hturn)
    as (-> & -> & ->).
Qed.

(** One message that does not complete a turn, handled alone. *)
Lemma onevent_texts cur (s : LiveRefs T * AppState) (e : LiveEvent T) :
  turnComplete (ev_message e) = false ->
  transcription_input (fst (onevent cur s e))
  = transcription_input (fst s) +:+ input_text e /\
  transcription_output (fst (onevent cur s e))
  = transcription_output (fst s) +:+ output_text e /\
  snd (onevent cur s e) = snd s.
Proof.
  intros Hturn. unfold onevent.
  destruct (onmessage_begin_texts cur e s Hturn) as (Hi & Ho & Hs).
  destruct (onmessage_begin cur e s) as [s' [|buffer|]];
    cbn [fst snd] in Hi, Ho, Hs; [done| |done].
  destruct (onmessage_resume_texts cur e buffer s' Hturn) as (-> & -> & ->).
  done.
Qed.

Lemma concat_cons_empty (x : string) (l : list string) :
  String.concat "" (x :: l) = x +:+ String.concat "" l.
Proof.
  destruct l as [|y l]; cbn [String.concat].
  - now rewrite string_app_nil_r.
  - reflexivity.
Qed.

(** One step of a run in which no turn is completed. *)
Lemma livestep_texts cur (st : LiveState T) (x : LiveStep T) :
  no_turn_end x ->
  Forall (fun h => turnComplete (ev_message (sus_event h)) = false) (suspended st) ->
  transcription_input (fst (live (livestep cur st x)))
  = transcription_input (fst (live st))
    +:+ String.concat "" (map input_text (deliveries [x])) /\
  transcription_output (fst (live (livestep cur st x)))
  = transcription_output (fst (live st))
    +:+ String.concat "" (map output_text (deliveries [x])) /\
  sessions (snd (live (livestep cur st x))) = sessions (snd (live st)) /\
  Forall (fun h => turnComplete (ev_message (sus_event h)) = false) (suspended (livestep cur st x)).
Proof.
  intros Hx Hq. destruct x as [e| |source|]; cbn [livestep deliveries omap map].
  - cbn [no_turn_end] in Hx.
    destruct (onmessage_begin_texts cur e (live st) Hx) as (Hi & Ho & Hs).
    cbn [String.concat]. 
    destruct (onmessage_begin cur e (live st)) as [s' [|buffer|]];
      cbn [fst snd live suspended] in *; rewrite Hi, Ho, Hs;
      repeat split; try done.
    apply Forall_app. split; [exact Hq|]. now repeat constructor.
  - cbn [String.concat]. rewrite !string_app_nil_r.
    destruct (suspended st) as [|h rest] eqn:Hs.
    + rewrite Hs. now repeat split.
    + apply Forall_cons in Hq as [Hh Hrest]. cbn [live suspended].
      destruct (onmessage_resume_texts cur (sus_event h) (sus_buffer h)
                  (live st) Hh) as (-> & -> & ->).
      now repeat split.
  - cbn [String.concat live suspended fst snd]. rewrite !string_app_nil_r.
    now repeat split.
  - cbn [String.concat live suspended fst snd]. rewrite !string_app_nil_r.
    now repeat split.
Qed.

Lemma deliveries_cons (x : LiveStep T) (steps : list (LiveStep T)) :
  deliveries (x :: steps) = deliveries [x] ++ deliveries steps.
Proof. unfold deliveries. cbn [omap]. now destruct x. Qed.

Lemma concat_app_empty (l1 l2 : list string) :
  String.concat "" (l1 ++ l2) = String.concat "" l1 +:+ String.concat "" l2.
Proof.
  induction l1 as [|x l1 IH]; [done|].
  cbn [app]. now rewrite !concat_cons_empty, IH, string_app_assoc.
Qed.

Lemma liverun_texts cur (steps : list (LiveStep T)) (st : LiveState T) :
  Forall no_turn_end steps ->
  Forall (fun h => turnComplete (ev_message (sus_event h)) = false) (suspended st) ->
  transcription_input (fst (live (liverun cur steps st)))
  = transcription_input (fst (live st))
    +:+ String.concat "" (map input_text (deliveries steps)) /\
  transcription_output (fst (live (liverun cur steps st)))
  = transcription_output (fst (live st))
    +:+ String.concat "" (map output_text (deliveries steps)) /\
  sessions (snd (live (liverun cur steps st))) = sessions (snd (live st)).
Proof.
  intros Hall. revert st. induction Hall as [|x steps Hx _ IH]; intros st Hq.
  - cbn. now rewrite !string_app_nil_r.
  - unfold liverun. cbn [fold_left]. fold (liverun cur steps (livestep cur st x)).
    destruct (livestep_texts cur st x Hx Hq) as (Hi & Ho & Hs & Hq').
    destruct (IH _ Hq') as (-> & -> & ->).
    rewrite Hi, Ho, Hs, (deliveries_cons x steps), !map_app, !concat_app_empty.
    now rewrite !string_app_assoc.
Qed.

(** X18. A turn spread over several messages: as long as no message
    completes the turn, the two transcriptions grow by the texts of the
    messages in arrival order (the text [undefined] for a transcription
    without text), whether the audio of a message decodes or not, whether
    its model turn has parts or not and whether it reports an interruption
    or not, and the store is not touched.  The same holds of the sessions
    in every run, whatever the order in which the handlers of the messages
    are resumed and whatever sources end or stops happen in between. *)
Theorem transcriptions_accumulate_in_arrival_order
  cur (evs : list (LiveEvent T)) (s : LiveRefs T * AppState) :
  Forall (fun e => turnComplete (ev_message e) = false) evs ->
  transcription_input (fst (onmessages cur evs s))
  = transcription_input (fst s) +:+ String.concat "" (map input_text evs) /\
  transcription_output (fst (onmessages cur evs s))
  = transcription_output (fst s) +:+ String.concat "" (map output_text evs) /\
  snd (onmessages cur evs s) = snd s /\
  (forall (steps : list (LiveStep T)) (st : LiveState T),
     Forall no_turn_end steps ->
     Forall (fun h => turnComplete (ev_message (sus_event h)) = false)
            (suspended st) ->
     transcription_input (fst (live (liverun cur steps st)))
     = transcription_input (fst (live st))
       +:+ String.concat "" (map input_text (deliveries steps)) /\
     transcription_output (fst (live (liverun cur steps st)))
     = transcription_output (fst (live st))
       +:+ String.concat "" (map output_text (deliveries steps)) /\
     sessions (snd (live (liverun cur steps st))) = sessions (snd (live st))).
Proof.
  intros Hall.
  assert (Hone : transcription_input (fst (onmessages cur evs s))
    = transcription_input (fst s) +:+ String.concat "" (map input_text evs) /\
    transcription_output (fst (onmessages cur evs s))
    = transcription_output (fst s) +:+ String.concat "" (map output_text evs) /\
    snd (onmessages cur evs s) = snd s).
  { revert s. induction Hall as [|e evs He _ IH]; intros s.
    - cbn. now rewrite !string_app_nil_r.
    - unfold onmessages. cbn [fold_left]. fold (onmessages cur evs (onevent cur s e)).
      cbn [map]. rewrite !concat_cons_empty.
      destruct (IH (onevent cur s e)) as (-> & -> & ->).
      destruct (onevent_texts cur s e He) as (-> & -> & ->).
      now rewrite !string_app_assoc. }
  destruct Hone as (Hi & Ho & Hs).
  split; [exact Hi|]. split; [exact Ho|]. split; [exact Hs|].
  intros steps st. apply liverun_texts.
Qed.

Lemma sources_tracked_schedule buffer (r : LiveRefs T) :
  sources_tracked r -> sources_tracked (scheduleBuffer buffer r).
Proof.
  intros [Ha Hs]. unfold sources_tracked, scheduleBuffer. cbn.
  rewrite length_app. cbn [length]. split.
  - intros n Hn. apply elem_of_union in Hn as [Hn|Hn].
    + apply elem_of_singleton in Hn as ->. split; [lia|].
      intros Hin. specialize (Hs _ Hin). lia.
    + destruct (Ha n Hn) as [Hlt Hns]. split; [lia|exact Hns].
  - intros n Hn. specialize (Hs n Hn). lia.
Qed.

Lemma sources_tracked_same (r r' : LiveRefs T) :
  audioSources r' = audioSources r -> started r' = started r ->
  stopped r' = stopped r -> sources_tracked r -> sources_tracked r'.
Proof. unfold sources_tracked. now intros -> -> ->. Qed.

Lemma sources_tracked_stop_all (r r' : LiveRefs T) :
  audioSources r' = ∅ -> started r' = started r ->
  stopped r' = stopped r ∪ audioSources r ->
  sources_tracked r -> sources_tracked r'.
Proof.
  unfold sources_tracked. intros -> -> -> [Ha Hs]. split.
  - intros n Hn. now apply not_elem_of_empty in Hn.
  - intros n Hn. apply elem_of_union in Hn as [Hn|Hn]; [now apply Hs|].
    now apply Ha.
Qed.

Lemma sources_tracked_rest cur (e : LiveEvent T) (s : LiveRefs T * AppState) :
  sources_tracked (fst s) -> sources_tracked (fst (onmessage_rest cur e s)).
Proof.
  intros Hr. unfold onmessage_rest.
  destruct (handleTurnComplete_audio cur (ev_message e) (ev_uid e) (ev_mid e)
              (ev_t1 e) (ev_t2 e) (ev_t3 e)
              (handleInterrupted (ev_message e) (fst s), snd s))
    as (_ & Hst & Ha & Hsp).
  cbn [fst] in Hst, Ha, Hsp.
  apply (sources_tracked_same _ _ Ha Hst Hsp).
  unfold handleInterrupted. destruct (interrupted (ev_message e)); [|exact Hr].
  now apply (sources_tracked_stop_all (fst s)).
Qed.

Lemma sources_tracked_begin cur (e : LiveEvent T) (s : LiveRefs T * AppState) :
  sources_tracked (fst s) ->
  sources_tracked (fst (fst (onmessage_begin cur e s))).
Proof.
  intros Hr. unfold onmessage_begin.
  destruct (audioData (ev_message e)) as [audio|]; cbn [fst];
    [|now apply (sources_tracked_same (fst s))].
  destruct (truthy_ostring audio).
  - destruct (_ ≫= decodeAudioData); cbn [fst];
      now apply (sources_tracked_same (fst s)).
  - cbn [fst]. apply sources_tracked_rest. cbn [fst].
    now apply (sources_tracked_same (fst s)).
Qed.

Lemma sources_tracked_livestep cur (st : LiveState T) x :
  sources_tracked (fst (live st)) ->
  sources_tracked (fst (live (livestep cur st x))).
Proof.
  intros Hr. destruct x as [e| |source|]; cbn [livestep].
  - pose proof (sources_tracked_begin cur e (live st) Hr) as Hb.
    now destruct (onmessage_begin cur e (live st)) as [s' [|buffer|]].
  - destruct (suspended st) as [|h rest]; [exact Hr|]. cbn [live].
    unfold onmessage_resume. apply sources_tracked_rest. cbn [fst].
    now apply sources_tracked_schedule.
  - cbn [live fst]. destruct Hr as [Ha Hs]. split; [|exact Hs].
    intros n Hn. cbn in Hn. apply elem_of_difference in Hn as [Hn _].
    now apply Ha.
  - cbn [live]. unfold stopLiveMode. cbn [fst].
    now apply (sources_tracked_stop_all (fst (live st))).
Qed.

(** What a step keeps of the record of the sources. *)
Definition grows (r r' : LiveRefs T) : Prop :=
  stopped r ⊆ stopped r' /\ exists new, started r' = started r ++ new.

Lemma grows_refl (r : LiveRefs T) : grows r r.
Proof. split; [done|]. exists []. now rewrite app_nil_r. Qed.

Lemma grows_trans (r1 r2 r3 : LiveRefs T) :
  grows r1 r2 -> grows r2 r3 -> grows r1 r3.
Proof.
  intros [Hs1 [n1 Hn1]] [Hs2 [n2 Hn2]]. split.
  - intros x Hx. apply Hs2, Hs1, Hx.
  - exists (n1 ++ n2). now rewrite Hn2, Hn1, app_assoc.
Qed.

Lemma grows_same (r r' : LiveRefs T) :
  started r' = started r -> stopped r' = stopped r -> grows r r'.
Proof.
  intros Hst Hsp. split; [now rewrite Hsp|].
  exists []. now rewrite Hst, app_nil_r.
Qed.

Lemma grows_rest cur (e : LiveEvent T) (s : LiveRefs T * AppState) :
  grows (fst s) (fst (onmessage_rest cur e s)).
Proof.
  unfold onmessage_rest.
  destruct (handleTurnComplete_audio cur (ev_message e) (ev_uid e) (ev_mid e)
              (ev_t1 e) (ev_t2 e) (ev_t3 e)
              (handleInterrupted (ev_message e) (fst s), snd s))
    as (_ & Hst & _ & Hsp).
  cbn [fst] in Hst, Hsp. split.
  - rewrite Hsp. unfold handleInterrupted.
    destruct (interrupted (ev_message e)); cbn; [|done].
    intros x Hx. apply elem_of_union. now left.
  - exists []. rewrite Hst, app_nil_r. unfold handleInterrupted.
    now destruct (interrupted (ev_message e)).
Qed.

Lemma grows_livestep cur (st : LiveState T) x :
  grows (fst (live st)) (fst (live (livestep cur st x))).
Proof.
  destruct x as [e| |source|]; cbn [livestep].
  - assert (Hb : grows (fst (live st)) (fst (fst (onmessage_begin cur e (live st))))).
    { unfold onmessage_begin.
      destruct (audioData (ev_message e)) as [audio|]; cbn [fst];
        [|now apply grows_same].
      destruct (truthy_ostring audio).
      - destruct (_ ≫= decodeAudioData); cbn [fst]; now apply grows_same.
      - cbn [fst].
        apply (grows_trans _ (accumulate (ev_message e) (fst (live st))));
          [now apply grows_same|].
        exact (grows_rest cur e
                 (accumulate (ev_message e) (fst (live st)), snd (live st))). }
    now destruct (onmessage_begin cur e (live st)) as [s' [|buffer|]].
  - destruct (suspended st) as [|h rest]; [apply grows_refl|]. cbn [live].
    unfold onmessage_resume.
    apply (grows_trans _ (scheduleBuffer (sus_buffer h) (fst (live st)))).
    + split; [done|]. now eexists.
    + exact (grows_rest cur (sus_event h)
               (scheduleBuffer (sus_buffer h) (fst (live st)), snd (live st))).
  - now apply grows_same.
  - cbn [live]. split.
    + cbn. intros x Hx. apply elem_of_union. now left.
    + exists []. cbn. now rewrite app_nil_r.
Qed.

Lemma liverun_tracked cur (steps : list (LiveStep T)) (st : LiveState T) :
  sources_tracked (fst (live st)) ->
  sources_tracked (fst (live (liverun cur steps st))) /\
  grows (fst (live st)) (fst (live (liverun cur steps st))).
Proof.
  revert st. induction steps as [|x steps IH]; intros st Hr.
  - split; [exact Hr|apply grows_refl].
  - unfold liverun. cbn [fold_left]. fold (liverun cur steps (livestep cur st x)).
    destruct (IH _ (sources_tracked_livestep cur st x Hr)) as (Ht & Hg).
    split; [exact Ht|].
    exact (grows_trans _ _ _ (grows_livestep cur st x) Hg).
Qed.

(** X19. The set of audio sources is kept in step with the sources
    themselves, through deliveries of messages, resumptions of their
    handlers, ends of playback and stops of the live mode in any order: a
    source of the set has been started and has not been stopped, so that no
    source is stopped twice; a stopped source stays stopped; and the record
    of started sources only grows. *)
Theorem audio_sources_are_started_and_not_stopped
  cur (steps : list (LiveStep T)) (st : LiveState T) :
  sources_tracked (fst (live st)) ->
  sources_tracked (fst (live (liverun cur steps st))) /\
  stopped (fst (live st)) ⊆ stopped (fst (live (liverun cur steps st))) /\
  (exists new, started (fst (live (liverun cur steps st)))
               = started (fst (live st)) ++ new) /\
  audioSources (fst (live (liverun cur (steps ++ [LStop]) st))) = ∅.
Proof.
  intros Hr. destruct (liverun_tracked cur steps st Hr) as (Ht & Hsub & Hnew).
  split; [exact Ht|]. split; [exact Hsub|]. split; [exact Hnew|].
  unfold liverun. now rewrite fold_left_app.
Qed.

(** X20. Stopping the live mode stops every source and clears the live
    flag, and keeps everything else: the sessions, the playback cursor and
    the transcriptions that no turn completion has stored.  So a message
    handled afterwards, in a live session started later, schedules its
    audio no earlier than the old cursor and adds its texts to the old
    transcriptions. *)
Theorem stopLiveMode_keeps_cursor_and_transcriptions
  cur (e : LiveEvent T) (s : LiveRefs T * AppState) :
  let s1 := stopLiveMode s in
  (isLive (snd s1) = false /\ sessions (snd s1) = sessions (snd s) /\
   localStorage (snd s1) = localStorage (snd s) /\
   audioSources (fst s1) = ∅ /\
   audioSources (fst s) ⊆ stopped (fst s1) /\
   nextStartTime (fst s1) = nextStartTime (fst s) /\
   transcription_input (fst s1) = transcription_input (fst s) /\
   transcription_output (fst s1) = transcription_output (fst s)) /\
  (forall audio buffer,
     audioData (ev_message e) = Normal audio ->
     truthy_ostring audio = true ->
     Base64.decode (default "" audio) ≫= decodeAudioData = Some buffer ->
     started (fst (onevent cur s1 e))
     = started (fst s)
       ++ [(t_max (nextStartTime (fst s)) (ev_currentTime e),
            frames_duration (frameCount buffer))]) /\
  (turnComplete (ev_message e) = false ->
   transcription_input (fst (onevent cur s1 e))
   = transcription_input (fst s) +:+ input_text e /\
   transcription_output (fst (onevent cur s1 e))
   = transcription_output (fst s) +:+ output_text e).
Proof.
  cbv zeta. split; [|split].
  - unfold stopLiveMode. cbn. repeat split; try done.
    intros x Hx. apply elem_of_union. now right.
  - intros audio buffer Haudio Htruthy Hdec.
    unfold onevent, onmessage_begin. rewrite Haudio, Htruthy, Hdec.
    unfold onmessage_resume. rewrite onmessage_rest_started. reflexivity.
  - intros Hturn.
    destruct (onevent_texts cur (stopLiveMode s) e Hturn) as (-> & -> & _).
    done.
Qed.

(** X27. A handler that throws in its audio part does nothing else.  The
    handler throws exactly when the model turn of its message has no
    parts, or the audio of the message does not decode; it has then added
    the texts of the message to the transcriptions and, in the second
    case, moved the cursor up to the clock, and that is all: no source is
    started or stopped, the cursor is not reset although the message may
    report an interruption, and no turn is stored and no transcription
    reset although the message may report the end of a turn. *)
Theorem failed_handler_only_accumulates
  cur (e : LiveEvent T) (s : LiveRefs T * AppState) :
  (snd (onmessage_begin cur e s) = Failed <->
   audioData (ev_message e) = Throw \/
   exists audio,
     audioData (ev_message e) = Normal audio /\
     truthy_ostring audio = true /\
     Base64.decode (default "" audio) ≫= decodeAudioData = None) /\
  (snd (onmessage_begin cur e s) = Failed ->
   onevent cur s e = fst (onmessage_begin cur e s) /\
   livestep cur {| live := s; suspended := [] |} (LDeliver e)
   = {| live := onevent cur s e; suspended := [] |} /\
   snd (onevent cur s e) = snd s /\
   started (fst (onevent cur s e)) = started (fst s) /\
   audioSources (fst (onevent cur s e)) = audioSources (fst s) /\
   stopped (fst (onevent cur s e)) = stopped (fst s) /\
   transcription_input (fst (onevent cur s e))
   = transcription_input (fst s) +:+ input_text e /\
   transcription_output (fst (onevent cur s e))
   = transcription_output (fst s) +:+ output_text e /\
   (nextStartTime (fst (onevent cur s e)) = nextStartTime (fst s) \/
    nextStartTime (fst (onevent cur s e))
    = t_max (nextStartTime (fst s)) (ev_currentTime e))).
Proof.
  split.
  - unfold onmessage_begin.
    destruct (audioData (ev_message e)) as [audio|]; cbn [snd].
    + destruct (truthy_ostring audio) eqn:Ht.
      * destruct (_ ≫= decodeAudioData) as [buffer|] eqn:Hd; cbn [snd].
        -- split; [discriminate|].
           intros [?|(a & [= <-] & _ & Hn)]; [discriminate|].
           rewrite Hd in Hn. discriminate.
        -- split; [|done]. intros _. right. now exists audio.
      * cbn [snd]. split; [discriminate|].
        intros [?|(a & [= <-] & Hn & _)]; [discriminate|].
        rewrite Ht in Hn. discriminate.
    + split; [|done]. intros _. now left.
  - intros Hfail.
    assert (Hev : onevent cur s e = fst (onmessage_begin cur e s)).
    { unfold onevent. destruct (onmessage_begin cur e s) as [s' p].
      cbn [snd] in Hfail. now rewrite Hfail. }
    assert (Hne : snd (onmessage_begin cur e s) <> Finished)
      by (rewrite Hfail; discriminate).
    destruct (onmessage_begin_kept cur e s Hne)
      as (Hs & Hst & Ha & Hsp & Hi & Ho & Hc).
    destruct (accumulate_texts e (fst s)) as [Hi' Ho'].
    rewrite Hev. split; [done|]. split.
    + cbn [livestep live suspended].
      destruct (onmessage_begin cur e s) as [s' p].
      cbn [snd] in Hfail. now rewrite Hfail.
    + rewrite Hs, Hst, Ha, Hsp, Hi, Ho, Hi', Ho'. now repeat split.
Qed.

End MoreLiveFacts.

(* --------------------------------------------------------------------- *)
(** ** Playback and turn completion                                       *)
(* --------------------------------------------------------------------- *)

Section PlaybackFacts.
Context {T : Type} {clock : AudioClock T} {laws : AudioClockLaws T} {env : Env}.

(** X25. Playback is sequential.  In every run of a live session that
    delivers no message reporting an interruption (deliveries, resumptions
    of waiting handlers, ends of sources and stops in any order), the
    sources started are exactly those of the handlers resumed, in that
    order and each with the duration of its decoded buffer; the first
    starts at or after the cursor and each following one at or after the
    start of the one before plus that one's duration; and the cursor
    never moves back.  For messages handled one by one these are the
    buffers of the messages whose audio decodes, in arrival order.  A
    resumed handler starts its buffer exactly at the cursor and moves the
    cursor by the duration of the buffer.  When
    a handler gets to the interruption check with a message that reports
    one, the cursor is reset to zero, every source of the set is stopped
    and the set is emptied. *)
Theorem playback_is_sequential cur :
  (forall (steps : list (LiveStep T)) (st : LiveState T),
     Forall no_interruption steps ->
     Forall (fun h => interrupted (ev_message (sus_event h)) = false)
            (suspended st) ->
     (exists new,
        started (fst (live (liverun cur steps st)))
        = started (fst (live st)) ++ new /\
        map snd new
        = map (fun buffer => frames_duration (frameCount buffer))
              (resumed (map sus_buffer (suspended st)) steps) /\
        sequential (nextStartTime (fst (live st))) new /\
        no_overlap new) /\
     (forall steps1 steps2, steps = steps1 ++ steps2 ->
        t_le (nextStartTime (fst (live (liverun cur steps1 st))))
             (nextStartTime (fst (live (liverun cur steps st)))))) /\
  (forall (evs : list (LiveEvent T)) (s : LiveRefs T * AppState),
     Forall (fun e => interrupted (ev_message e) = false) evs ->
     exists new,
       started (fst (onmessages cur evs s)) = started (fst s) ++ new /\
       map snd new
       = map (fun buffer => frames_duration (frameCount buffer))
             (omap awaited evs) /\
       sequential (nextStartTime (fst s)) new /\
       no_overlap new /\
       t_le (nextStartTime (fst s)) (nextStartTime (fst (onmessages cur evs s)))) /\
  (forall (st : LiveState T) h rest,
     suspended st = h :: rest ->
     interrupted (ev_message (sus_event h)) = false ->
     started (fst (live (livestep cur st LResume)))
     = started (fst (live st))
       ++ [(nextStartTime (fst (live st)),
            frames_duration (frameCount (sus_buffer h)))] /\
     nextStartTime (fst (live (livestep cur st LResume)))
     = t_add (nextStartTime (fst (live st)))
             (frames_duration (frameCount (sus_buffer h)))) /\
  (forall (e : LiveEvent T) (s : LiveRefs T * AppState),
     interrupted (ev_message e) = true ->
     nextStartTime (fst (onmessage_rest cur e s)) = t_zero /\
     audioSources (fst (onmessage_rest cur e s)) = ∅ /\
     stopped (fst (onmessage_rest cur e s))
     = stopped (fst s) ∪ audioSources (fst s)).
Proof.
  split; [|split; [|split]].
  - intros steps st Hall Hq. split.
    + destruct (liverun_scheduled cur steps st Hall Hq)
        as (_ & new & Hnew & Hdur & Hseq & _).
      exists new. split; [exact Hnew|]. split; [exact Hdur|].
      split; [exact Hseq|]. exact (sequential_no_overlap _ _ Hseq).
    + intros steps1 steps2 ->. apply Forall_app in Hall as [Hall1 Hall2].
      rewrite liverun_app.
      destruct (liverun_scheduled cur steps1 st Hall1 Hq) as (Hq1 & _).
      destruct (liverun_scheduled cur steps2 (liverun cur steps1 st) Hall2 Hq1)
        as (_ & new & _ & _ & _ & _ & Hle).
      exact Hle.
  - intros evs s Hall.
    destruct (liverun_scheduled cur (one_by_one evs)
                {| live := s; suspended := [] |}
                (no_interruption_one_by_one evs Hall) (List.Forall_nil _))
      as (_ & new & Hnew & Hdur & Hseq & _ & Hle).
    rewrite onmessages_liverun in Hnew, Hle.
    cbn [live suspended map] in Hnew, Hdur, Hseq, Hle.
    rewrite resumed_one_by_one in Hdur.
    exists new. split; [exact Hnew|]. split; [exact Hdur|].
    split; [exact Hseq|]. split; [exact (sequential_no_overlap _ _ Hseq)|].
    exact Hle.
  - intros st h rest Hq Hint.
    destruct (livestep_resume cur st h rest Hq Hint) as (Hst & Hnext & _).
    split; [exact Hst|exact Hnext].
  - intros e s Hint. unfold onmessage_rest.
    destruct (handleTurnComplete_audio cur (ev_message e) (ev_uid e) (ev_mid e)
                (ev_t1 e) (ev_t2 e) (ev_t3 e)
                (handleInterrupted (ev_message e) (fst s), snd s))
      as (-> & _ & -> & ->).
    unfold handleInterrupted. rewrite Hint. done.
Qed.

End PlaybackFacts.

Section TurnCompletion.
Context {T : Type} {clock : AudioClock T} {env : Env}.

Lemma appendTurn_sessions cur input output uid mid t1 t2 t3 st :
  sessions (appendTurn cur input output uid mid t1 t2 t3 st)
  = map (turnUpdate cur (userTurnMessage uid input t1)
                    (modelTurnMessage mid output t2) t3) (sessions st).
Proof. apply sessions_setSessions. Qed.

Lemma or_else_content (a b : string) :
  or_else a b = if decide (a = "") then b else a.
Proof.
  unfold or_else, truthy_string.
  destruct (String.eqb_spec a ""), (decide (a = "")); done.
Qed.

(** Lines 230-244 on a message that reports the end of a turn. *)
Lemma onmessage_rest_turn cur (e : LiveEvent T) (s : LiveRefs T * AppState) :
  turnComplete (ev_message e) = true ->
  turn_stored cur e (transcription_input (fst s)) (transcription_output (fst s))
              (snd s) (snd (onmessage_rest cur e s))
              (fst (onmessage_rest cur e s)).
Proof.
  intros Hturn. unfold turn_stored, onmessage_rest, handleTurnComplete.
  rewrite Hturn. cbn [fst snd].
  destruct (handleInterrupted_transcription (ev_message e) (fst s)) as [-> ->].
  split.
  - intros Hne.
    assert (Ht : truthy_string (transcription_input (fst s))
                 || truthy_string (transcription_output (fst s)) = true).
    { apply orb_true_iff.
      destruct Hne as [Hne|Hne]; [left|right]; now apply truthy_string_true. }
    rewrite Ht. cbn [fst snd]. rewrite appendTurn_sessions.
    split; [|split; [|split; [|split]]].
    + intros s0 Hf. rewrite find_session_map by apply s_id_turnUpdate.
      rewrite Hf. eexists. split; [reflexivity|].
      unfold turnUpdate. now rewrite (find_session_current _ _ _ Hf).
    + intros Hnone. apply (find_session_none_map cur); [exact Hnone|].
      intros s0 Hc. unfold turnUpdate. now rewrite Hc.
    + apply length_map.
    + intros i s0 Hi Hc. rewrite list_lookup_fmap, Hi. cbn.
      unfold turnUpdate. now rewrite Hc.
    + cbn [role content userTurnMessage modelTurnMessage].
      rewrite !or_else_content. done.
  - intros [Hi Ho].
    apply truthy_string_false in Hi, Ho. rewrite Hi, Ho. cbn [orb fst snd].
    reflexivity.
Qed.

(** X26. The end of a turn.  When the handler of a message that reports
    the end of a turn gets to that check (at once when the message has no
    audio, when the handler is resumed when it has): if one of the two
    transcriptions, as they are at that moment, is non-empty, the session
    the handler addresses gets exactly two more messages, a user message
    (the input transcription, or [[Audio]] if empty) followed by a model
    message (the output transcription, or [[Audio Response]] if empty),
    every other session is unchanged, as are all sessions when no session
    has the id the handler addresses, and both transcriptions are reset to
    empty; if both transcriptions are empty, the store is unchanged.  For
    a message whose handler is resumed at once, the transcriptions are
    those before the message with the texts of the message added. *)
Theorem turn_completion_appends_two_messages cur (e : LiveEvent T) :
  turnComplete (ev_message e) = true ->
  (forall (st : LiveState T) audio,
     audioData (ev_message e) = Normal audio ->
     truthy_ostring audio = false ->
     let r1 := accumulate (ev_message e) (fst (live st)) in
     let st' := livestep cur st (LDeliver e) in
     suspended st' = suspended st /\
     turn_stored cur e (transcription_input r1) (transcription_output r1)
                 (snd (live st)) (snd (live st')) (fst (live st'))) /\
  (forall (st : LiveState T) buffer rest,
     suspended st = {| sus_event := e; sus_buffer := buffer |} :: rest ->
     let st' := livestep cur st LResume in
     suspended st' = rest /\
     turn_stored cur e (transcription_input (fst (live st)))
                 (transcription_output (fst (live st)))
                 (snd (live st)) (snd (live st')) (fst (live st'))) /\
  (forall (s : LiveRefs T * AppState),
     snd (onmessage_begin cur e s) <> Failed ->
     let r1 := accumulate (ev_message e) (fst s) in
     turn_stored cur e (transcription_input r1) (transcription_output r1)
                 (snd s) (snd (onevent cur s e)) (fst (onevent cur s e))).
Proof.
  intros Hturn. split; [|split].
  - intros st audio Haudio Hfalsy. cbv zeta.
    cbn [livestep]. unfold onmessage_begin. rewrite Haudio, Hfalsy.
    cbn [live suspended]. split; [done|].
    exact (onmessage_rest_turn cur e
             (accumulate (ev_message e) (fst (live st)), snd (live st)) Hturn).
  - intros st buffer rest Hq. cbv zeta. cbn [livestep]. rewrite Hq.
    cbn [live suspended sus_event sus_buffer]. split; [done|].
    unfold onmessage_resume.
    exact (onmessage_rest_turn cur e
             (scheduleBuffer buffer (fst (live st)), snd (live st)) Hturn).
  - intros s Hok. cbv zeta. unfold onevent.
    unfold onmessage_begin in *.
    destruct (audioData (ev_message e)) as [audio|]; [|now elim Hok].
    destruct (truthy_ostring audio).
    + destruct (_ ≫= decodeAudioData) as [buffer|]; [|now elim Hok].
      unfold onmessage_resume. cbn [fst snd].
      exact (onmessage_rest_turn cur e
               (scheduleBuffer buffer
                  (with_nextStartTime
                     (t_max (nextStartTime (accumulate (ev_message e) (fst s)))
                            (ev_currentTime e))
                     (accumulate (ev_message e) (fst s))), snd s) Hturn).
    + exact (onmessage_rest_turn cur e
               (accumulate (ev_message e) (fst s), snd s) Hturn).
Qed.

End TurnCompletion.

(* --------------------------------------------------------------------- *)
(** ** Audio samples                                                      *)
(* --------------------------------------------------------------------- *)

Section PcmFacts.
Import Base64 Pcm.

Lemma decode_encode_bytes (bytes : list Byte.byte) :
  Base64.decode (Base64.encode bytes) = Some bytes.
Proof.
  unfold decode, encode. rewrite encode_loop.
  change ("" +:+ ?s) with s. rewrite atob_btoa.
  cbn [mbind option_bind]. f_equal.
  rewrite list_ascii_of_string_of_list_ascii.
  apply bytes_of_ascii_inv.
Qed.

Lemma Z_of_byte_range (b : Byte.byte) : (0 <= Z_of_byte b < 256)%Z.
Proof.
  unfold Z_of_byte. pose proof (Byte.to_N_bounded b). lia.
Qed.

Lemma Z_of_byte_of_Z (z : Z) : Z_of_byte (byte_of_Z z) = (z mod 256)%Z.
Proof.
  unfold Z_of_byte, byte_of_Z.
  assert (Hm : (0 <= z mod 256 < 256)%Z) by (apply Z.mod_pos_bound; lia).
  destruct (Byte.of_N (Z.to_N (z mod 256))) as [b|] eqn:E.
  - apply Byte.to_of_N in E. cbn [from_option id]. rewrite E. lia.
  - apply Byte.of_N_None_iff in E. lia.
Qed.

Lemma toInt16_range (x : Q) : int16_range (toInt16 x).
Proof.
  unfold int16_range, toInt16.
  pose proof (Z.mod_pos_bound (truncate x) 65536 eq_refl) as Hm.
  destruct (Z.ltb_spec (truncate x mod 65536) 32768); lia.
Qed.

Lemma int16_of_bytes_range order b0 b1 :
  int16_range (int16_of_bytes order b0 b1).
Proof.
  unfold int16_range, int16_of_bytes.
  pose proof (Z_of_byte_range b0). pose proof (Z_of_byte_range b1).
  destruct order; cbv zeta beta iota;
    match goal with |- context [Z.ltb ?u 32768] =>
      destruct (Z.ltb_spec u 32768) end; lia.
Qed.

Lemma int16_of_bytes_inv order (v : Z) (rest : list Byte.byte) :
  int16_range v ->
  int16View order (int16_bytes order v ++ rest) = v :: int16View order rest.
Proof.
  intros Hv. unfold int16_range in Hv.
  assert (Hu : (if (v mod 256 + 256 * ((v / 256) mod 256) <? 32768)%Z
                then (v mod 256 + 256 * ((v / 256) mod 256))%Z
                else (v mod 256 + 256 * ((v / 256) mod 256) - 65536)%Z) = v).
  { destruct (Z.ltb_spec (v mod 256 + 256 * ((v / 256) mod 256)) 32768);
      Z.to_euclidean_division_equations; lia. }
  destruct order; cbn [int16_bytes app int16View]; f_equal;
    unfold int16_of_bytes; rewrite !Z_of_byte_of_Z; exact Hu.
Qed.

Lemma int16View_uint8View order (l : list Z) :
  Forall int16_range l -> int16View order (uint8View order l) = l.
Proof.
  induction 1 as [|v l Hv _ IH]; [done|].
  unfold uint8View. cbn [flat_map]. fold (uint8View order l).
  rewrite int16_of_bytes_inv by exact Hv. now rewrite IH.
Qed.

Lemma uint8View_length order (l : list Z) :
  length (uint8View order l) = (2 * length l)%nat.
Proof.
  induction l as [|v l IH]; [done|].
  unfold uint8View in *. cbn [flat_map]. rewrite length_app, IH.
  destruct order; cbn; lia.
Qed.

Lemma int16View_length_upto order (n : nat) (data : list Byte.byte) :
  (length data <= n)%nat ->
  length (int16View order data) = (length data / 2)%nat.
Proof.
  revert data. induction n as [|n IH]; intros data Hn.
  - destruct data; [done|]. cbn in Hn. lia.
  - destruct data as [|b0 [|b1 rest]]; [done|done|].
    cbn [int16View length] in *. rewrite IH by lia.
    change (S (S (length rest))) with (2 + length rest)%nat.
    replace (2 + length rest)%nat with (length rest + 1 * 2)%nat by lia.
    rewrite Nat.div_add by lia. lia.
Qed.

Lemma int16View_length order (data : list Byte.byte) :
  length (int16View order data) = (length data / 2)%nat.
Proof. exact (int16View_length_upto order (length data) data (le_n _)). Qed.

Lemma int16View_range order (n : nat) (data : list Byte.byte) :
  (length data <= n)%nat -> Forall int16_range (int16View order data).
Proof.
  revert data. induction n as [|n IH]; intros data Hn.
  - destruct data; [constructor|]. cbn in Hn. lia.
  - destruct data as [|b0 [|b1 rest]]; [constructor|constructor|].
    cbn [int16View length] in *. constructor.
    + apply int16_of_bytes_range.
    + apply IH. lia.
Qed.

(** X21. What the microphone handler sends can be read back: the blob of
    a buffer is the base64 text of two bytes per sample, and the 16-bit
    view of these bytes gives, sample by sample, the integers the handler
    stored, on either byte order.  Fed to the decoder of the playback
    side, a non-empty buffer gives one frame per sample, each the stored
    integer divided by 32768. *)
Theorem captured_audio_reads_back (order : ByteOrder) (inputData : list Q) :
  let int16 := map (fun x => toInt16 (x * 32768)%Q) inputData in
  blob_mimeType (pcmBlob order inputData) = Some "audio/pcm;rate=16000" /\
  exists data,
    Base64.decode (default "" (blob_data (pcmBlob order inputData)))
    = Some data /\
    length data = (2 * length inputData)%nat /\
    int16View order data = int16 /\
    (inputData <> [] ->
     channelData order data = Some (map (fun v => (v # 32768)%Q) int16) /\
     decodeAudioData data = Some {| frameCount := length inputData |}).
Proof.
  cbv zeta. split; [reflexivity|].
  set (int16 := map (fun x => toInt16 (x * 32768)%Q) inputData).
  exists (uint8View order int16).
  assert (Hr : Forall int16_range int16).
  { subst int16. apply Forall_map. apply Forall_forall.
    intros x _. apply toInt16_range. }
  assert (Hlen : length (uint8View order int16) = (2 * length inputData)%nat).
  { rewrite uint8View_length. subst int16. now rewrite length_map. }
  assert (Hodd : Nat.odd (length (uint8View order int16)) = false).
  { rewrite Hlen. rewrite <- Nat.negb_even, Nat.even_mul. reflexivity. }
  split; [apply decode_encode_bytes|]. split; [exact Hlen|].
  split; [now apply int16View_uint8View|].
  intros Hne.
  assert (Hpos : (length inputData =? 0)%nat = false).
  { apply Nat.eqb_neq. destruct inputData; [done|]. cbn. lia. }
  split.
  - unfold channelData. rewrite Hodd.
    rewrite (int16View_uint8View order int16 Hr).
    subst int16. rewrite length_map. now rewrite Hpos.
  - unfold decodeAudioData. rewrite Hodd, Hlen.
    replace (2 * length inputData)%nat with (length inputData * 2)%nat by lia.
    rewrite Nat.div_mul by lia. now rewrite Hpos.
Qed.

(** X22. The decoder of the playback side, sample by sample: it fills one
    frame per pair of bytes, every sample lies between -1 (included) and 1
    (excluded), and it throws exactly when the frame count of the buffer
    model says so: on an odd number of bytes and on less than two
    bytes. *)
Theorem decoded_samples_are_in_range (order : ByteOrder)
  (data : list Byte.byte) :
  option_map (@length Q) (channelData order data)
  = option_map frameCount (decodeAudioData data) /\
  (channelData order data = None <->
   Nat.odd (length data) = true \/ (length data < 2)%nat) /\
  (forall samples, channelData order data = Some samples ->
     length data = (2 * length samples)%nat /\
     Forall (fun x => (-1 <= x)%Q /\ (x < 1)%Q) samples).
Proof.
  unfold channelData, decodeAudioData.
  rewrite int16View_length.
  destruct (Nat.odd (length data)) eqn:Hodd.
  - split; [done|]. split; [split; [now left|done]|]. discriminate.
  - assert (Heven : length data = (2 * (length data / 2))%nat).
    { assert (He : Nat.even (length data) = true)
        by now rewrite <- Nat.negb_odd, Hodd.
      apply Nat.even_spec in He as [k Hk]. rewrite Hk.
      replace (2 * k)%nat with (k * 2)%nat by lia.
      rewrite Nat.div_mul by lia. lia. }
    destruct (Nat.eqb_spec (length data / 2) 0) as [Hz|Hz].
    + split; [done|]. split; [|discriminate].
      split; [intros _; right; lia|done].
    + cbn [option_map]. rewrite length_map, int16View_length.
      split; [done|]. split.
      * split; [discriminate|]. intros [H|H]; [discriminate|lia].
      * intros samples [= <-]. rewrite length_map, int16View_length.
        split; [exact Heven|].
        apply Forall_map.
        eapply Forall_impl; [exact (int16View_range order _ data (le_n _))|].
        intros v Hv. unfold int16_range in Hv.
        unfold Qle, Qlt. cbn. lia.
Qed.

Lemma truncate_scaled (x : Q) :
  truncate (x * 32768)%Q = Z.quot (Qnum x * 32768) (Z.pos (Qden x)).
Proof.
  unfold truncate. cbn [Qmult Qnum Qden]. now rewrite Pos.mul_1_r.
Qed.

(** X23. What the microphone handler stores for a sample [x].  Inside the
    nominal range, from -1 up to but not including 1, it stores
    [x * 32768] without its fraction, less than one step of 1/32768 away
    from [x].  At full scale and up to 2 the stored integer is 65536 less
    than that and so negative: a sample of exactly 1 is stored as
    -32768. *)
Theorem sample_at_full_scale_wraps (x : Q) :
  ((-1 <= x)%Q -> (x < 1)%Q ->
   toInt16 (x * 32768)%Q = truncate (x * 32768)%Q /\
   ((toInt16 (x * 32768)%Q - 1) # 32768 < x)%Q /\
   (x < (toInt16 (x * 32768)%Q + 1) # 32768)%Q) /\
  ((1 <= x)%Q -> (x < 2)%Q ->
   toInt16 (x * 32768)%Q = (truncate (x * 32768)%Q - 65536)%Z /\
   (-32768 <= toInt16 (x * 32768)%Q < 0)%Z) /\
  toInt16 (1 * 32768)%Q = (-32768)%Z.
Proof.
  split; [|split; [|reflexivity]].
  - unfold Qle, Qlt, toInt16. rewrite truncate_scaled.
    destruct x as [n d]. cbn [Qnum Qden]. intros Hlo Hhi.
    assert (Hq : (-32768 <= Z.quot (n * 32768) (Z.pos d) < 32768)%Z /\
                 ((Z.quot (n * 32768) (Z.pos d) - 1) * Z.pos d < n * 32768)%Z /\
                 (n * 32768 < (Z.quot (n * 32768) (Z.pos d) + 1) * Z.pos d)%Z).
    { Z.to_euclidean_division_equations. nia. }
    destruct Hq as (Hr & Hl & Hu).
    assert (Hm : (Z.quot (n * 32768) (Z.pos d) mod 65536
                  = if (Z.quot (n * 32768) (Z.pos d) <? 0)%Z
                    then Z.quot (n * 32768) (Z.pos d) + 65536
                    else Z.quot (n * 32768) (Z.pos d))%Z).
    { destruct (Z.ltb_spec (Z.quot (n * 32768) (Z.pos d)) 0);
        Z.to_euclidean_division_equations; lia. }
    rewrite Hm.
    destruct (Z.ltb_spec (Z.quot (n * 32768) (Z.pos d)) 0).
    + destruct (Z.ltb_spec (Z.quot (n * 32768) (Z.pos d) + 65536) 32768);
        [lia|].
      replace (Z.quot (n * 32768) (Z.pos d) + 65536 - 65536)%Z
        with (Z.quot (n * 32768) (Z.pos d)) by lia.
      split; [done|]. cbn [Qnum Qden]. lia.
    + destruct (Z.ltb_spec (Z.quot (n * 32768) (Z.pos d)) 32768); [|lia].
      split; [done|]. cbn [Qnum Qden]. lia.
  - unfold Qle, Qlt, toInt16. rewrite truncate_scaled.
    destruct x as [n d]. cbn [Qnum Qden]. intros Hlo Hhi.
    assert (Hq : (32768 <= Z.quot (n * 32768) (Z.pos d) < 65536)%Z).
    { Z.to_euclidean_division_equations. nia. }
    assert (Hm : (Z.quot (n * 32768) (Z.pos d) mod 65536
                  = Z.quot (n * 32768) (Z.pos d))%Z)
      by (apply Z.mod_small; lia).
    rewrite Hm.
    destruct (Z.ltb_spec (Z.quot (n * 32768) (Z.pos d)) 32768); lia.
Qed.

End PcmFacts.

(* --------------------------------------------------------------------- *)
(** ** Speech for a reply                                                 *)
(* --------------------------------------------------------------------- *)

Lemma frames_of_even (data : list Byte.byte) :
  data <> [] -> Nat.odd (length data) = false ->
  decodeAudioData data = Some {| frameCount := length data / 2 |}.
Proof.
  intros Hne Hodd. unfold decodeAudioData. rewrite Hodd.
  destruct (Nat.eqb_spec (length data / 2) 0) as [Hz|_]; [|done].
  exfalso. destruct data as [|b0 [|b1 data]]; [done|discriminate|].
  cbn [length] in Hz.
  change (S (S (length data))) with (2 + length data)%nat in Hz.
  replace (2 + length data)%nat with (length data + 1 * 2)%nat in Hz by lia.
  rewrite Nat.div_add in Hz by lia. lia.
Qed.

Lemma decodeAudioData_some (data : list Byte.byte) (buffer : AudioBuffer) :
  decodeAudioData data = Some buffer ->
  data <> [] /\ Nat.odd (length data) = false /\
  buffer = {| frameCount := length data / 2 |}.
Proof.
  unfold decodeAudioData. destruct (Nat.odd (length data)); [discriminate|].
  destruct (Nat.eqb_spec (length data / 2) 0) as [Hz|Hz]; [discriminate|].
  intros [= <-]. split; [|done]. intros ->. now apply Hz.
Qed.

Lemma app_one_neq {A} (l : list A) (x : A) : l ++ [x] <> l.
Proof.
  intros E. apply (f_equal (@length A)) in E.
  rewrite length_app in E. cbn in E. lia.
Qed.

(** X24. Reading a reply aloud.  The request names the voice the live mode
    uses for the same language, and the fallback voice is never needed.
    The audio is the data of the inline part, if any, of the first part of
    the first candidate of the answer, whatever else that part and the
    answer hold (a text, a media type, more parts, more candidates).  One
    buffer is played exactly when the request is answered with audio that
    is the base64 text of a non-empty byte array of even length, and the
    buffer has half as many frames as the array has bytes; in every other
    case (a rejected request, no such data, text that is not base64, an
    odd or zero number of bytes) nothing is played and nothing is
    thrown. *)
Theorem reply_is_spoken_with_the_live_voice
  (generateContent : SpeechRequest -> Outcome GenerateContentResponse)
  (text : string) (language : Language) (played : list AudioBuffer) :
  speech_voiceName (speechRequest text language) = getVoiceForLanguage language /\
  speech_voiceName (speechRequest text language) = voiceMap language /\
  (forall response part rest blob,
     generateContent (speechRequest text language) = Resolved response ->
     first_candidate_parts response = Some (part :: rest) ->
     part_inlineData part = Some blob ->
     generateTTS generateContent text language = Resolved (blob_data blob)) /\
  (forall response part rest blob data,
     generateContent (speechRequest text language) = Resolved response ->
     first_candidate_parts response = Some (part :: rest) ->
     part_inlineData part = Some blob ->
     blob_data blob = Some (Base64.encode data) ->
     data <> [] -> Nat.odd (length data) = false ->
     playResponseAudio generateContent text language played
     = played ++ [ {| frameCount := length data / 2 |} ]) /\
  (forall buffer,
     playResponseAudio generateContent text language played
     = played ++ [buffer] <->
     exists base64Audio data,
       generateTTS generateContent text language
       = Resolved (Some base64Audio) /\
       Base64.decode base64Audio = Some data /\
       data <> [] /\ Nat.odd (length data) = false /\
       buffer = {| frameCount := length data / 2 |}) /\
  (playResponseAudio generateContent text language played = played \/
   exists buffer,
     playResponseAudio generateContent text language played
     = played ++ [buffer]).
Proof.
  split; [now destruct language|]. split; [now destruct language|].
  assert (Htts : forall response part rest blob,
    generateContent (speechRequest text language) = Resolved response ->
    first_candidate_parts response = Some (part :: rest) ->
    part_inlineData part = Some blob ->
    generateTTS generateContent text language = Resolved (blob_data blob)).
  { intros response part rest blob Hres Hparts Hinline.
    unfold generateTTS. rewrite Hres, Hparts.
    cbn [mbind option_bind head]. now rewrite Hinline. }
  assert (Hplay : forall base64Audio data,
    generateTTS generateContent text language = Resolved (Some base64Audio) ->
    Base64.decode base64Audio = Some data ->
    data <> [] -> Nat.odd (length data) = false ->
    playResponseAudio generateContent text language played
    = played ++ [ {| frameCount := length data / 2 |} ]).
  { intros base64Audio data Hgen Hdec Hne Hodd.
    unfold playResponseAudio. rewrite Hgen.
    assert (Ht : truthy_ostring (Some base64Audio) = true).
    { cbn [truthy_ostring]. apply truthy_string_true. intros ->.
      vm_compute in Hdec. injection Hdec as <-. done. }
    rewrite Ht. cbn [from_option id]. rewrite Hdec. cbn [mbind option_bind].
    now rewrite (frames_of_even data Hne Hodd). }
  split; [exact Htts|]. split; [|split].
  - intros response part rest blob data Hres Hparts Hinline Hdata Hne Hodd.
    apply (Hplay (Base64.encode data) data); try done.
    + rewrite (Htts response part rest blob Hres Hparts Hinline). now rewrite Hdata.
    + apply decode_encode_bytes.
  - intros buffer. split.
    + unfold playResponseAudio.
      destruct (generateTTS generateContent text language)
        as [[base64Audio|]|error] eqn:Hgen;
        cbn [truthy_ostring];
        try (intros E; symmetry in E; now apply app_one_neq in E).
      destruct (truthy_string base64Audio);
        [|intros E; symmetry in E; now apply app_one_neq in E].
      cbn [from_option id].
      destruct (Base64.decode base64Audio) as [data|] eqn:Hdec;
        cbn [mbind option_bind];
        [|intros E; symmetry in E; now apply app_one_neq in E].
      destruct (decodeAudioData data) as [buffer'|] eqn:Hbuf;
        [|intros E; symmetry in E; now apply app_one_neq in E].
      intros E. apply app_inv_head in E. injection E as <-.
      destruct (decodeAudioData_some data buffer' Hbuf) as (Hne & Hodd & ->).
      exists base64Audio, data. now repeat split.
    + intros (base64Audio & data & Hgen & Hdec & Hne & Hodd & ->).
      now apply (Hplay base64Audio data).
  - unfold playResponseAudio.
    destruct (generateTTS generateContent text language) as [audio|error];
      [|now left].
    destruct (truthy_ostring audio); [|now left].
    destruct (_ ≫= decodeAudioData) as [buffer|]; [|now left].
    right. now exists buffer.
Qed.

(* --------------------------------------------------------------------- *)
(** ** The live handler when its audio part throws                        *)
(* --------------------------------------------------------------------- *)

(** C4, at the input the code fails on.  While a buffer is playing (the
    source 0, started at 10 for three frames, the cursor at 13), a message
    that reports an interruption and whose model turn has no parts makes
    the handler throw at line 217, before the interruption check of lines
    230-234: the cursor is not reset to zero, the source is not stopped
    and stays in the set.  The same happens when the audio of the
    interrupting message does not decode (line 220).  The same
    interruption in a message without a model turn resets the cursor,
    stops the source and empties the set. *)
Theorem interruption_is_lost_when_the_audio_part_throws :
  (interrupted interruptionWithoutParts = true /\
   audioData interruptionWithoutParts = Throw /\
   nextStartTime (fst (whilePlaying interruptionWithoutParts)) = 13%Z /\
   elements (audioSources (fst (whilePlaying interruptionWithoutParts)))
   = [0%nat] /\
   elements (stopped (fst (whilePlaying interruptionWithoutParts))) = []) /\
  (interrupted interruptionWithOddAudio = true /\
   audioData interruptionWithOddAudio = Normal (Some "AAAA") /\
   Base64.decode "AAAA" ≫= decodeAudioData = None /\
   nextStartTime (fst (whilePlaying interruptionWithOddAudio)) = 13%Z /\
   elements (audioSources (fst (whilePlaying interruptionWithOddAudio)))
   = [0%nat] /\
   elements (stopped (fst (whilePlaying interruptionWithOddAudio))) = []) /\
  (interrupted plainInterruption = true /\
   nextStartTime (fst (whilePlaying plainInterruption)) = 0%Z /\
   elements (audioSources (fst (whilePlaying plainInterruption))) = [] /\
   elements (stopped (fst (whilePlaying plainInterruption))) = [0%nat]).
Proof.
  split; [|split]; repeat split; vm_compute; reflexivity.
Qed.

(** C5, at the input the code fails on.  After the user has been heard
    (the input transcription holds [good morning]), a message that
    reports the end of the turn and whose model turn has no parts makes
    the handler throw at line 217, before the turn completion of lines
    236-244: no message is appended to the session and the transcription
    is not reset.  The same happens when the audio of the message does
    not decode (line 220).  The same end of turn in a message without a
    model turn appends the two messages and resets the transcription. *)
Theorem turn_is_not_stored_when_the_audio_part_throws :
  (turnComplete turnEndWithoutParts = true /\
   audioData turnEndWithoutParts = Throw /\
   transcription_input heardRefs = "good morning" /\
   snd (afterHearing turnEndWithoutParts) = oneSession /\
   transcription_input (fst (afterHearing turnEndWithoutParts))
   = "good morning") /\
  (turnComplete turnEndWithOddAudio = true /\
   snd (afterHearing turnEndWithOddAudio) = oneSession /\
   transcription_input (fst (afterHearing turnEndWithOddAudio))
   = "good morning") /\
  (turnComplete plainTurnEnd = true /\
   find_session (Some "s1") (sessions (snd (afterHearing plainTurnEnd)))
   = Some {| s_id := "s1"; title := "New conversation";
             messages := messages firstSession
                         ++ [userTurnMessage "u" "good morning" 0;
                             modelTurnMessage "m" "" 0];
             updatedAt := 0; isKidMode := Some false |} /\
   transcription_input (fst (afterHearing plainTurnEnd)) = "").
Proof.
  split; [|split]; repeat split; vm_compute; reflexivity.
Qed.

(* --------------------------------------------------------------------- *)
(** ** The model on concrete inputs                                       *)
(* --------------------------------------------------------------------- *)

Example btoa_hello : Base64.btoa "Hello" = "SGVsbG8=".
Proof. reflexivity. Qed.

Example btoa_two_pads : Base64.btoa "Hell" = "SGVsbA==".
Proof. reflexivity. Qed.

Example atob_skips_whitespace : Base64.atob "SGVs bG8=" = Some "Hello".
Proof. reflexivity. Qed.

Example atob_without_padding : Base64.atob "SGVsbG8" = Some "Hello".
Proof. reflexivity. Qed.

Example atob_bad_length : Base64.atob "SGVsb" = None.
Proof. reflexivity. Qed.

Example atob_bad_character : Base64.atob "SGVsbG8=!" = None.
Proof. reflexivity. Qed.

Example encode_bytes : Base64.encode [Byte.xff; Byte.x00; Byte.x10] = "/wAQ".
Proof. reflexivity. Qed.

Example decode_bytes :
  Base64.decode "/wAQ" = Some [Byte.xff; Byte.x00; Byte.x10].
Proof. reflexivity. Qed.

Example decodeAudioData_odd : decodeAudioData [Byte.x00; Byte.x01; Byte.x02] = None.
Proof. reflexivity. Qed.

Example decodeAudioData_frames :
  decodeAudioData [Byte.x00; Byte.x01; Byte.x02; Byte.x03]
  = Some {| frameCount := 2 |}.
Proof. reflexivity. Qed.

Example split_data_url :
  split_on ","%char "data:image/png;base64,iVBORw0KGgo="
  = ["data:image/png;base64"; "iVBORw0KGgo="].
Proof. reflexivity. Qed.

Example split_without_comma : split_on ","%char "data:" !! 1%nat = None.
Proof. reflexivity. Qed.

Example trim_no_break_space :
  trim (String (ascii_of_nat 160) "a" +:+ String (ascii_of_nat 160) "") = "a".
Proof. reflexivity. Qed.

Example send_no_break_space :
  handleSend false {| ci_text := String (ascii_of_nat 160) "";
                      ci_attachments := [] |}
  = ({| ci_text := String (ascii_of_nat 160) ""; ci_attachments := [] |}, None).
Proof. reflexivity. Qed.

Example trim_both_ends : trim "  a b  " = "a b".
Proof. reflexivity. Qed.

Example send_blank_text :
  handleSend false {| ci_text := "   "; ci_attachments := [] |}
  = ({| ci_text := "   "; ci_attachments := [] |}, None).
Proof. reflexivity. Qed.

Example send_while_loading :
  snd (handleSend true {| ci_text := "Hi"; ci_attachments := [] |}) = None.
Proof. reflexivity. Qed.

Example time_label_utc : hh_mm 0 1700000000000 = "22:13".
Proof. vm_compute. reflexivity. Qed.

Example time_label_cet : hh_mm 60 1700000000000 = "23:13".
Proof. vm_compute. reflexivity. Qed.

(** A send that streams "Hel", an empty text, a chunk without text and
    "lo" ends with the welcome message, the user message and the finished
    answer, and with the title taken from the text. *)
Example send_hello :
  map (fun s => (title s, map (fun m => (role m, content m, isStreaming m))
                              (messages s)))
      (sessions (handleSendMessage (env := sampleEnv) helloService "Hi" []
                   "u1" "m2" 2000 2001 2002 oneSession))
  = [("Hi", [(MODEL, "Hello! How can I help you today?", None);
             (USER, "Hi", None);
             (MODEL, "Hello", Some false)])].
Proof. vm_compute. reflexivity. Qed.

(** The same send on a stream that throws after "Hel". *)
Example send_broken :
  map (fun s => map (fun m => (role m, content m, isStreaming m)) (messages s))
      (sessions (handleSendMessage (env := sampleEnv) brokenService "Hi" []
                   "u1" "m2" 2000 2001 2002 oneSession))
  = [[(MODEL, "Hello! How can I help you today?", None);
      (USER, "Hi", None);
      (MODEL, "Hel", Some true)]].
Proof. vm_compute. reflexivity. Qed.

(** Two buffers of three frames and one frame, received at times 10 and
    11: the second starts when the first ends. *)
Example two_buffers :
  started (fst (onmessages (clock := frameClock) (env := sampleEnv) (Some "s1")
                  [audioEvent "AAAAAAAA" 10; audioEvent "AAA=" 11]
                  (freshRefs, oneSession)))
  = [(10, 3); (13, 1)]%Z.
Proof. vm_compute. reflexivity. Qed.

(** The two sessions the failing messages are tried on are reached from a
    fresh live session: by a message with audio of three frames at clock
    time 10, and by a message with the words of the user. *)
Example playing_is_reached :
  fst (onevent (clock := frameClock) (env := sampleEnv) (Some "s1")
               (freshRefs, oneSession) (audioEvent "AAAAAAAA" 10))
  = playingRefs.
Proof. vm_compute. reflexivity. Qed.

Example heard_is_reached :
  onevent (clock := frameClock) (env := sampleEnv) (Some "s1")
          (freshRefs, oneSession) (liveEvent (heard "good morning") 5)
  = (heardRefs, oneSession).
Proof. vm_compute. reflexivity. Qed.

(** A message delivered while the handler of the last message of a turn
    waits for its audio is stored with that turn; delivered after the
    handler has been resumed, it is not. *)
Example words_during_the_await_join_the_turn :
  heardThen [LDeliver (liveEvent turnEndWithAudio 11);
             LDeliver (liveEvent (heard " to you") 12);
             LResume]
  = Some ["Hello! How can I help you today?"; "good morning to you";
          "[Audio Response]"].
Proof. vm_compute. reflexivity. Qed.

Example words_after_the_turn_wait :
  heardThen [LDeliver (liveEvent turnEndWithAudio 11);
             LResume;
             LDeliver (liveEvent (heard " to you") 12)]
  = Some ["Hello! How can I help you today?"; "good morning";
          "[Audio Response]"].
Proof. vm_compute. reflexivity. Qed.

(** An interruption delivered while a handler waits for its audio does not
    reach the buffer of that handler, which starts at the reset cursor. *)
Example buffer_resumed_after_an_interruption :
  started (fst (live (liverun (clock := frameClock) (env := sampleEnv)
                  (Some "s1")
                  [LDeliver (audioEvent "AAAAAAAA" 20);
                   LDeliver (liveEvent plainInterruption 21);
                   LResume]
                  {| live := (playingRefs, oneSession); suspended := [] |})))
  = [(10, 3); (0, 3)]%Z.
Proof. vm_compute. reflexivity. Qed.

(** The sample run ends with the second session only. *)
Example sampleRun_sessions :
  map s_id (sessions (run (env := sampleEnv) initialState sampleRun)) = ["s2"].
Proof. vm_compute. reflexivity. Qed.

(* --------------------------------------------------------------------- *)
(** ** The properties on concrete runs                                    *)
(* --------------------------------------------------------------------- *)

(** C2 as stated fails when the last session is deleted: the list becomes
    empty while storage still holds the deleted session. *)
Lemma deleting_the_last_session_is_not_persisted :
  sessions (step (env := sampleEnv) oneSession (ADeleteSession "s1")) = [] /\
  stored_sessions (step (env := sampleEnv) oneSession (ADeleteSession "s1"))
  <> Some (JSON_stringify (Env := sampleEnv)
             (sessions (step (env := sampleEnv) oneSession (ADeleteSession "s1")))).
Proof. split; [vm_compute; reflexivity | vm_compute; discriminate]. Qed.

Lemma sessions_persisted_witness :
  stored_sessions (step (env := sampleEnv) oneSession AToggleKidMode)
  = Some (JSON_stringify (Env := sampleEnv)
            (sessions (step (env := sampleEnv) oneSession AToggleKidMode))).
Proof.
  apply (sessions_persisted_unless_empty (env := sampleEnv) AToggleKidMode
           oneSession (or_introl eq_refl)).
  vm_compute. discriminate.
Defined.

(** C6 as stated fails on a text part whose text is the empty string: the
    image path does not pass it to the chunk callback. *)
Lemma empty_text_part_is_not_forwarded :
  hasImages [pictureMessage] = true /\
  (exists result,
     models_generateContent (imageService [emptyTextPart])
       (imageRequest (env := sampleEnv) [pictureMessage] en false)
     = Resolved result /\
     first_candidate_parts result = Some [emptyTextPart]) /\
  part_text emptyTextPart = Some "" /\
  ~ In (ChunkCallback "")
       (final (callbacks (env := sampleEnv) (imageService [emptyTextPart])
                         [pictureMessage] en false)).
Proof.
  split; [reflexivity|]. split; [eexists; split; reflexivity|].
  split; [reflexivity|]. vm_compute. intros [].
Qed.

(** C8 as stated fails: the same props render differently on two hosts
    that differ in their time zone only, so the view depends on state
    outside the inputs of the component. *)
Lemma render_depends_on_the_host_time_zone :
  fst (ChatMessage utcHost sampleProps) <> fst (ChatMessage cetHost sampleProps).
Proof. vm_compute. discriminate. Qed.

Lemma render_witness :
  fst (ChatMessage utcHost sampleProps) = fst (ChatMessage laterUtcHost sampleProps)
  /\ snd (ChatMessage utcHost sampleProps) = utcHost.
Proof.
  destruct (render_depends_on_props_and_time_format utcHost laterUtcHost
              sampleProps sampleProps) as (Hhost & _ & _ & _ & Hkept & _).
  split; [apply Hhost; reflexivity | exact Hkept].
Defined.

Lemma streamed_content_witness :
  last_message (currentSessionId oneSession)
    (sessions (handleSendMessage (env := sampleEnv) helloService "Hi" []
                 "u1" "m2" 2000 2001 2002 oneSession))
  = Some (placeholderMessage "m2" 2001 "Hello" false).
Proof.
  refine (proj2 (proj2 (streamed_content_is_concatenation (env := sampleEnv)
            helloService "Hi" [] "u1" "m2" 2000 2001 2002 oneSession
            firstSession _ _ _)) _);
    vm_compute; reflexivity.
Defined.

Lemma failed_request_witness :
  isLoading (handleSendMessage (env := sampleEnv) brokenService "Hi" []
               "u1" "m2" 2000 2001 2002 oneSession) = false /\
  fst (final (sendRun (env := sampleEnv) brokenService "Hi" []
                "u1" "m2" 2000 2001 2002 oneSession)) = "Hel".
Proof.
  assert (W := failed_request_keeps_partial_state (env := sampleEnv)
                 brokenService "Hi" [] "u1" "m2" 2000 2001 2002 oneSession
                 firstSession "network error").
  destruct W as (Hloading & _ & _ & Hpartial).
  - vm_compute; reflexivity.
  - vm_compute; reflexivity.
  - discriminate.
  - vm_compute. intros [E | []]. discriminate E.
  - vm_compute; reflexivity.
  - split; [exact Hloading|]. rewrite Hpartial. vm_compute; reflexivity.
Defined.

Lemma ids_unique_witness : ids_unique (run (env := sampleEnv) initialState sampleRun).
Proof.
  apply (ids_unique_invariant (env := sampleEnv) initialState sampleRun).
  - split; constructor.
  - vm_compute; reflexivity.
Defined.

Lemma frameClockLaws : @AudioClockLaws Z frameClock.
Proof.
  split; cbn; intros; lia.
Qed.

Lemma playback_witness :
  exists new,
    started (fst (onmessages (clock := frameClock) (env := sampleEnv)
                    (Some "s1") [audioEvent "AAAAAAAA" 10; audioEvent "AAA=" 11]
                    (freshRefs, oneSession)))
    = started freshRefs ++ new /\
    map snd new
    = map (fun buffer => frames_duration (AudioClock := frameClock)
                           (frameCount buffer))
          (omap awaited [audioEvent "AAAAAAAA" 10; audioEvent "AAA=" 11]).
Proof.
  destruct (proj1 (proj2 (playback_is_sequential (clock := frameClock)
              (laws := frameClockLaws) (env := sampleEnv) (Some "s1")))
              [audioEvent "AAAAAAAA" 10; audioEvent "AAA=" 11]
              (freshRefs, oneSession))
    as (new & Hnew & Hdur & _).
  - repeat constructor.
  - exists new. split; [exact Hnew|exact Hdur].
Defined.

Lemma turn_completion_witness :
  turn_stored (Some "s1") (liveEvent spokenTurn 10)
    "good morning" "" oneSession
    (snd (onevent (clock := frameClock) (env := sampleEnv) (Some "s1")
            (freshRefs, oneSession) (liveEvent spokenTurn 10)))
    (fst (onevent (clock := frameClock) (env := sampleEnv) (Some "s1")
            (freshRefs, oneSession) (liveEvent spokenTurn 10))).
Proof.
  refine (proj2 (proj2 (turn_completion_appends_two_messages
            (clock := frameClock) (env := sampleEnv) (Some "s1")
            (liveEvent spokenTurn 10) _)) (freshRefs, oneSession) _).
  - reflexivity.
  - discriminate.
Defined.

(* --------------------------------------------------------------------- *)
(** ** More properties on concrete runs                                   *)
(* --------------------------------------------------------------------- *)

Lemma current_session_witness :
  exists s,
    find_session (Some "s1")
      (sessions (run (env := sampleEnv) initialState clickRun)) = Some s.
Proof.
  refine (current_session_is_listed (env := sampleEnv) initialState clickRun
            _ _ "s1" _).
  - exact I.
  - vm_compute; reflexivity.
  - vm_compute; reflexivity.
Defined.

Lemma stored_language_witness :
  lang_persisted (run (env := sampleEnv) oneSession [ASetLanguage pt]) /\
  lang_persisted (run (env := sampleEnv) initialState [ASetLanguage pt]).
Proof.
  apply (stored_language_follows_the_interface (env := sampleEnv) oneSession
           [ASetLanguage pt]).
  intros _. vm_compute; reflexivity.
Defined.

Lemma createNewSession_witness :
  currentSessionId (createNewSession (env := sampleEnv) "s2" "m5" 4000 4001
                      oneSession) = Some "s2".
Proof.
  refine (proj1 (proj2 (createNewSession_prepends (env := sampleEnv)
            "s2" "m5" 4000 4001 oneSession _))).
  vm_compute. intros [E | []]. discriminate E.
Defined.

Lemma navigation_witness :
  In (hd firstSession (sessions chattedStore))
     (sessions (step (env := sampleEnv) chattedStore (ASetLanguage pt))).
Proof.
  apply (navigation_keeps_conversations (env := sampleEnv) (ASetLanguage pt)
           chattedStore (hd firstSession (sessions chattedStore))).
  - reflexivity.
  - vm_compute. left. reflexivity.
  - vm_compute. discriminate.
  - discriminate.
Defined.

Lemma append_only_witness :
  exists s',
    In s' (sessions (run (env := sampleEnv) oneSession busyRun)) /\
    grown firstSession s'.
Proof.
  apply (messages_are_append_only (env := sampleEnv) oneSession busyRun
           firstSession).
  - vm_compute. left. reflexivity.
  - repeat constructor; discriminate.
Defined.

Lemma lost_send_witness :
  submit (env := sampleEnv) helloService "u1" "m2" 2000 2001 2002
         ({| ci_text := "Hi"; ci_attachments := [] |}, emptiedStore)
  = ({| ci_text := ""; ci_attachments := [] |}, emptiedStore).
Proof.
  apply (send_without_session_is_lost (env := sampleEnv) helloService
           "u1" "m2" 2000 2001 2002
           {| ci_text := "Hi"; ci_attachments := [] |} emptiedStore).
  - left. reflexivity.
  - reflexivity.
  - vm_compute; reflexivity.
Defined.

Lemma first_title_witness :
  exists s',
    find_session (Some "s1") (sessions chattedStore) = Some s' /\
    title s' = "Hi".
Proof.
  destruct (first_send_titles_the_session (env := sampleEnv) helloService
              "Hi" [] "u1" "m2" 2000 2001 2002 oneSession firstSession)
    as (s' & Hf & Ht & _).
  - vm_compute; reflexivity.
  - vm_compute; reflexivity.
  - exists s'. split; [exact Hf|]. rewrite Ht. vm_compute; reflexivity.
Defined.

Lemma image_model_witness :
  exists s',
    find_session (Some "s1")
      (sessions (handleSendMessage (env := sampleEnv) (imageService [])
                   "What is this?" [pictureAttachment]
                   "u1" "m2" 2000 2001 2002 oneSession)) = Some s' /\
    hasImages (messages s') = true.
Proof.
  destruct (attachments_switch_the_session_to_the_image_model
              (env := sampleEnv) (imageService [])
              "What is this?" [pictureAttachment] "u1" "m2" 2000 2001 2002
              helloService "And this?" [] "u3" "m4" 3000 3001 3002
              oneSession firstSession)
    as (s' & Hf & Hi & _).
  - vm_compute; reflexivity.
  - vm_compute; reflexivity.
  - left. discriminate.
  - exists s'. split; [exact Hf|exact Hi].
Defined.

Lemma attached_file_witness :
  exists payload,
    Base64.atob payload = Some "abc" /\
    handleSend false
      (handleFileChange (Some [smallFile])
         {| ci_text := "Look"; ci_attachments := [] |})
    = ({| ci_text := ""; ci_attachments := [] |},
       Some ("Look", [ {| mimeType := "image/png"; data := Some payload;
                          url := Some (file_result smallFile) |} ])).
Proof.
  destruct (attached_file_reaches_the_request "image/png" "abc" "Look" "u1"
              2000 smallFile) as (payload & Ha & Hs & _).
  - reflexivity.
  - reflexivity.
  - exists payload. split; [exact Ha|exact Hs].
Defined.

Lemma placeholder_witness :
  exists v,
    last (messageList utcHost None
            (handleSendMessage (env := sampleEnv) brokenService "Hi" []
               "u1" "m2" 2000 2001 2002 oneSession)) = Some v /\
    v_cursor v = true.
Proof.
  destruct (placeholder_shows_cursor_until_done (env := sampleEnv)
              utcHost None brokenService "Hi" [] "u1" "m2" 2000 2001 2002
              [ChunkCallback "Hel"] oneSession firstSession)
    as (_ & v & Hl & _ & Hc & _).
  - vm_compute; reflexivity.
  - vm_compute; reflexivity.
  - exists v. split; [exact Hl|exact Hc].
Defined.

Lemma transcriptions_witness :
  transcription_input
    (fst (onmessages (clock := frameClock) (env := sampleEnv) (Some "s1")
            [heardEvent (Some "good ") None; heardEvent (Some "morning") (Some "hi")]
            (freshRefs, oneSession)))
  = "" +:+ String.concat ""
             (map input_text
                  [heardEvent (Some "good ") None;
                   heardEvent (Some "morning") (Some "hi")]).
Proof.
  refine (proj1 (transcriptions_accumulate_in_arrival_order
            (clock := frameClock) (env := sampleEnv) (Some "s1")
            [heardEvent (Some "good ") None; heardEvent (Some "morning") (Some "hi")]
            (freshRefs, oneSession) _)).
  repeat constructor.
Defined.

Lemma audio_sources_witness :
  sources_tracked
    (fst (live (liverun (clock := frameClock) (env := sampleEnv) (Some "s1")
            [LDeliver (audioEvent "AAAAAAAA" 10);
             LDeliver (audioEvent "AAAA" 11); LResume; LEnded 0%nat;
             LDeliver (liveEvent plainInterruption 12); LStop]
            {| live := (freshRefs, oneSession); suspended := [] |}))).
Proof.
  refine (proj1 (audio_sources_are_started_and_not_stopped
            (clock := frameClock) (env := sampleEnv) (Some "s1")
            [LDeliver (audioEvent "AAAAAAAA" 10);
             LDeliver (audioEvent "AAAA" 11); LResume; LEnded 0%nat;
             LDeliver (liveEvent plainInterruption 12); LStop]
            {| live := (freshRefs, oneSession); suspended := [] |} _)).
  split; intros n Hn; cbn in Hn; now apply not_elem_of_empty in Hn.
Defined.
